(** * FilterX expression core of axosyslog: a shallow embedding

    The development follows these C sources:
    - [lib/filterx/filterx-variable.h]   (module [FxVariable])
    - [lib/filterx/expr-compound.c]      (module [Compound])
    - [lib/filterx/filterx-expr.c],
      [lib/filterx/expr-literal-generator.c] (module [Lifecycle])
    - [lib/filterx/func-str.c]           (module [FuncStr])
    - [lib/filterx/expr-regexp-search.c] (module [RegexpSearch])
    - [lib/transport/transport-tls.c]    (module [TransportTLS])

    C pointers that may be NULL are [option]s, [gboolean] results of
    comparisons are [bool]s, fixed-width integers are [Z] with the
    truncation written out, [gchar] buffers are lists of [ascii]. *)

From Stdlib Require Import String Ascii List ZArith Bool Lia.
From Stdlib Require Import Decimal DecimalString DecimalN.
Import ListNotations.

Set Implicit Arguments.

(** ** Byte strings *)

Definition bytes := list ascii.

Definition bytes_of (s : string) : bytes := list_ascii_of_string s.

Definition byte_eqb (a b : ascii) : bool := Ascii.eqb a b.

Fixpoint bytes_eqb (a b : bytes) : bool :=
  match a, b with
  | [], [] => true
  | x :: a', y :: b' => byte_eqb x y && bytes_eqb a' b'
  | _, _ => false
  end.

Definition NUL : ascii := Ascii.zero.

(** The bytes of a buffer up to its first NUL: what a callee that takes a
    [const gchar *] without a length sees. *)
Fixpoint c_string (s : bytes) : bytes :=
  match s with
  | [] => []
  | c :: rest => if byte_eqb c NUL then [] else c :: c_string rest
  end.

(** [gsize] lengths are non-negative [Z]s. *)
Definition gs_len (s : bytes) : Z := Z.of_nat (length s).

(** Conversion of a 64-bit unsigned value to [gssize]. *)
Definition to_gssize (z : Z) : Z :=
  if (z mod 2 ^ 64 <? 2 ^ 63)%Z then (z mod 2 ^ 64)%Z else (z mod 2 ^ 64 - 2 ^ 64)%Z.

(** Conversion to [gint]. *)
Definition to_gint (z : Z) : Z :=
  if (z mod 2 ^ 32 <? 2 ^ 31)%Z then (z mod 2 ^ 32)%Z else (z mod 2 ^ 32 - 2 ^ 32)%Z.

(** ** The object universe

    The value types live in [object-*.c], which is not modelled; the
    constructors below are the kinds the data model lists.  Doubles are
    left out: no function modelled here inspects one. *)

#[warnings="-register-all"]
Inductive FilterXObject : Type :=
| FxNull
| FxBoolean (b : bool)
| FxInteger (z : Z)
| FxString (s : bytes)
| FxBytes (s : bytes)
| FxList (elems : list FilterXObject)
| FxDict (entries : list (bytes * FilterXObject)).

(** [filterx_boolean_new] *)
Definition filterx_boolean_new (b : bool) : FilterXObject := FxBoolean b.

(** Modelled from the spec: [filterx_string_new(str + offset, len)] of
    [object-string.c] copies [len] bytes, or the C string at that address
    when [len] is negative. *)
Definition filterx_string_new (str : bytes) (offset : Z) (len : Z) : FilterXObject :=
  if (len <? 0)%Z
  then FxString (c_string (skipn (Z.to_nat offset) str))
  else FxString (firstn (Z.to_nat len) (skipn (Z.to_nat offset) str)).

(** ** Variables: [filterx-variable.h] *)

Module FxVariable.

Inductive FilterXVariableType : Type :=
| FX_VAR_MESSAGE_TIED
| FX_VAR_FLOATING
| FX_VAR_DECLARED_FLOATING.

Definition FilterXVariableType_eqb (a b : FilterXVariableType) : bool :=
  match a, b with
  | FX_VAR_MESSAGE_TIED, FX_VAR_MESSAGE_TIED => true
  | FX_VAR_FLOATING, FX_VAR_FLOATING => true
  | FX_VAR_DECLARED_FLOATING, FX_VAR_DECLARED_FLOATING => true
  | _, _ => false
  end.

(** [guint32] and [guint16] *)
Definition FilterXVariableHandle := Z.
Definition FilterXGenCounter := Z.

Definition to_guint32 (z : Z) : Z := (z mod 2 ^ 32)%Z.
Definition to_guint16 (z : Z) : Z := (z mod 2 ^ 16)%Z.

(** [gboolean] arguments are C ints. *)
Definition gboolean := Z.
Definition TRUE : gboolean := 1%Z.
Definition FALSE : gboolean := 0%Z.

Definition FILTERX_HANDLE_FLOATING_BIT : Z := Z.shiftl 1 31.

Definition filterx_variable_handle_is_floating (handle : FilterXVariableHandle) : bool :=
  negb (Z.land handle FILTERX_HANDLE_FLOATING_BIT =? 0)%Z.

Definition filterx_variable_handle_is_message_tied (handle : FilterXVariableHandle) : bool :=
  negb (filterx_variable_handle_is_floating handle).

Definition filterx_variable_handle_to_nv_handle (handle : FilterXVariableHandle) : Z :=
  Z.land handle (to_guint32 (Z.lnot FILTERX_HANDLE_FLOATING_BIT)).

(** The struct: [assigned] is a one-bit field, [variable_type] a two-bit
    one, [value] an owned pointer that is NULL when the variable is
    unset. *)
Record FilterXVariable : Type := mkVariable {
  handle : FilterXVariableHandle;
  assigned : bool;
  variable_type : FilterXVariableType;
  generation : FilterXGenCounter;
  value : option FilterXObject
}.

Definition filterx_variable_is_floating (v : FilterXVariable) : bool :=
  filterx_variable_handle_is_floating (handle v).

Definition filterx_variable_is_message_tied (v : FilterXVariable) : bool :=
  filterx_variable_handle_is_message_tied (handle v).

Definition filterx_variable_get_nv_handle (v : FilterXVariable) : Z :=
  filterx_variable_handle_to_nv_handle (handle v).

Definition filterx_variable_get_value (v : FilterXVariable) : option FilterXObject :=
  value v.

(** Storing a [gboolean] into the one-bit field keeps its low bit. *)
Definition filterx_variable_set_value (v : FilterXVariable)
    (new_value : option FilterXObject) (assignment : gboolean)
    (generation : FilterXGenCounter) : FilterXVariable :=
  {| handle := handle v;
     assigned := Z.odd assignment;
     variable_type := variable_type v;
     generation := to_guint16 generation;
     value := new_value |}.

Definition filterx_variable_unset_value (v : FilterXVariable)
    (generation : FilterXGenCounter) : FilterXVariable :=
  filterx_variable_set_value v None TRUE generation.

Definition filterx_variable_is_set (v : FilterXVariable) : bool :=
  match value v with
  | Some _ => true
  | None => false
  end.

Definition filterx_variable_is_declared (v : FilterXVariable) : bool :=
  FilterXVariableType_eqb (variable_type v) FX_VAR_DECLARED_FLOATING.

Definition filterx_variable_is_assigned (v : FilterXVariable) : bool :=
  assigned v.

Definition filterx_variable_is_same_generation (v : FilterXVariable)
    (generation : FilterXGenCounter) : bool :=
  (FxVariable.generation v =? to_guint16 generation)%Z.

Definition filterx_variable_set_generation (v : FilterXVariable)
    (generation : FilterXGenCounter) : FilterXVariable :=
  {| handle := handle v;
     assigned := assigned v;
     variable_type := variable_type v;
     generation := to_guint16 generation;
     value := value v |}.

Definition filterx_variable_unassign (v : FilterXVariable) : FilterXVariable :=
  {| handle := handle v;
     assigned := false;
     variable_type := variable_type v;
     generation := generation v;
     value := value v |}.

End FxVariable.

(** ** The evaluation context

    [filterx-eval.h] declares the context; the fields below are the ones
    the functions modelled here read or write. *)

(** Modelled from the spec: the [eval_control_modifier] enum of
    [filterx-eval.h], with the three values the data model names
    (NONE, DROP, DONE). *)
Inductive FilterXEvalControlModifier : Type :=
| FXC_NONE
| FXC_DROP
| FXC_DONE.

(** One frame of the error stack: message, offending expression (by its
    identifier) and object. *)
Record FilterXError : Type := mkError {
  error_message : string;
  error_expr : option nat;
  error_object : option FilterXObject
}.

Record FilterXEvalContext : Type := mkContext {
  eval_control_modifier : FilterXEvalControlModifier;
  error_stack : list FilterXError;
  variables : list FxVariable.FilterXVariable
}.

(** Modelled from the spec: [filterx_eval_push_error] of [filterx-eval.c],
    which pushes a frame with location, message and object onto the
    context's error stack. *)
Definition filterx_eval_push_error (msg : string) (expr : option nat)
    (obj : option FilterXObject) (ctx : FilterXEvalContext) : FilterXEvalContext :=
  {| eval_control_modifier := eval_control_modifier ctx;
     error_stack := mkError msg expr obj :: error_stack ctx;
     variables := variables ctx |}.

(** Diagnostics emitted through [msg_debug] and [msg_trace]. *)
Inductive Diagnostic : Type :=
| FILTERX_FALSY (expr : nat) (value : FilterXObject)
| FILTERX_ESTEP (expr : nat) (value : FilterXObject) (truthy : bool).

(** The state an evaluation runs in: the context, the sequence of
    expressions whose [eval] was dispatched (what the per-expression
    [eval_count] counters record), and the diagnostics written. *)
Record EvalState : Type := mkState {
  context : FilterXEvalContext;
  evaluated : list nat;
  messages : list Diagnostic
}.

Definition with_context (st : EvalState) (ctx : FilterXEvalContext) : EvalState :=
  {| context := ctx; evaluated := evaluated st; messages := messages st |}.

Definition log_message (d : Diagnostic) (st : EvalState) : EvalState :=
  {| context := context st; evaluated := evaluated st; messages := messages st ++ [d] |}.

(** An expression node as its parent sees it: an identifier, its [eval]
    method acting on the context, the two flags, and what the
    [filterx_expr_is_literal] and [filterx_expr_is_literal_list_generator]
    tests (comparisons of the [eval] and [create_container] pointers) can
    tell about it: a literal, a literal list generator with the value
    expressions of its elements, or anything else. *)
Inductive FilterXExprShape (E : Type) : Type :=
| SHAPE_LITERAL
| SHAPE_LITERAL_LIST_GENERATOR (elements : list E)
| SHAPE_OTHER.

Arguments SHAPE_LITERAL {E}.
Arguments SHAPE_OTHER {E}.

#[warnings="-register-all"]
Inductive FilterXExpr : Type := mkExpr {
  expr_id : nat;
  eval : FilterXEvalContext -> option FilterXObject * FilterXEvalContext;
  ignore_falsy_result : bool;
  suppress_from_trace : bool;
  shape : FilterXExprShape FilterXExpr
}.

(** Modelled from the spec: [filterx_expr_eval] of [filterx-expr.h], which
    counts the evaluation in the node's [eval_count] and dispatches to its
    [eval] method. *)
Definition filterx_expr_eval (expr : FilterXExpr) (st : EvalState)
    : option FilterXObject * EvalState :=
  let '(res, ctx') := eval expr (context st) in
  (res, {| context := ctx';
           evaluated := evaluated st ++ [expr_id expr];
           messages := messages st |}).

(** Every expression of a list evaluated in turn, whatever it returns:
    the results and the contexts they leave behind. *)
Fixpoint eval_in_sequence (l : list FilterXExpr) (ctx : FilterXEvalContext)
    : list (option FilterXObject * FilterXEvalContext) :=
  match l with
  | [] => []
  | expr :: rest =>
      let rc := eval expr ctx in
      rc :: eval_in_sequence rest (snd rc)
  end.

(** ** Compound expressions: [expr-compound.c] *)

Module Compound.

Record FilterXCompoundExpr : Type := mkCompound {
  super_id : nat;
  return_value_of_last_expr : bool;
  exprs : list FilterXExpr
}.

Definition is_drop_or_done (m : FilterXEvalControlModifier) : bool :=
  match m with
  | FXC_DROP | FXC_DONE => true
  | FXC_NONE => false
  end.

Section Eval.

(** [filterx_object_truthy] dispatches to the object's type; the
    global [debug_flag] and [trace_flag] come from [messages.h]. *)
Variable filterx_object_truthy : FilterXObject -> bool.
Variables debug_flag trace_flag : bool.

(** The rendering of the value into a scratch buffer only feeds the
    message text; its failure branch is [g_assert_not_reached]. *)
Definition _eval_expr (expr : FilterXExpr) (st : EvalState)
    : bool * option FilterXObject * EvalState :=
  let '(res, st1) := filterx_expr_eval expr st in
  match res with
  | None => (false, None, st1)
  | Some o =>
      let success := ignore_falsy_result expr || filterx_object_truthy o in
      let st2 :=
        if ((negb success && debug_flag) || trace_flag) && negb (suppress_from_trace expr)
        then
          if negb success
          then log_message (FILTERX_FALSY (expr_id expr) o) st1
          else log_message (FILTERX_ESTEP (expr_id expr) o (filterx_object_truthy o)) st1
        else st1 in
      (success, Some o, st2)
  end.

(** The [for] loop of [_eval_exprs].  [result] is the caller's
    [*result]: [filterx_object_unref] drops the reference it holds but
    does not reset the pointer, so the value stays in place when the
    loop leaves on a control modifier. *)
Fixpoint _eval_exprs_loop (l : list FilterXExpr) (result : option FilterXObject)
    (st : EvalState) : bool * option FilterXObject * EvalState :=
  match l with
  | [] => (true, result, st)
  | expr :: rest =>
      if is_drop_or_done (eval_control_modifier (context st))
      then (true, result, st)
      else
        let '(ok, r, st') := _eval_expr expr st in
        if ok then _eval_exprs_loop rest r st' else (false, r, st')
  end.

Definition _eval_exprs (self : FilterXCompoundExpr) (st : EvalState)
    : bool * option FilterXObject * EvalState :=
  _eval_exprs_loop (exprs self) None st.

Definition _eval_compound (self : FilterXCompoundExpr) (st : EvalState)
    : option FilterXObject * EvalState :=
  let '(ok, result, st') := _eval_exprs self st in
  if negb ok
  then
    match result with
    | Some r =>
        (None,
         with_context st'
           (filterx_eval_push_error "bailing out due to a falsy expr"
              (Some (super_id self)) (Some r) (context st')))
    | None => (None, st')
    end
  else
    match result with
    | Some r =>
        if return_value_of_last_expr self
        then (Some r, st')
        else (Some (filterx_boolean_new true), st')
    | None => (Some (filterx_boolean_new true), st')
    end.

(** A child result that is a truthy object and leaves no control
    modifier behind. *)
Definition truthy_and_unmodified (rc : option FilterXObject * FilterXEvalContext) : bool :=
  match fst rc with
  | Some o =>
      filterx_object_truthy o && negb (is_drop_or_done (eval_control_modifier (snd rc)))
  | None => false
  end.

Definition last_result (l : list (option FilterXObject * FilterXEvalContext))
    : option FilterXObject :=
  last (map fst l) None.

End Eval.

End Compound.

(** ** Initialisation of nodes with children: [filterx-expr.c],
    [expr-compound.c], [expr-literal-generator.c] *)

Module Lifecycle.

(** A child as [init] and [deinit] see it: whether its own [init] method
    succeeds, and whether it is currently initialised. *)
Record Node : Type := mkNode {
  node_id : nat;
  init_succeeds : bool;
  inited : bool
}.

(** What the lifecycle calls do, in the order they happen. *)
Inductive Event : Type :=
| EvInit (id : nat)
| EvDeinit (id : nat)
| EvRegisterCounter (key : string)
| EvUnregisterCounter (key : string).

Definition set_inited (n : Node) (b : bool) : Node :=
  {| node_id := node_id n; init_succeeds := init_succeeds n; inited := b |}.

(** Modelled from the spec: [filterx_expr_init] of [filterx-expr.h]
    dispatches to the node's [init] method; the node counts as
    initialised from a successful [init] to the matching [deinit].  A NULL
    expression (the key of a list element) initialises trivially. *)
Definition filterx_expr_init (e : option Node) (log : list Event)
    : bool * option Node * list Event :=
  match e with
  | None => (true, None, log)
  | Some n =>
      if init_succeeds n
      then (true, Some (set_inited n true), log ++ [EvInit (node_id n)])
      else (false, Some n, log ++ [EvInit (node_id n)])
  end.

(** Modelled from the spec: [filterx_expr_deinit] of [filterx-expr.h], the
    teardown symmetric to [filterx_expr_init]. *)
Definition filterx_expr_deinit (e : option Node) (log : list Event)
    : option Node * list Event :=
  match e with
  | None => (None, log)
  | Some n => (Some (set_inited n false), log ++ [EvDeinit (node_id n)])
  end.

(** The same on an expression that is never NULL. *)
Definition init_node (n : Node) (log : list Event) : bool * Node * list Event :=
  if init_succeeds n
  then (true, set_inited n true, log ++ [EvInit (node_id n)])
  else (false, n, log ++ [EvInit (node_id n)]).

Definition deinit_node (n : Node) (log : list Event) : Node * list Event :=
  (set_inited n false, log ++ [EvDeinit (node_id n)]).

(** [filterx_expr_init_method] *)
Definition filterx_expr_init_method : bool := true.

(** *** [expr-compound.c]: [_init] and [_deinit] *)

(** The inner loop [for (j = 0; j < i; j++) filterx_expr_deinit(...)]. *)
Fixpoint compound_deinit_loop (l : list Node) (log : list Event)
    : list Node * list Event :=
  match l with
  | [] => ([], log)
  | e :: rest =>
      let '(e', log1) := deinit_node e log in
      let '(rest', log2) := compound_deinit_loop rest log1 in
      (e' :: rest', log2)
  end.

(** The outer loop: [done] holds the children at the indices below [i],
    [todo] those from [i] on; the result is the array afterwards. *)
Fixpoint compound_init_loop (done todo : list Node) (log : list Event)
    : bool * list Node * list Event :=
  match todo with
  | [] => (true, done, log)
  | e :: rest =>
      let '(ok, e', log1) := init_node e log in
      if ok
      then compound_init_loop (done ++ [e']) rest log1
      else
        let '(done', log2) := compound_deinit_loop done log1 in
        (false, done' ++ e' :: rest, log2)
  end.

Definition compound_init (exprs : list Node) (log : list Event)
    : bool * list Node * list Event :=
  let '(ok, exprs', log1) := compound_init_loop [] exprs log in
  if ok
  then (filterx_expr_init_method, exprs',
        log1 ++ [EvRegisterCounter "fx_compound_evals_total"])
  else (false, exprs', log1).

Definition compound_deinit (exprs : list Node) (log : list Event)
    : list Node * list Event :=
  compound_deinit_loop exprs (log ++ [EvUnregisterCounter "fx_compound_evals_total"]).

(** *** [filterx-expr.c]: the binary operator *)

Record FilterXBinaryOp : Type := mkBinaryOp {
  lhs : Node;
  rhs : Node
}.

Definition filterx_binary_op_init_method (self : FilterXBinaryOp) (log : list Event)
    : bool * FilterXBinaryOp * list Event :=
  let '(ok_l, lhs', log1) := init_node (lhs self) log in
  if negb ok_l
  then (false, {| lhs := lhs'; rhs := rhs self |}, log1)
  else
    let '(ok_r, rhs', log2) := init_node (rhs self) log1 in
    if negb ok_r
    then (false, {| lhs := lhs'; rhs := rhs' |}, log2)
    else (filterx_expr_init_method, {| lhs := lhs'; rhs := rhs' |},
          log2 ++ [EvRegisterCounter "fx_op_evals_total"]).

Definition filterx_binary_op_deinit_method (self : FilterXBinaryOp) (log : list Event)
    : FilterXBinaryOp * list Event :=
  let log0 := log ++ [EvUnregisterCounter "fx_op_evals_total"] in
  let '(lhs', log1) := deinit_node (lhs self) log0 in
  let '(rhs', log2) := deinit_node (rhs self) log1 in
  ({| lhs := lhs'; rhs := rhs' |}, log2).

(** *** [expr-literal-generator.c] *)

Record FilterXLiteralGeneratorElem : Type := mkElem {
  key : option Node;
  value : Node;
  cloneable : bool
}.

Definition _literal_generator_elem_init (self : FilterXLiteralGeneratorElem)
    (log : list Event) : bool * FilterXLiteralGeneratorElem * list Event :=
  let '(ok_k, key', log1) := filterx_expr_init (key self) log in
  if negb ok_k
  then (false, {| key := key'; value := value self; cloneable := cloneable self |}, log1)
  else
    let '(ok_v, value', log2) := init_node (value self) log1 in
    if negb ok_v
    then
      let '(key'', log3) := filterx_expr_deinit key' log2 in
      (false, {| key := key''; value := value'; cloneable := cloneable self |}, log3)
    else (true, {| key := key'; value := value'; cloneable := cloneable self |}, log2).

Definition _literal_generator_elem_deinit (self : FilterXLiteralGeneratorElem)
    (log : list Event) : FilterXLiteralGeneratorElem * list Event :=
  let '(key', log1) := filterx_expr_deinit (key self) log in
  let '(value', log2) := deinit_node (value self) log1 in
  ({| key := key'; value := value'; cloneable := cloneable self |}, log2).

(** The inner loop, from the head of the list up to the failing link. *)
Fixpoint generator_deinit_loop (l : list FilterXLiteralGeneratorElem) (log : list Event)
    : list FilterXLiteralGeneratorElem * list Event :=
  match l with
  | [] => ([], log)
  | e :: rest =>
      let '(e', log1) := _literal_generator_elem_deinit e log in
      let '(rest', log2) := generator_deinit_loop rest log1 in
      (e' :: rest', log2)
  end.

Fixpoint generator_init_loop (done todo : list FilterXLiteralGeneratorElem)
    (log : list Event) : bool * list FilterXLiteralGeneratorElem * list Event :=
  match todo with
  | [] => (true, done, log)
  | e :: rest =>
      let '(ok, e', log1) := _literal_generator_elem_init e log in
      if ok
      then generator_init_loop (done ++ [e']) rest log1
      else
        let '(done', log2) := generator_deinit_loop done log1 in
        (false, done' ++ e' :: rest, log2)
  end.

(** [filterx_generator_init_method] lives in [expr-generator.c]; its
    result is a parameter. *)
Definition _literal_generator_init (filterx_generator_init_method : bool)
    (elements : list FilterXLiteralGeneratorElem) (log : list Event)
    : bool * list FilterXLiteralGeneratorElem * list Event :=
  let '(ok, elements', log1) := generator_init_loop [] elements log in
  if ok
  then (filterx_generator_init_method, elements', log1)
  else (false, elements', log1).

Definition _literal_generator_deinit (elements : list FilterXLiteralGeneratorElem)
    (log : list Event) : list FilterXLiteralGeneratorElem * list Event :=
  generator_deinit_loop elements log.

(** The children of an element in the order [_literal_generator_elem_init]
    visits them, and whether that function succeeds on it. *)
Definition key_nodes (e : FilterXLiteralGeneratorElem) : list Node :=
  match key e with
  | Some k => [k]
  | None => []
  end.

Definition elem_nodes (e : FilterXLiteralGeneratorElem) : list Node :=
  key_nodes e ++ [value e].

Definition elem_init_succeeds (e : FilterXLiteralGeneratorElem) : bool :=
  forallb init_succeeds (elem_nodes e).

(** An element after a successful [_literal_generator_elem_init]. *)
Definition elem_after_init (e : FilterXLiteralGeneratorElem) : FilterXLiteralGeneratorElem :=
  {| key := option_map (fun n => set_inited n true) (key e);
     value := set_inited (value e) true;
     cloneable := cloneable e |}.

(** What the failing element logs: the inits it got to, and the deinit of
    its key when it was the value that failed. *)
Definition failing_elem_events (e : FilterXLiteralGeneratorElem) : list Event :=
  match key e with
  | Some k =>
      if init_succeeds k
      then [EvInit (node_id k); EvInit (node_id (value e)); EvDeinit (node_id k)]
      else [EvInit (node_id k)]
  | None => [EvInit (node_id (value e))]
  end.

End Lifecycle.

(** ** String predicates: [func-str.c] *)

Module FuncStr.

(** *** The library calls *)

Definition G_MAXSSIZE : Z := (2 ^ 63 - 1)%Z.

Fixpoint is_prefix_of (needle hay : bytes) : bool :=
  match needle, hay with
  | [], _ => true
  | x :: needle', y :: hay' => byte_eqb x y && is_prefix_of needle' hay'
  | _ :: _, [] => false
  end.

(** [memcmp(a, b, n) == 0] *)
Definition memcmp_eq (a b : bytes) (n : Z) : bool :=
  bytes_eqb (firstn (Z.to_nat n) a) (firstn (Z.to_nat n) b).

(** The scanning loop of GLib's [g_strstr_len]:
    [while (p <= end && *p)], comparing [needle_len] bytes at [p]. *)
Fixpoint strstr_scan (needle hay : bytes) : bool :=
  if (length hay <? length needle)%nat then false
  else
    match hay with
    | [] => false
    | c :: rest =>
        if byte_eqb c NUL then false
        else if is_prefix_of needle hay then true
        else strstr_scan needle rest
    end.

(** libc's [strstr] on two C strings, as a found/not-found answer. *)
Definition strstr (haystack needle : bytes) : bool :=
  match c_string needle with
  | [] => true
  | n => strstr_scan n (c_string haystack)
  end.

(** GLib's [g_strstr_len(haystack, haystack_len, needle) != NULL]: the
    needle is measured with [strlen]; a negative length falls back to
    [strstr]. *)
Definition g_strstr_len (haystack : bytes) (haystack_len : Z) (needle : bytes) : bool :=
  if (haystack_len <? 0)%Z then strstr haystack needle
  else
    let n := c_string needle in
    if (gs_len n =? 0)%Z then true
    else if (haystack_len <? gs_len n)%Z then false
    else strstr_scan n (firstn (Z.to_nat haystack_len) haystack).

(** *** The three predicates *)

Definition FilterXExprAffixProcessFunc : Type := bytes -> Z -> bytes -> Z -> bool.

Definition _function_startswith_process : FilterXExprAffixProcessFunc :=
  fun haystack haystack_len needle needle_len =>
    if (haystack_len <? needle_len)%Z then false
    else memcmp_eq haystack needle needle_len.

Definition _function_endswith_process : FilterXExprAffixProcessFunc :=
  fun haystack haystack_len needle needle_len =>
    if (haystack_len <? needle_len)%Z then false
    else memcmp_eq (skipn (Z.to_nat (haystack_len - needle_len)) haystack) needle needle_len.

Definition _function_includes_process : FilterXExprAffixProcessFunc :=
  fun haystack haystack_len needle needle_len =>
    if (haystack_len <? needle_len)%Z then false
    else g_strstr_len haystack (to_gssize haystack_len) needle.

(** *** Calls that thread the evaluation state

    A call returns a value and a state, or the process dies on a NULL
    dereference. *)

Inductive Outcome (A : Type) : Type :=
| Returned (a : A) (st : EvalState)
| Crashed.

Arguments Crashed {A}.

Definition M (A : Type) : Type := EvalState -> Outcome A.

Definition ret {A : Type} (a : A) : M A := fun st => Returned a st.

Definition bind {A B : Type} (m : M A) (f : A -> M B) : M B :=
  fun st =>
    match m st with
    | Returned a st' => f a st'
    | Crashed => Crashed
    end.

Definition crash {A : Type} : M A := fun _ => Crashed.

Notation "x <- m ;; k" := (bind m (fun x => k))
  (at level 61, m at next level, right associativity).

Definition do_eval (expr : FilterXExpr) : M (option FilterXObject) :=
  fun st => let '(res, st') := filterx_expr_eval expr st in Returned res st'.

Definition push_error (msg : string) (expr : option nat) (obj : FilterXObject) : M unit :=
  fun st => Returned tt (with_context st (filterx_eval_push_error msg expr (Some obj) (context st))).

Definition filterx_expr_is_literal (expr : FilterXExpr) : bool :=
  match shape expr with
  | SHAPE_LITERAL => true
  | _ => false
  end.

Definition filterx_expr_is_literal_list_generator (expr : FilterXExpr) : bool :=
  match shape expr with
  | SHAPE_LITERAL_LIST_GENERATOR _ => true
  | _ => false
  end.

(** The element values [filterx_literal_list_generator_foreach] walks. *)
Definition list_generator_values (expr : FilterXExpr) : list FilterXExpr :=
  match shape expr with
  | SHAPE_LITERAL_LIST_GENERATOR elements => elements
  | _ => []
  end.

Record FilterXStringWithCache : Type := mkStringWithCache {
  expr : FilterXExpr;
  str_value : option bytes;
  str_len : Z
}.

Record FilterXExprAffix : Type := mkAffix {
  ignore_case : bool;
  haystack : FilterXExpr;
  needle_expr : option FilterXExpr;
  cached_strings : list FilterXStringWithCache;
  process : FilterXExprAffixProcessFunc
}.

(** Positional arguments and the named [ignorecase] argument: absent,
    present but not a boolean literal, or a boolean literal. *)
Record FilterXFunctionArgs : Type := mkArgs {
  positional : list FilterXExpr;
  ignorecase_arg : option (option bool)
}.

Section WithLibrary.

(** GLib's [g_utf8_casefold], which always returns a string, and the
    [repr] methods of the object types other than string. *)
Variable g_utf8_casefold : bytes -> bytes.
Variable repr_other : FilterXObject -> option bytes.

(** Modelled from the spec: [filterx_object_repr] renders an object as a
    string; the [repr] of a string object ([object-string.c]) is its
    bytes. *)
Definition filterx_object_repr (obj : FilterXObject) : option bytes :=
  match obj with
  | FxString s => Some s
  | _ => repr_other obj
  end.

(** Modelled from the spec: [filterx_expr_eval_typed] of [filterx-expr.h]
    evaluates the expression; the objects of this model are already
    typed. *)
Definition filterx_expr_eval_typed (expr : FilterXExpr) : M (option FilterXObject) :=
  do_eval expr.

Definition _format_str_obj (obj : FilterXObject) : option bytes :=
  filterx_object_repr obj.

(** Success flag and the content of [str] afterwards. *)
Definition _do_casefold (str : bytes) : bool * bytes :=
  if (G_MAXSSIZE <? gs_len str)%Z then (false, str)
  else (true, g_utf8_casefold str).

(** The tail shared by [_expr_format] and [_obj_format]: with
    [ignore_case] set, [_do_casefold] reads [result->len] whether or not
    [result] is NULL. *)
Definition fold_result (result : option bytes) (ignore_case : bool) : M (option bytes) :=
  if ignore_case
  then
    match result with
    | None => crash
    | Some s =>
        let '(ok, s') := _do_casefold s in
        if ok then ret (Some s') else ret None
    end
  else ret result.

Definition _expr_format (expr : FilterXExpr) (ignore_case : bool) : M (option bytes) :=
  obj <- filterx_expr_eval_typed expr ;;
  match obj with
  | None => ret None
  | Some o =>
      let result := _format_str_obj o in
      _ <- match result with
           | None => push_error "failed to extract string value, repr() failed"
                       (Some (expr_id expr)) o
           | Some _ => ret tt
           end ;;
      fold_result result ignore_case
  end.

Definition _obj_format (obj : FilterXObject) (ignore_case : bool) : M (option bytes) :=
  let result := _format_str_obj obj in
  _ <- match result with
       | None => push_error "failed to extract string value, repr() failed" None obj
       | Some _ => ret tt
       end ;;
  fold_result result ignore_case.

(** The function reports whether the literal could be formatted; it
    assigns nothing to [self]. *)
Definition _string_with_cache_fill_cache (self : FilterXStringWithCache)
    (ignore_case : bool) : M bool :=
  if negb (filterx_expr_is_literal (expr self)) then ret true
  else
    res <- _expr_format (expr self) ignore_case ;;
    match res with
    | Some _ => ret true
    | None => ret false
    end.

(** [g_new0] zeroes the struct. *)
Definition _string_with_cache_new (e : FilterXExpr) (ignore_case : bool)
    : M (option FilterXStringWithCache) :=
  let self := {| expr := e; str_value := None; str_len := 0%Z |} in
  ok <- _string_with_cache_fill_cache self ignore_case ;;
  if ok then ret (Some self) else ret None.

(** [None] for FALSE, otherwise [( *dst, *len)]. *)
Definition _string_with_cache_get_string_value (self : FilterXStringWithCache)
    (ignore_case : bool) : M (option (bytes * Z)) :=
  match str_value self with
  | Some v => ret (Some (v, str_len self))
  | None =>
      res <- _expr_format (expr self) ignore_case ;;
      match res with
      | None => ret None
      | Some s => ret (Some (s, gs_len s))
      end
  end.

(** [_cache_needle] under [filterx_literal_list_generator_foreach]: the
    walk stops at the first element whose callback returns FALSE. *)
Fixpoint cache_needles (values : list FilterXExpr) (ignore_case : bool)
    (cached : list FilterXStringWithCache)
    : M (bool * list FilterXStringWithCache) :=
  match values with
  | [] => ret (true, cached)
  | v :: rest =>
      obj_with_cache <- _string_with_cache_new v ignore_case ;;
      match obj_with_cache with
      | None => ret (false, cached)
      | Some c => cache_needles rest ignore_case (cached ++ [c])
      end
  end.

Definition set_needle (self : FilterXExprAffix) (needle : FilterXExpr)
    (cached : list FilterXStringWithCache) : FilterXExprAffix :=
  {| ignore_case := ignore_case self;
     haystack := haystack self;
     needle_expr := Some needle;
     cached_strings := cached;
     process := process self |}.

Definition _expr_affix_init_needle (self : FilterXExprAffix) (needle : FilterXExpr)
    : M (bool * FilterXExprAffix) :=
  r1 <- (if filterx_expr_is_literal needle
         then
           obj_with_cache <- _string_with_cache_new needle (ignore_case self) ;;
           match obj_with_cache with
           | None => ret (false, cached_strings self)
           | Some c => ret (true, cached_strings self ++ [c])
           end
         else ret (true, cached_strings self)) ;;
  if negb (fst r1) then ret (false, set_needle self needle (snd r1))
  else
    if filterx_expr_is_literal_list_generator needle
    then
      r2 <- cache_needles (list_generator_values needle) (ignore_case self) (snd r1) ;;
      ret (fst r2, set_needle self needle (snd r2))
    else ret (true, set_needle self needle (snd r1)).

(** The loop over the elements of a list needle: [None] after
    [goto error]. *)
Fixpoint format_needles (elems : list FilterXObject) (ignore_case : bool)
    (needles : list bytes) : M (option (list bytes)) :=
  match elems with
  | [] => ret (Some needles)
  | elem :: rest =>
      str_value <- _obj_format elem ignore_case ;;
      match str_value with
      | None => ret None
      | Some s => format_needles rest ignore_case (needles ++ [s])
      end
  end.

Definition _expr_affix_eval_needle (self : FilterXExprAffix) : M (option (list bytes)) :=
  match needle_expr self with
  | None => crash
  | Some needle =>
      needle_obj <- do_eval needle ;;
      match needle_obj with
      | None => ret None
      | Some (FxString s) =>
          str_value <- _obj_format (FxString s) (ignore_case self) ;;
          match str_value with
          | None => ret None
          | Some v => ret (Some [v])
          end
      | Some (FxList elems) =>
          if (Z.of_nat (length elems) =? 0)%Z then ret None
          else format_needles elems (ignore_case self) []
      | Some _ => ret None
      end
  end.

(** The loop over the cached needles,
    [for (i = 0; i < len && !matches; i++)]: [None] after [goto exit]. *)
Fixpoint cached_needles_loop (process : FilterXExprAffixProcessFunc)
    (ignore_case : bool) (haystack_str : bytes)
    (l : list FilterXStringWithCache) (matches : bool) : M (option bool) :=
  match l with
  | [] => ret (Some matches)
  | current_needle :: rest =>
      if matches then ret (Some matches)
      else
        v <- _string_with_cache_get_string_value current_needle ignore_case ;;
        match v with
        | None => ret None
        | Some (needle_str, needle_len) =>
            cached_needles_loop process ignore_case haystack_str rest
              (process haystack_str (gs_len haystack_str) needle_str needle_len)
        end
  end.

(** The loop over the evaluated needles. *)
Fixpoint needle_list_loop (process : FilterXExprAffixProcessFunc)
    (haystack_str : bytes) (l : list bytes) (matches : bool) : bool :=
  match l with
  | [] => matches
  | current_needle :: rest =>
      if matches then matches
      else
        needle_list_loop process haystack_str rest
          (process haystack_str (gs_len haystack_str) current_needle (gs_len current_needle))
  end.

Definition _expr_affix_eval (self : FilterXExprAffix) : M (option FilterXObject) :=
  haystack_str <- _expr_format (haystack self) (ignore_case self) ;;
  match haystack_str with
  | None => ret None
  | Some h =>
      if negb (Z.of_nat (length (cached_strings self)) =? 0)%Z
      then
        matches <- cached_needles_loop (process self) (ignore_case self) h
                     (cached_strings self) false ;;
        match matches with
        | None => ret None
        | Some m => ret (Some (filterx_boolean_new m))
        end
      else
        needle_list <- _expr_affix_eval_needle self ;;
        match needle_list with
        | None => ret None
        | Some l => ret (Some (filterx_boolean_new (needle_list_loop (process self) h l false)))
        end
  end.

(** *** Construction *)

Definition filterx_function_args_len (args : FilterXFunctionArgs) : Z :=
  Z.of_nat (length (positional args)).

Definition filterx_function_args_get_expr (args : FilterXFunctionArgs) (i : nat)
    : option FilterXExpr :=
  nth_error (positional args) i.

Definition _extract_haystack_arg (args : FilterXFunctionArgs) : option FilterXExpr :=
  if (filterx_function_args_len args <? 1)%Z then None
  else filterx_function_args_get_expr args 0.

Definition _extract_needle_arg (args : FilterXFunctionArgs) : option FilterXExpr :=
  if (filterx_function_args_len args <? 2)%Z then None
  else filterx_function_args_get_expr args 1.

(** [None] for FALSE, otherwise the value of [*ignore_case] afterwards. *)
Definition _extract_optional_args (ignore_case : bool) (args : FilterXFunctionArgs)
    : option bool :=
  match ignorecase_arg args with
  | None => Some ignore_case
  | Some None => None
  | Some (Some value) => Some value
  end.

(** [None] for the NULL returned after [goto error]. *)
Definition _function_affix_new (args : FilterXFunctionArgs)
    (process_func : FilterXExprAffixProcessFunc) : M (option FilterXExprAffix) :=
  match _extract_optional_args false args with
  | None => ret None
  | Some ignore_case =>
      match _extract_haystack_arg args with
      | None => ret None
      | Some haystack_expr =>
          match _extract_needle_arg args with
          | None => ret None
          | Some needle_expr =>
              let self := {| ignore_case := ignore_case;
                             haystack := haystack_expr;
                             needle_expr := None;
                             cached_strings := [];
                             process := process_func |} in
              r <- _expr_affix_init_needle self needle_expr ;;
              if fst r then ret (Some (snd r)) else ret None
          end
      end
  end.

Definition filterx_function_startswith_new (args : FilterXFunctionArgs)
    : M (option FilterXExprAffix) :=
  _function_affix_new args _function_startswith_process.

Definition filterx_function_endswith_new (args : FilterXFunctionArgs)
    : M (option FilterXExprAffix) :=
  _function_affix_new args _function_endswith_process.

Definition filterx_function_includes_new (args : FilterXFunctionArgs)
    : M (option FilterXExprAffix) :=
  _function_affix_new args _function_includes_process.

(** The string a comparison sees: folded when [ignore_case] is set. *)
Definition folded (ignore_case : bool) (s : bytes) : bytes :=
  if ignore_case then g_utf8_casefold s else s.

(** A string that [_do_casefold] will accept when it is asked to. *)
Definition fits (ignore_case : bool) (s : bytes) : Prop :=
  ignore_case = true -> (gs_len s <= G_MAXSSIZE)%Z.

End WithLibrary.

(** What a call returned, if it returned. *)
Definition outcome_value {A : Type} (o : Outcome A) : option A :=
  match o with
  | Returned a _ => Some a
  | Crashed => None
  end.

Definition outcome_state {A : Type} (o : Outcome A) : option EvalState :=
  match o with
  | Returned _ st => Some st
  | Crashed => None
  end.

(** A node is constructed and then evaluated [n] times in a row; the
    results of the evaluations and the final state. *)
Fixpoint eval_times (eval_node : M (option FilterXObject)) (n : nat)
    : M (list (option FilterXObject)) :=
  match n with
  | O => ret []
  | S n' =>
      r <- eval_node ;;
      rs <- eval_times eval_node n' ;;
      ret (r :: rs)
  end.

End FuncStr.

(** ** Regular expression search: [expr-regexp-search.c] *)

Module RegexpSearch.

(** Modelled from the spec: the flag set of [expr-regexp-search.h], one
    bit per flag in the order [DEFINE_FUNC_FLAG_NAMES] lists them. *)
Definition FILTERX_REGEXP_SEARCH_KEEP_GRP_ZERO : Z := 0%Z.
Definition FILTERX_REGEXP_SEARCH_LIST_MODE : Z := 1%Z.

Definition check_flag (flags : Z) (flag : Z) : bool := Z.testbit flags flag.


(** The match state: the ovector of the match data as its pairs, the
    subject string and the flags. *)
Record FilterXReMatchState : Type := mkReMatchState {
  match_data : option (list (Z * Z));
  lhs_str : bytes;
  flags : Z
}.

(** A compiled pattern as the code uses it: the name table, each entry
    two bytes of group number followed by the name. *)
Record NameEntry : Type := mkNameEntry {
  entry_hi : ascii;
  entry_lo : ascii;
  entry_name : bytes
}.

Definition pcre2_code_8 : Type := list NameEntry.

(** A [gchar] read as an [int]. *)
Definition gchar_to_int (c : ascii) : Z :=
  let v := Z.of_N (N_of_ascii c) in
  if (v <? 128)%Z then v else (v - 256)%Z.

(** [(name_table[0] << 8) | name_table[1]] *)
Definition entry_number (entry : NameEntry) : Z :=
  Z.lor (Z.shiftl (gchar_to_int (entry_hi entry)) 8) (gchar_to_int (entry_lo entry)).

(** [g_snprintf(num_str_buf, ..., "%u", i)] *)
Definition format_guint32 (i : Z) : bytes :=
  bytes_of (NilEmpty.string_of_uint (N.to_uint (Z.to_N (i mod 2 ^ 32)))).

(** Modelled from the spec: [filterx_list_append] of
    [object-list-interface.c] adds the value at the end of a list. *)
Definition filterx_list_append (fillable : FilterXObject) (value : FilterXObject)
    : bool * FilterXObject :=
  match fillable with
  | FxList elems => (true, FxList (elems ++ [value]))
  | _ => (false, fillable)
  end.

Fixpoint dict_get (key : bytes) (entries : list (bytes * FilterXObject))
    : option FilterXObject :=
  match entries with
  | [] => None
  | (k, v) :: rest => if bytes_eqb k key then Some v else dict_get key rest
  end.

Fixpoint dict_set (key : bytes) (value : FilterXObject)
    (entries : list (bytes * FilterXObject)) : list (bytes * FilterXObject) :=
  match entries with
  | [] => [(key, value)]
  | (k, v) :: rest =>
      if bytes_eqb k key then (k, value) :: rest
      else (k, v) :: dict_set key value rest
  end.

Fixpoint dict_unset (key : bytes) (entries : list (bytes * FilterXObject))
    : list (bytes * FilterXObject) :=
  match entries with
  | [] => []
  | (k, v) :: rest =>
      if bytes_eqb k key then rest else (k, v) :: dict_unset key rest
  end.

(** Modelled from the spec: the subscript capabilities of a dict
    ([object-dict.c]): [get_subscript], [set_subscript] with a string
    key, and [unset_key], which reports whether the key was there. *)
Definition filterx_object_get_subscript (fillable : FilterXObject) (key : bytes)
    : option FilterXObject :=
  match fillable with
  | FxDict entries => dict_get key entries
  | _ => None
  end.

Definition filterx_object_set_subscript (fillable : FilterXObject) (key : bytes)
    (value : FilterXObject) : bool * FilterXObject :=
  match fillable with
  | FxDict entries => (true, FxDict (dict_set key value entries))
  | _ => (false, fillable)
  end.

Definition filterx_object_unset_key (fillable : FilterXObject) (key : bytes)
    : bool * FilterXObject :=
  match fillable with
  | FxDict entries =>
      match dict_get key entries with
      | Some _ => (true, FxDict (dict_unset key entries))
      | None => (false, fillable)
      end
  | _ => (false, fillable)
  end.

(** The loop of [_store_matches_to_list] from index [i] on; [pairs] are
    the ovector pairs at [i] and after. *)
Fixpoint store_list_loop (state : FilterXReMatchState) (num_matches : Z) (i : Z)
    (pairs : list (Z * Z)) (fillable : FilterXObject) : bool * FilterXObject :=
  match pairs with
  | [] => (true, fillable)
  | (b, e) :: rest =>
      if (1 <? num_matches)%Z && (i =? 0)%Z
         && negb (check_flag (flags state) FILTERX_REGEXP_SEARCH_KEEP_GRP_ZERO)
      then store_list_loop state num_matches (i + 1)%Z rest fillable
      else
        let begin_index := to_gint b in
        let end_index := to_gint e in
        if (begin_index <? 0)%Z || (end_index <? 0)%Z
        then store_list_loop state num_matches (i + 1)%Z rest fillable
        else
          let value :=
            filterx_string_new (lhs_str state) begin_index
              (to_gint (end_index - begin_index)) in
          let '(success, fillable') := filterx_list_append fillable value in
          if negb success then (false, fillable')
          else store_list_loop state num_matches (i + 1)%Z rest fillable'
  end.

(** [None] when the match data is missing (a NULL dereference). *)
Definition _store_matches_to_list (state : FilterXReMatchState)
    (fillable : FilterXObject) : option (bool * FilterXObject) :=
  match match_data state with
  | None => None
  | Some matches =>
      Some (store_list_loop state (Z.of_nat (length matches)) 0%Z matches fillable)
  end.

(** The first loop of [_store_matches_to_dict].  The indexes are
    [PCRE2_SIZE], an unsigned type: the test for a negative index never
    holds. *)
Fixpoint store_dict_loop (state : FilterXReMatchState) (num_matches : Z) (i : Z)
    (pairs : list (Z * Z)) (fillable : FilterXObject) : bool * FilterXObject :=
  match pairs with
  | [] => (true, fillable)
  | (b, e) :: rest =>
      if (1 <? num_matches)%Z && (i =? 0)%Z
         && negb (check_flag (flags state) FILTERX_REGEXP_SEARCH_KEEP_GRP_ZERO)
      then store_dict_loop state num_matches (i + 1)%Z rest fillable
      else
        let begin_index := (b mod 2 ^ 64)%Z in
        let end_index := (e mod 2 ^ 64)%Z in
        if (begin_index <? 0)%Z || (end_index <? 0)%Z
        then store_dict_loop state num_matches (i + 1)%Z rest fillable
        else
          let key := format_guint32 i in
          let value :=
            filterx_string_new (lhs_str state) begin_index
              (to_gssize (end_index - begin_index)) in
          let '(success, fillable') := filterx_object_set_subscript fillable key value in
          if negb success then (false, fillable')
          else store_dict_loop state num_matches (i + 1)%Z rest fillable'
  end.

(** The second loop, over the name table.  [None] stands for the ways
    the C code does not return: an ovector index out of range, the NULL
    value handed on when the numeric key is missing, and the failed
    [g_assert] on [filterx_object_unset_key]. *)
Fixpoint rename_loop (matches : list (Z * Z)) (name_table : list NameEntry)
    (fillable : FilterXObject) : option (bool * FilterXObject) :=
  match name_table with
  | [] => Some (true, fillable)
  | entry :: rest =>
      let n := entry_number entry in
      if (n <? 0)%Z then None
      else
        match nth_error matches (Z.to_nat n) with
        | None => None
        | Some (b, e) =>
            let begin_index := (b mod 2 ^ 64)%Z in
            let end_index := (e mod 2 ^ 64)%Z in
            if (begin_index <? 0)%Z || (end_index <? 0)%Z
            then rename_loop matches rest fillable
            else
              let num_key := format_guint32 n in
              let key := c_string (entry_name entry) in
              match filterx_object_get_subscript fillable num_key with
              | None => None
              | Some value =>
                  let '(success, fillable1) :=
                    filterx_object_set_subscript fillable key value in
                  let '(unset, fillable2) := filterx_object_unset_key fillable1 num_key in
                  if negb unset then None
                  else if negb success then Some (false, fillable2)
                  else rename_loop matches rest fillable2
              end
        end
  end.

Definition _store_matches_to_dict (pattern : pcre2_code_8) (state : FilterXReMatchState)
    (fillable : FilterXObject) : option (bool * FilterXObject) :=
  match match_data state with
  | None => None
  | Some matches =>
      let '(ok, fillable1) :=
        store_dict_loop state (Z.of_nat (length matches)) 0%Z matches fillable in
      if negb ok then Some (false, fillable1)
      else rename_loop matches pattern fillable1
  end.

(** [filterx_ref_unwrap_rw] is the identity on the objects of this
    model. *)
Definition _store_matches (pattern : pcre2_code_8) (state : FilterXReMatchState)
    (fillable : FilterXObject) : option (bool * FilterXObject) :=
  match fillable with
  | FxList _ => _store_matches_to_list state fillable
  | FxDict _ => _store_matches_to_dict pattern state fillable
  | _ => Some (false, fillable)
  end.

(** [filterx_regexp_match_eval] belongs to [expr-regexp-common.c]; what
    it leaves behind is an argument here: whether the subject matched,
    and the state with its match data. *)
Definition _regexp_search_generator_generate (pattern : pcre2_code_8) (self_flags : Z)
    (matched : bool) (lhs : bytes) (data : option (list (Z * Z)))
    (fillable : FilterXObject) : option (bool * FilterXObject) :=
  let state := {| match_data := data; lhs_str := lhs; flags := self_flags |} in
  if negb matched then Some (true, fillable)
  else
    match match_data state with
    | None => Some (false, fillable)
    | Some _ => _store_matches pattern state fillable
    end.

(** The fresh container of the generator. *)
Definition _regexp_search_generator_create_container (self_flags : Z) : FilterXObject :=
  if check_flag self_flags FILTERX_REGEXP_SEARCH_LIST_MODE then FxList [] else FxDict [].

(** *** What the loops store

    Group 0 is passed over when there is more than one group and
    [keep_zero] is not set. *)
Definition group_zero_elided (state : FilterXReMatchState) (num_matches : Z) : bool :=
  (1 <? num_matches)%Z
  && negb (check_flag (flags state) FILTERX_REGEXP_SEARCH_KEEP_GRP_ZERO).

(** The string stored for the pair [(b, e)] in list mode and in dict
    mode. *)
Definition list_value (state : FilterXReMatchState) (b e : Z) : FilterXObject :=
  filterx_string_new (lhs_str state) (to_gint b) (to_gint (to_gint e - to_gint b)).

Definition dict_value (state : FilterXReMatchState) (b e : Z) : FilterXObject :=
  filterx_string_new (lhs_str state) (b mod 2 ^ 64)%Z
    (to_gssize (e mod 2 ^ 64 - b mod 2 ^ 64)).

(** The values list mode appends for the groups after the first: the
    groups that are set, in order. *)
Fixpoint list_values (state : FilterXReMatchState) (pairs : list (Z * Z))
    : list FilterXObject :=
  match pairs with
  | [] => []
  | (b, e) :: rest =>
      if (to_gint b <? 0)%Z || (to_gint e <? 0)%Z
      then list_values state rest
      else list_value state b e :: list_values state rest
  end.

(** The entries dict mode sets for the groups from index [i] on. *)
Fixpoint dict_fill (state : FilterXReMatchState) (i : Z) (pairs : list (Z * Z))
    (entries : list (bytes * FilterXObject)) : list (bytes * FilterXObject) :=
  match pairs with
  | [] => entries
  | (b, e) :: rest =>
      dict_fill state (i + 1)%Z rest (dict_set (format_guint32 i) (dict_value state b e) entries)
  end.

(** A name table entry the rename loop can handle, for [num] groups:
    its number is that of a capture group, its name is not "0". *)
Definition entry_ok (num : Z) (entry : NameEntry) : Prop :=
  (1 <= entry_number entry < num)%Z
  /\ c_string (entry_name entry) <> format_guint32 0.

End RegexpSearch.

(** ** The TLS transport: [transport-tls.c] *)

Module TransportTLS.

(** OpenSSL's error codes, the [errno] values and GLib's poll
    conditions. *)
Definition SSL_ERROR_NONE : Z := 0%Z.
Definition SSL_ERROR_SSL : Z := 1%Z.
Definition SSL_ERROR_WANT_READ : Z := 2%Z.
Definition SSL_ERROR_WANT_WRITE : Z := 3%Z.
Definition SSL_ERROR_WANT_X509_LOOKUP : Z := 4%Z.
Definition SSL_ERROR_SYSCALL : Z := 5%Z.
Definition SSL_ERROR_ZERO_RETURN : Z := 6%Z.

Definition EINTR : Z := 4%Z.
Definition EAGAIN : Z := 11%Z.
Definition EPIPE : Z := 32%Z.
Definition ECONNRESET : Z := 104%Z.

Definition G_IO_IN : Z := 1%Z.
Definition G_IO_OUT : Z := 4%Z.

Definition IPPROTO_TCP : Z := 6%Z.

(** The calls into libssl that move data or close the stream. *)
Inductive SSLCall : Type :=
| Call_SSL_read
| Call_SSL_write
| Call_SSL_shutdown.

(** What one such call answers: its return value, what [SSL_get_error]
    reports for it, and the [errno] it leaves ([None]: untouched). *)
Record SSLAnswer : Type := mkAnswer {
  ssl_rc : Z;
  ssl_get_error : Z;
  ssl_errno : option Z
}.

Record PeerInfo : Type := mkPeerInfo {
  found : bool;
  cn : string;
  o : string;
  ou : string;
  fingerprint : string
}.

Record LogTransportAuxData : Type := mkAux {
  nv_pairs : list (string * string);
  proto : Z
}.

(** The transport ([cond], [sending_shutdown]) together with what it
    acts on: [errno], the calls made into libssl and the error messages
    written. *)
Record LogTransportTLS : Type := mkTLS {
  cond : Z;
  sending_shutdown : bool;
  peer_info : PeerInfo;
  errno : Z;
  calls : list SSLCall;
  errors : list string
}.

Definition set_cond (self : LogTransportTLS) (c : Z) : LogTransportTLS :=
  {| cond := c; sending_shutdown := sending_shutdown self; peer_info := peer_info self;
     errno := errno self; calls := calls self; errors := errors self |}.

Definition set_sending_shutdown (self : LogTransportTLS) (b : bool) : LogTransportTLS :=
  {| cond := cond self; sending_shutdown := b; peer_info := peer_info self;
     errno := errno self; calls := calls self; errors := errors self |}.

Definition set_errno (self : LogTransportTLS) (e : Z) : LogTransportTLS :=
  {| cond := cond self; sending_shutdown := sending_shutdown self;
     peer_info := peer_info self;
     errno := e; calls := calls self; errors := errors self |}.

Definition msg_error (self : LogTransportTLS) (msg : string) : LogTransportTLS :=
  {| cond := cond self; sending_shutdown := sending_shutdown self;
     peer_info := peer_info self;
     errno := errno self; calls := calls self; errors := errors self ++ [msg] |}.

(** A call into libssl: it is recorded, and may set [errno]. *)
Definition ssl_call (c : SSLCall) (a : SSLAnswer) (self : LogTransportTLS)
    : LogTransportTLS :=
  {| cond := cond self; sending_shutdown := sending_shutdown self;
     peer_info := peer_info self;
     errno := match ssl_errno a with Some e => e | None => errno self end;
     calls := calls self ++ [c];
     errors := errors self |}.

Definition _is_shutdown_sent (shutdown_rc : Z) : bool := (0 <=? shutdown_rc)%Z.

Definition _handle_shutdown_error (self : LogTransportTLS) (ssl_error : Z)
    : LogTransportTLS :=
  if (ssl_error =? SSL_ERROR_WANT_READ)%Z
  then set_errno (set_cond self G_IO_IN) EAGAIN
  else if (ssl_error =? SSL_ERROR_WANT_WRITE)%Z
  then set_errno (set_cond self G_IO_OUT) EAGAIN
  else if (ssl_error =? SSL_ERROR_SYSCALL)%Z
  then set_sending_shutdown self false
  else
    set_sending_shutdown
      (set_errno (msg_error self "SSL error while shutting down stream") ECONNRESET)
      false.

(** [answer] is what [SSL_shutdown] answers. *)
Definition log_transport_tls_send_shutdown (answer : SSLAnswer) (self : LogTransportTLS)
    : Z * LogTransportTLS :=
  let self1 := set_sending_shutdown self true in
  let self2 := ssl_call Call_SSL_shutdown answer self1 in
  let shutdown_rc := ssl_rc answer in
  if _is_shutdown_sent shutdown_rc
  then (shutdown_rc, set_sending_shutdown self2 false)
  else (shutdown_rc, _handle_shutdown_error self2 (ssl_get_error answer)).

Definition add_aux (self : LogTransportTLS) (aux : option LogTransportAuxData)
    : option LogTransportAuxData :=
  match aux with
  | None => None
  | Some a =>
      let p := peer_info self in
      let nv1 :=
        if found p
        then nv_pairs a ++ [(".tls.x509_cn", cn p); (".tls.x509_o", o p);
                             (".tls.x509_ou", ou p)]%string
        else nv_pairs a in
      let nv2 :=
        match fingerprint p with
        | EmptyString => nv1
        | _ => nv1 ++ [(".tls.x509_fp"%string, fingerprint p)]
        end in
      Some {| nv_pairs := nv2; proto := IPPROTO_TCP |}
  end.

(** What one pass of the [do] body leaves. *)
Inductive ReadStep : Type :=
| StepRc (rc : Z) (self : LogTransportTLS) (script : list SSLAnswer)
| StepTlsError (self : LogTransportTLS)
| StepNoAnswer.

(** One pass through the body of the [do ... while] loop.  [script]
    holds the answers libssl gives to the calls to come, in order. *)
Definition read_step (script : list SSLAnswer) (self : LogTransportTLS) : ReadStep :=
  match script with
  | [] => StepNoAnswer
  | a :: rest =>
      let self1 := ssl_call Call_SSL_read a self in
      let rc := ssl_rc a in
      if (rc <=? 0)%Z
      then
        let ssl_error := ssl_get_error a in
        if (ssl_error =? SSL_ERROR_WANT_READ)%Z
        then StepRc (-1) (set_errno self1 EAGAIN) rest
        else if (ssl_error =? SSL_ERROR_WANT_WRITE)%Z
        then StepRc (-1) (set_errno (set_cond self1 G_IO_OUT) EAGAIN) rest
        else if (ssl_error =? SSL_ERROR_ZERO_RETURN)%Z
        then
          match rest with
          | [] => StepNoAnswer
          | sh :: rest' =>
              let '(shutdown_rc, self2) := log_transport_tls_send_shutdown sh self1 in
              StepRc (if (0 <=? shutdown_rc)%Z then 0 else -1)%Z self2 rest'
          end
        else if (ssl_error =? SSL_ERROR_SYSCALL)%Z
        then StepRc (if (errno self1 =? 0)%Z then 0 else -1)%Z self1 rest
        else StepTlsError self1
      else StepRc rc self1 rest
  end.

(** The loop, bounded by the number of answers left: every pass uses at
    least one.  [None] when the script ends before the method returns. *)
Fixpoint read_loop (fuel : nat) (script : list SSLAnswer) (self : LogTransportTLS)
    : option (Z * LogTransportTLS) :=
  match fuel with
  | O => None
  | S fuel' =>
      match read_step script self with
      | StepNoAnswer => None
      | StepTlsError self1 =>
          Some ((-1)%Z,
                set_errno (msg_error self1 "SSL error while reading stream") ECONNRESET)
      | StepRc rc self1 rest =>
          if (rc =? -1)%Z && (errno self1 =? EINTR)%Z
          then read_loop fuel' rest self1
          else
            if (0 <? rc)%Z then Some (rc, set_cond self1 0%Z)
            else Some (rc, self1)
      end
  end.

Definition log_transport_tls_read_method (script : list SSLAnswer)
    (self : LogTransportTLS) (aux : option LogTransportAuxData)
    : option (Z * LogTransportTLS * option LogTransportAuxData) :=
  if sending_shutdown self
  then
    match script with
    | [] => None
    | sh :: _ =>
        let '(shutdown_rc, self1) := log_transport_tls_send_shutdown sh self in
        Some ((if (0 <=? shutdown_rc)%Z then 0 else -1)%Z, self1, aux)
    end
  else
    let self1 := set_cond self G_IO_IN in
    let aux1 := add_aux self1 aux in
    match read_loop (length script) script self1 with
    | None => None
    | Some (rc, self2) => Some (rc, self2, aux1)
    end.

(** [answer] is what [SSL_write] answers. *)
Definition log_transport_tls_write_method (answer : SSLAnswer) (self : LogTransportTLS)
    : Z * LogTransportTLS :=
  let self1 := set_cond self G_IO_OUT in
  let self2 := ssl_call Call_SSL_write answer self1 in
  let rc := ssl_rc answer in
  if (rc <? 0)%Z
  then
    let ssl_error := ssl_get_error answer in
    if (ssl_error =? SSL_ERROR_WANT_READ)%Z
    then (rc, set_errno (set_cond self2 G_IO_IN) EAGAIN)
    else if (ssl_error =? SSL_ERROR_WANT_WRITE)%Z
    then (rc, set_errno self2 EAGAIN)
    else if (ssl_error =? SSL_ERROR_SYSCALL)%Z
    then
      if (errno self2 =? 0)%Z
      then ((-1)%Z, set_errno self2 ECONNRESET)
      else (rc, self2)
    else ((-1)%Z, set_errno (msg_error self2 "SSL error while writing stream") EPIPE)
  else (rc, set_cond self2 0%Z).

(** A transport at rest whose peer sent no certificate. *)
Definition no_peer : PeerInfo :=
  {| found := false; cn := EmptyString; o := EmptyString; ou := EmptyString;
     fingerprint := EmptyString |}.

Definition idle_transport : LogTransportTLS :=
  {| cond := 0%Z; sending_shutdown := false; peer_info := no_peer;
     errno := 0%Z; calls := []; errors := [] |}.

End TransportTLS.

(** ** Sample nodes and states for the worked examples *)

Module Samples.

(** A truthiness assignment in the usual style: null, false, zero and
    empty values are falsy. *)
Definition sample_truthy (obj : FilterXObject) : bool :=
  match obj with
  | FxNull => false
  | FxBoolean b => b
  | FxInteger z => negb (z =? 0)%Z
  | FxString s => negb (length s =? 0)%nat
  | FxBytes s => negb (length s =? 0)%nat
  | FxList elems => negb (length elems =? 0)%nat
  | FxDict entries => negb (length entries =? 0)%nat
  end.

Definition set_modifier (ctx : FilterXEvalContext) (m : FilterXEvalControlModifier)
    : FilterXEvalContext :=
  {| eval_control_modifier := m;
     error_stack := error_stack ctx;
     variables := variables ctx |}.

(** A literal: it yields its object and leaves the context alone. *)
Definition literal_expr (id : nat) (obj : FilterXObject) : FilterXExpr :=
  mkExpr id (fun ctx => (Some obj, ctx)) false false SHAPE_LITERAL.

(** A non-literal expression with the same result (a variable read,
    say). *)
Definition computed_expr (id : nat) (obj : FilterXObject) : FilterXExpr :=
  mkExpr id (fun ctx => (Some obj, ctx)) false false SHAPE_OTHER.

(** A statement such as [drop] or [done]: it yields [obj] and sets the
    control modifier. *)
Definition control_expr (id : nat) (m : FilterXEvalControlModifier)
    (obj : FilterXObject) : FilterXExpr :=
  mkExpr id (fun ctx => (Some obj, set_modifier ctx m)) false false SHAPE_OTHER.

(** An expression whose evaluation fails without reporting anything. *)
Definition null_expr (id : nat) : FilterXExpr :=
  mkExpr id (fun ctx => (None, ctx)) false false SHAPE_OTHER.

(** A list literal with the value expressions of its elements; [result]
    is the list it evaluates to. *)
Definition list_generator_expr (id : nat) (values : list FilterXExpr)
    (result : FilterXObject) : FilterXExpr :=
  mkExpr id (fun ctx => (Some result, ctx)) false false
         (SHAPE_LITERAL_LIST_GENERATOR values).

Definition empty_context : FilterXEvalContext :=
  {| eval_control_modifier := FXC_NONE; error_stack := []; variables := [] |}.

Definition initial_state : EvalState :=
  {| context := empty_context; evaluated := []; messages := [] |}.

Definition sample_variable : FxVariable.FilterXVariable :=
  FxVariable.mkVariable 5%Z false FxVariable.FX_VAR_MESSAGE_TIED 0%Z
    (Some (FxInteger 7%Z)).

(** A stand-in for [g_utf8_casefold] on ASCII text: the letters A to Z
    are lowered, every other byte is kept. *)
Definition ascii_lower (c : ascii) : ascii :=
  let n := nat_of_ascii c in
  if (65 <=? n)%nat && (n <=? 90)%nat then ascii_of_nat (n + 32) else c.

Definition sample_casefold (s : bytes) : bytes := map ascii_lower s.

(** The [repr] of the objects that are not strings, as far as the
    examples need it. *)
Definition sample_repr_other (obj : FilterXObject) : option bytes :=
  match obj with
  | FxNull => Some (bytes_of "null")
  | FxBoolean true => Some (bytes_of "true")
  | FxBoolean false => Some (bytes_of "false")
  | _ => None
  end.

(** [startswith($MSG, "foo")]: the haystack is computed, the needle is a
    literal. *)
Definition startswith_literal_args : FuncStr.FilterXFunctionArgs :=
  {| FuncStr.positional :=
       [computed_expr 1 (FxString (bytes_of "foobar"));
        literal_expr 2 (FxString (bytes_of "foo"))];
     FuncStr.ignorecase_arg := None |}.

(** The byte 0xFF, which no UTF-8 text contains. *)
Definition byte_ff : ascii := Ascii true true true true true true true true.

(** [endswith("file.tar.gz", [".zip", ".gz"])] as the constructor leaves
    it: both elements of the list literal in [cached_strings]. *)
Definition zip_gz_literal : FilterXExpr :=
  list_generator_expr 2
    [literal_expr 3 (FxString (bytes_of ".zip")); literal_expr 4 (FxString (bytes_of ".gz"))]
    (FxList [FxString (bytes_of ".zip"); FxString (bytes_of ".gz")]).

Definition endswith_zip_gz_args : FuncStr.FilterXFunctionArgs :=
  {| FuncStr.positional :=
       [computed_expr 1 (FxString (bytes_of "file.tar.gz")); zip_gz_literal];
     FuncStr.ignorecase_arg := None |}.

Definition endswith_zip_gz : FuncStr.FilterXExprAffix :=
  {| FuncStr.ignore_case := false;
     FuncStr.haystack := computed_expr 1 (FxString (bytes_of "file.tar.gz"));
     FuncStr.needle_expr := Some zip_gz_literal;
     FuncStr.cached_strings :=
       [FuncStr.mkStringWithCache (literal_expr 3 (FxString (bytes_of ".zip"))) None 0%Z;
        FuncStr.mkStringWithCache (literal_expr 4 (FxString (bytes_of ".gz"))) None 0%Z];
     FuncStr.process := FuncStr._function_endswith_process |}.

(** [includes("abcdef", $needle)] with a needle that is computed at
    each call. *)
Definition includes_computed (needle : FilterXObject) : FuncStr.FilterXExprAffix :=
  {| FuncStr.ignore_case := false;
     FuncStr.haystack := computed_expr 1 (FxString (bytes_of "abcdef"));
     FuncStr.needle_expr := Some (computed_expr 2 needle);
     FuncStr.cached_strings := [];
     FuncStr.process := FuncStr._function_includes_process |}.

(** [endswith(<0xFF>"AB", $needle, ignorecase=true)] with the needle
    "ab". *)
Definition endswith_non_utf8_args : FuncStr.FilterXFunctionArgs :=
  {| FuncStr.positional :=
       [computed_expr 1 (FxString (byte_ff :: bytes_of "AB"));
        computed_expr 2 (FxString (bytes_of "ab"))];
     FuncStr.ignorecase_arg := Some (Some true) |}.

(** Construction followed by [n] evaluations. *)
Definition construct_and_eval (new : FuncStr.M (option FuncStr.FilterXExprAffix))
    (n : nat) : FuncStr.M (option (list (option FilterXObject))) :=
  FuncStr.bind new (fun node =>
    match node with
    | None => FuncStr.ret None
    | Some self =>
        FuncStr.bind
          (FuncStr.eval_times
             (FuncStr._expr_affix_eval sample_casefold sample_repr_other self) n)
          (fun rs => FuncStr.ret (Some rs))
    end).

End Samples.

(** ** Building compound expressions: [expr-compound.c] *)

Module CompoundBuild.

Import Compound.

(** [id] stands for the address of the new node, under which it reports
    its errors. *)
Definition filterx_compound_expr_new (id : nat) (return_value_of_last_expr : bool)
    : FilterXCompoundExpr :=
  {| super_id := id;
     return_value_of_last_expr := return_value_of_last_expr;
     exprs := [] |}.

(** [g_ptr_array_add] *)
Definition filterx_compound_expr_add (s : FilterXCompoundExpr) (expr : FilterXExpr)
    : FilterXCompoundExpr :=
  {| super_id := super_id s;
     return_value_of_last_expr := return_value_of_last_expr s;
     exprs := exprs s ++ [expr] |}.

Fixpoint filterx_compound_expr_add_list (s : FilterXCompoundExpr)
    (expr_list : list FilterXExpr) : FilterXCompoundExpr :=
  match expr_list with
  | [] => s
  | elem :: next => filterx_compound_expr_add_list (filterx_compound_expr_add s elem) next
  end.

(** The [while (arg)] loop over the variable arguments; [None] when the
    arguments end without the NULL that stops it. *)
Fixpoint va_loop (s : FilterXCompoundExpr) (args : list (option FilterXExpr))
    : option FilterXCompoundExpr :=
  match args with
  | [] => None
  | None :: _ => Some s
  | Some arg :: rest => va_loop (filterx_compound_expr_add s arg) rest
  end.

Definition filterx_compound_expr_new_va (id : nat) (return_value_of_last_expr : bool)
    (first : option FilterXExpr) (va : list (option FilterXExpr))
    : option FilterXCompoundExpr :=
  va_loop (filterx_compound_expr_new id return_value_of_last_expr) (first :: va).

(** A child together with what its evaluation gives: the child counts
    as successful in [_eval_expr] and leaves no control modifier. *)
Definition succeeds_and_unmodified (filterx_object_truthy : FilterXObject -> bool)
    (er : FilterXExpr * (option FilterXObject * FilterXEvalContext)) : bool :=
  match fst (snd er) with
  | Some o =>
      (ignore_falsy_result (fst er) || filterx_object_truthy o)
      && negb (is_drop_or_done (eval_control_modifier (snd (snd er))))
  | None => false
  end.

End CompoundBuild.

(** ** Unary operators: [filterx-expr.c] *)

Module LifecycleOps.

Import Lifecycle.

Record FilterXUnaryOp : Type := mkUnaryOp {
  operand : Node
}.

Definition filterx_unary_op_init_method (self : FilterXUnaryOp) (log : list Event)
    : bool * FilterXUnaryOp * list Event :=
  let '(ok, operand', log1) := init_node (operand self) log in
  if negb ok
  then (false, {| operand := operand' |}, log1)
  else (filterx_expr_init_method, {| operand := operand' |},
        log1 ++ [EvRegisterCounter "fx_op_evals_total"]).

Definition filterx_unary_op_deinit_method (self : FilterXUnaryOp) (log : list Event)
    : FilterXUnaryOp * list Event :=
  let log0 := log ++ [EvUnregisterCounter "fx_op_evals_total"] in
  let '(operand', log1) := deinit_node (operand self) log0 in
  ({| operand := operand' |}, log1).

End LifecycleOps.

(** ** Reference counting of expressions: [filterx-expr.c] *)

Module ExprRef.

(** What [filterx_expr_unref] does to a node whose counter is [cnt]:
    the node lives on with a lower count, it is freed, or the
    [g_assert] on the counter fails. *)
Inductive Unref : Type :=
| Kept (ref_cnt : Z)
| Released
| AssertionFailed.

(** [filterx_expr_init_instance] sets the counter to 1. *)
Definition filterx_expr_new : Z := 1%Z.

(** [g_atomic_counter_inc] on the [gint] counter. *)
Definition filterx_expr_ref (ref_cnt : Z) : Z := to_gint (ref_cnt + 1).

Definition filterx_expr_unref (ref_cnt : Z) : Unref :=
  if (0 <? ref_cnt)%Z
  then
    if (to_gint (ref_cnt - 1) =? 0)%Z then Released else Kept (to_gint (ref_cnt - 1))
  else AssertionFailed.

(** [n] references taken one after the other. *)
Fixpoint ref_times (n : nat) (ref_cnt : Z) : Z :=
  match n with
  | O => ref_cnt
  | S n' => ref_times n' (filterx_expr_ref ref_cnt)
  end.

(** [n] references dropped one after the other, starting from a live
    node; [None] when a reference is dropped on a node that is already
    freed or whose assertion has failed. *)
Fixpoint unref_times (n : nat) (state : Unref) : option Unref :=
  match n with
  | O => Some state
  | S n' =>
      match state with
      | Kept c => unref_times n' (filterx_expr_unref c)
      | Released => None
      | AssertionFailed => None
      end
  end.

End ExprRef.

(** ** Filling a container from literal elements:
    [expr-literal-generator.c] *)

Module GeneratorEval.

Record FilterXLiteralGeneratorElem : Type := mkElem {
  key : option FilterXExpr;
  value : FilterXExpr;
  cloneable : bool
}.

Section WithObjects.

(** The [clone] and [set_subscript] capabilities of the objects, and the
    container factory of a parent container. *)
Variable filterx_object_clone : FilterXObject -> FilterXObject.
Variable filterx_object_set_subscript :
  FilterXObject -> option FilterXObject -> FilterXObject -> bool * FilterXObject.
Variable filterx_object_create_dict : FilterXObject -> option FilterXObject.

(** The container is updated in place: the result carries it as the
    caller finds it afterwards, also when the function returns FALSE. *)
Fixpoint _eval_elements (fillable : FilterXObject)
    (elements : list FilterXLiteralGeneratorElem) (st : EvalState)
    : bool * FilterXObject * EvalState :=
  match elements with
  | [] => (true, fillable, st)
  | elem :: rest =>
      let with_key := fun (k : option FilterXObject) (st1 : EvalState) =>
        let '(v, st2) := filterx_expr_eval (value elem) st1 in
        match v with
        | None => (false, fillable, st2)
        | Some vobj =>
            let cloned := if cloneable elem then filterx_object_clone vobj else vobj in
            let '(success, fillable') := filterx_object_set_subscript fillable k cloned in
            if negb success then (false, fillable', st2)
            else _eval_elements fillable' rest st2
        end in
      match key elem with
      | Some kexpr =>
          let '(k, st1) := filterx_expr_eval kexpr st in
          match k with
          | None => (false, fillable, st1)
          | Some kobj => with_key (Some kobj) st1
          end
      | None => with_key None st
      end
  end.

Definition _literal_generator_generate (elements : list FilterXLiteralGeneratorElem)
    (fillable : FilterXObject) (st : EvalState) : bool * FilterXObject * EvalState :=
  _eval_elements fillable elements st.

(** [_inner_dict_generator_eval]; [root_fillable] is the expression of
    the root generator's container. *)
Definition _inner_dict_generator_eval (root_fillable : FilterXExpr)
    (elements : list FilterXLiteralGeneratorElem) (st : EvalState)
    : option FilterXObject * EvalState :=
  let '(root, st1) := filterx_expr_eval root_fillable st in
  match root with
  | None => (None, st1)
  | Some r =>
      match filterx_object_create_dict r with
      | None => (None, st1)
      | Some fillable =>
          let '(ok, fillable', st2) := _eval_elements fillable elements st1 in
          if ok then (Some fillable', st2) else (None, st2)
      end
  end.

(** The expressions of an element in the order they are evaluated. *)
Definition elem_exprs (elem : FilterXLiteralGeneratorElem) : list FilterXExpr :=
  match key elem with
  | Some k => [k; value elem]
  | None => [value elem]
  end.

End WithObjects.

End GeneratorEval.

(** ** The BIO between libssl and the transport: [transport-tls.c] *)

Module TransportBIO.

(** OpenSSL's flag bits and control commands. *)
Definition BIO_FLAGS_READ : Z := 1%Z.
Definition BIO_FLAGS_WRITE : Z := 2%Z.
Definition BIO_FLAGS_IO_SPECIAL : Z := 4%Z.
Definition BIO_FLAGS_RWS : Z := 7%Z.
Definition BIO_FLAGS_SHOULD_RETRY : Z := 8%Z.

Definition BIO_CTRL_GET_CLOSE : Z := 8%Z.
Definition BIO_CTRL_SET_CLOSE : Z := 9%Z.
Definition BIO_CTRL_FLUSH : Z := 11%Z.
Definition BIO_CTRL_DUP : Z := 12%Z.

Record BIO : Type := mkBIO {
  bio_flags : Z;
  bio_shutdown : Z
}.

Definition BIO_clear_retry_flags (bio : BIO) : BIO :=
  {| bio_flags := Z.land (bio_flags bio)
                         (Z.lnot (Z.lor BIO_FLAGS_RWS BIO_FLAGS_SHOULD_RETRY));
     bio_shutdown := bio_shutdown bio |}.

Definition BIO_set_retry_read (bio : BIO) : BIO :=
  {| bio_flags := Z.lor (bio_flags bio) (Z.lor BIO_FLAGS_READ BIO_FLAGS_SHOULD_RETRY);
     bio_shutdown := bio_shutdown bio |}.

Definition BIO_set_retry_write (bio : BIO) : BIO :=
  {| bio_flags := Z.lor (bio_flags bio) (Z.lor BIO_FLAGS_WRITE BIO_FLAGS_SHOULD_RETRY);
     bio_shutdown := bio_shutdown bio |}.

Definition BIO_should_retry (bio : BIO) : bool :=
  negb (Z.land (bio_flags bio) BIO_FLAGS_SHOULD_RETRY =? 0)%Z.

(** [ret] and [errno] are what [log_transport_write] leaves.  The
    result is the return value, [*written_bytes] and the BIO. *)
Definition _BIO_transport_write (bio : BIO) (ret : Z) (errno : Z) : Z * Z * BIO :=
  let bio1 := BIO_clear_retry_flags bio in
  if (ret <? 0)%Z
  then
    ((-1)%Z, 0%Z,
     if (errno =? TransportTLS.EAGAIN)%Z then BIO_set_retry_write bio1 else bio1)
  else (1%Z, ret, bio1).

(** [ret] and [errno] are what [log_transport_read] leaves. *)
Definition _BIO_transport_read (bio : BIO) (ret : Z) (errno : Z) : Z * Z * BIO :=
  if (ret <? 0)%Z
  then
    ((-1)%Z, 0%Z,
     if (errno =? TransportTLS.EAGAIN)%Z then BIO_set_retry_read bio else bio)
  else (1%Z, ret, bio).

Definition _BIO_transport_ctrl (bio : BIO) (cmd : Z) (num : Z) : Z * BIO :=
  if (cmd =? BIO_CTRL_GET_CLOSE)%Z then (bio_shutdown bio, bio)
  else if (cmd =? BIO_CTRL_SET_CLOSE)%Z
  then (1%Z, {| bio_flags := bio_flags bio; bio_shutdown := to_gint num |})
  else if (cmd =? BIO_CTRL_DUP)%Z || (cmd =? BIO_CTRL_FLUSH)%Z then (1%Z, bio)
  else (0%Z, bio).

End TransportBIO.

(** ** Named groups of a pattern: [expr-regexp-search.c] *)

Module RegexpNames.

Import RegexpSearch.




End RegexpNames.

(** ** The argument checks of the string predicates: [func-str.c] *)

Module AffixCtor.

Import FuncStr ExprRef.


End AffixCtor.

(** ** Reads that are interrupted: [transport-tls.c] *)

Module TransportTLSRuns.

Import TransportTLS.

(** An answer of [SSL_read] that stands for a system call interrupted
    by a signal. *)
Definition interrupted (a : SSLAnswer) : Prop :=
  (ssl_rc a <= 0)%Z /\ ssl_get_error a = SSL_ERROR_SYSCALL /\ ssl_errno a = Some EINTR.

(** The transport after the calls to [SSL_read] that got [answers]. *)
Definition after_reads (answers : list SSLAnswer) (self : LogTransportTLS)
    : LogTransportTLS :=
  fold_left (fun s a => ssl_call Call_SSL_read a s) answers self.

End TransportTLSRuns.

(** ** Runs that differ in their diagnostics *)

(** Two states that differ in the diagnostics written at most. *)
Definition same_run (st st' : EvalState) : Prop :=
  context st = context st' /\ evaluated st = evaluated st'.

(** ** More sample values *)

Module MoreSamples.

(** A container that takes elements without a key at its end and
    string-keyed entries by their key, and refuses everything else. *)
Definition sample_set_subscript (fillable : FilterXObject) (key : option FilterXObject)
    (value : FilterXObject) : bool * FilterXObject :=
  match fillable, key with
  | FxList elems, None => (true, FxList (elems ++ [value]))
  | FxDict entries, Some (FxString k) => (true, FxDict (RegexpSearch.dict_set k value entries))
  | _, _ => (false, fillable)
  end.

Definition sample_clone (obj : FilterXObject) : FilterXObject := obj.

(** The elements of the list literal ["a", <failing>, "c"]. *)
Definition list_with_failing_element : list GeneratorEval.FilterXLiteralGeneratorElem :=
  [GeneratorEval.mkElem None (Samples.literal_expr 1 (FxString (bytes_of "a"))) false;
   GeneratorEval.mkElem None (Samples.null_expr 2) false;
   GeneratorEval.mkElem None (Samples.literal_expr 3 (FxString (bytes_of "c"))) false].

(** [startswith("Hello", ["x", "He", "y"])] with a literal list: the
    node as the constructor leaves it. *)
Definition startswith_three_needles : FuncStr.FilterXExprAffix :=
  {| FuncStr.ignore_case := false;
     FuncStr.haystack := Samples.computed_expr 1 (FxString (bytes_of "Hello"));
     FuncStr.needle_expr := None;
     FuncStr.cached_strings :=
       [FuncStr.mkStringWithCache (Samples.literal_expr 3 (FxString (bytes_of "x"))) None 0%Z;
        FuncStr.mkStringWithCache (Samples.literal_expr 4 (FxString (bytes_of "He"))) None 0%Z;
        FuncStr.mkStringWithCache (Samples.literal_expr 5 (FxString (bytes_of "y"))) None 0%Z];
     FuncStr.process := FuncStr._function_startswith_process |}.






(** The inner literal [{"a": 1}] of a dict literal whose container is a
    dict. *)
Definition sample_create_dict (parent : FilterXObject) : option FilterXObject :=
  match parent with
  | FxDict _ => Some (FxDict [])
  | _ => None
  end.

Definition inner_dict_elements : list GeneratorEval.FilterXLiteralGeneratorElem :=
  [GeneratorEval.mkElem (Some (Samples.literal_expr 1 (FxString (bytes_of "a"))))
     (Samples.literal_expr 2 (FxInteger 1%Z)) false].

End MoreSamples.

(** * Properties *)

(** ** Variables *)

Section VariableFacts.

Import FxVariable.

(** C10: after [filterx_variable_unset_value(v, g)] the variable's value is
    NULL, so [filterx_variable_is_set] answers false, while its [assigned]
    flag is set, so [filterx_variable_is_assigned] answers true: unsetting
    counts as an assignment.  The handle and the type are kept and the
    generation becomes [g]. *)
Theorem unset_value_counts_as_assignment :
  forall (v : FilterXVariable) (g : FilterXGenCounter),
    filterx_variable_is_set (filterx_variable_unset_value v g) = false
    /\ filterx_variable_is_assigned (filterx_variable_unset_value v g) = true
    /\ value (filterx_variable_unset_value v g) = None
    /\ handle (filterx_variable_unset_value v g) = handle v
    /\ variable_type (filterx_variable_unset_value v g) = variable_type v
    /\ generation (filterx_variable_unset_value v g) = to_guint16 g.
Proof.
  intros v g.
  unfold filterx_variable_unset_value, filterx_variable_set_value,
    filterx_variable_is_set, filterx_variable_is_assigned.
  cbn. repeat split.
Qed.

(** Only [filterx_variable_unassign] clears the flag, and it leaves the
    value alone. *)
Lemma unassign_clears_flag_only (v : FilterXVariable) :
  filterx_variable_is_assigned (filterx_variable_unassign v) = false
  /\ value (filterx_variable_unassign v) = value v.
Proof. split; reflexivity. Qed.

Example unset_sample_variable :
  let v := filterx_variable_unset_value Samples.sample_variable 3%Z in
  filterx_variable_is_set v = false /\ filterx_variable_is_assigned v = true
  /\ generation v = 3%Z.
Proof. cbv. repeat split. Qed.

End VariableFacts.

(** ** Compound expressions *)

Section CompoundFacts.

Import Compound.

Variable filterx_object_truthy : FilterXObject -> bool.
Variables debug_flag trace_flag : bool.

#[local] Abbreviation eval_expr := (_eval_expr filterx_object_truthy debug_flag trace_flag).
#[local] Abbreviation eval_exprs_loop :=
  (_eval_exprs_loop filterx_object_truthy debug_flag trace_flag).
#[local] Abbreviation eval_compound :=
  (_eval_compound filterx_object_truthy debug_flag trace_flag).

(** The last element of a non-empty list does not depend on the
    default. *)
Lemma last_cons_shift (A : Type) (a : A) (l : list A) (d : A) :
  last (a :: l) d = last l a.
Proof.
  revert a d. induction l as [|b l IH]; intros a d; [reflexivity|].
  change (last (a :: b :: l) d) with (last (b :: l) d).
  rewrite IH. symmetry. apply IH.
Qed.

(** What [_eval_expr] returns, read off the child's own [eval]. *)
Lemma eval_expr_inv (expr : FilterXExpr) (st : EvalState) ok r st' :
  eval_expr expr st = (ok, r, st') ->
  r = fst (eval expr (context st))
  /\ context st' = snd (eval expr (context st))
  /\ evaluated st' = evaluated st ++ [expr_id expr]
  /\ ok = match r with
          | None => false
          | Some o => ignore_falsy_result expr || filterx_object_truthy o
          end.
Proof.
  unfold _eval_expr, filterx_expr_eval.
  destruct (eval expr (context st)) as [res ctx'].
  destruct res as [o|]; intros H; inversion H; subst; clear H; cbn.
  - repeat split.
    + destruct (_ && _); [destruct (negb _)|]; reflexivity.
    + destruct (_ && _); [destruct (negb _)|]; reflexivity.
  - repeat split.
Qed.

(** A prefix that ran through without leaving a control modifier has
    evaluated all its members, and the loop goes on behind it. *)
Lemma eval_exprs_loop_app (pre rest : list FilterXExpr) :
  forall r0 st r1 st1,
    eval_exprs_loop pre r0 st = (true, r1, st1) ->
    eval_control_modifier (context st1) = FXC_NONE ->
    eval_exprs_loop (pre ++ rest) r0 st = eval_exprs_loop rest r1 st1
    /\ evaluated st1 = evaluated st ++ map expr_id pre.
Proof.
  induction pre as [|e pre IH]; intros r0 st r1 st1 Hrun Hctl; cbn in *.
  - inversion Hrun; subst. now rewrite app_nil_r.
  - destruct (is_drop_or_done (eval_control_modifier (context st))) eqn:Hm.
    + inversion Hrun; subst. rewrite Hctl in Hm. discriminate.
    + destruct (eval_expr e st) as [[ok r] st'] eqn:He.
      destruct ok; [|discriminate].
      destruct (IH _ _ _ _ Hrun Hctl) as [Hgo Hev].
      split; [exact Hgo|].
      apply eval_expr_inv in He. destruct He as (_ & _ & Hev' & _).
      rewrite Hev, Hev', <- app_assoc. reflexivity.
Qed.

(** The loop on children that all come out truthy and unmodified. *)
Lemma eval_exprs_loop_all_truthy (l : list FilterXExpr) :
  forall r0 st,
    eval_control_modifier (context st) = FXC_NONE ->
    forallb (truthy_and_unmodified filterx_object_truthy)
            (eval_in_sequence l (context st)) = true ->
    exists st',
      eval_exprs_loop l r0 st
        = (true, last (map fst (eval_in_sequence l (context st))) r0, st')
      /\ evaluated st' = evaluated st ++ map expr_id l
      /\ context st' = last (map snd (eval_in_sequence l (context st))) (context st).
Proof.
  induction l as [|e l IH]; intros r0 st Hctl Hall; cbn in *.
  - exists st. now rewrite app_nil_r.
  - rewrite Hctl. cbn.
    apply andb_true_iff in Hall. destruct Hall as [He Hall].
    unfold truthy_and_unmodified in He.
    destruct (eval_expr e st) as [[ok r] st1] eqn:Hstep.
    apply eval_expr_inv in Hstep.
    destruct Hstep as (Hr & Hc & Hev & Hok).
    destruct (fst (eval e (context st))) as [o|] eqn:Hres; [|discriminate].
    apply andb_true_iff in He. destruct He as [Ht Hm].
    subst r. rewrite Ht, orb_true_r in Hok. subst ok.
    assert (Hctl1 : eval_control_modifier (context st1) = FXC_NONE).
    { rewrite Hc. destruct (eval_control_modifier (snd (eval e (context st))));
        [reflexivity | discriminate | discriminate]. }
    rewrite <- Hc in Hall.
    destruct (IH (Some o) st1 Hctl1 Hall) as (st' & Hloop & Hev' & Hc').
    exists st'. rewrite Hloop, Hev', Hev, <- app_assoc, Hc', <- Hc.
    repeat split.
    + f_equal. f_equal.
      destruct (map fst (eval_in_sequence l (context st1)));
        [reflexivity | now rewrite !last_cons_shift].
    + destruct (map snd (eval_in_sequence l (context st1)));
        [reflexivity | now rewrite !last_cons_shift].
Qed.

(** C1: when the control modifier is unset and every child, evaluated in
    its turn, yields a truthy object and leaves the modifier unset, the
    compound evaluates every child in order and returns the result of the
    last child if [return_value_of_last_expr] is set and there is a last
    result, and the boolean [true] otherwise; a compound without children
    returns the boolean [true], and so does one entered with the
    modifier already set, where no child runs and no last result
    exists. *)
Theorem compound_eval_all_truthy :
  forall (self : FilterXCompoundExpr) (st : EvalState),
    (eval_control_modifier (context st) = FXC_NONE ->
     forallb (truthy_and_unmodified filterx_object_truthy)
             (eval_in_sequence (exprs self) (context st)) = true ->
     fst (eval_compound self st)
       = Some (match last_result (eval_in_sequence (exprs self) (context st)) with
               | Some r =>
                   if return_value_of_last_expr self then r else filterx_boolean_new true
               | None => filterx_boolean_new true
               end)
     /\ evaluated (snd (eval_compound self st))
          = evaluated st ++ map expr_id (exprs self)
     /\ error_stack (context (snd (eval_compound self st)))
          = error_stack
              (last (map snd (eval_in_sequence (exprs self) (context st))) (context st)))
    /\ (exprs self = [] ->
        eval_compound self st = (Some (filterx_boolean_new true), st))
    /\ (is_drop_or_done (eval_control_modifier (context st)) = true ->
        eval_compound self st = (Some (filterx_boolean_new true), st)).
Proof.
  intros self st. split; [|split].
  - intros Hctl Hall.
    destruct (eval_exprs_loop_all_truthy (exprs self) None st Hctl Hall)
      as (st' & Hloop & Hev & Hc).
    unfold _eval_compound, _eval_exprs, last_result. rewrite Hloop. cbn.
    destruct (last (map fst (eval_in_sequence (exprs self) (context st))) None) as [r|].
    + destruct (return_value_of_last_expr self); cbn; rewrite Hev, Hc; auto.
    + cbn. rewrite Hev, Hc. auto.
  - intros Hnil. unfold _eval_compound, _eval_exprs. rewrite Hnil. reflexivity.
  - intros Hm. unfold _eval_compound, _eval_exprs.
    destruct (exprs self) as [|e l]; [reflexivity|].
    cbn. rewrite Hm. reflexivity.
Qed.

(** Once a control modifier is set, the loop leaves at once, whatever
    children remain, and hands back the result pointer it was given. *)
Lemma eval_exprs_loop_modifier_set (l : list FilterXExpr) r st :
  is_drop_or_done (eval_control_modifier (context st)) = true ->
  l <> [] ->
  eval_exprs_loop l r st = (true, r, st).
Proof.
  intros Hm Hl. destruct l as [|e l]; [congruence|].
  cbn. rewrite Hm. reflexivity.
Qed.

(** C2 (amended): when the children before [ck] ran through without
    leaving a control modifier, [ck] is evaluated, and
    - if [ck] yields NULL, the compound returns NULL and pushes no error
      of its own: the context is the one [ck] left;
    - if [ck] yields an object that is falsy while
      [ck.ignore_falsy_result] is false, the compound pushes the error
      "bailing out due to a falsy expr" with that object and returns NULL.
    In both cases the children evaluated are exactly those up to [ck]:
    no child after [ck] is evaluated. *)
Theorem compound_eval_falsy_child :
  forall (self : FilterXCompoundExpr) (pre : list FilterXExpr) (ck : FilterXExpr)
         (post : list FilterXExpr) (st : EvalState) r1 st1,
    exprs self = pre ++ ck :: post ->
    eval_exprs_loop pre None st = (true, r1, st1) ->
    eval_control_modifier (context st1) = FXC_NONE ->
    (fst (eval ck (context st1)) = None ->
     fst (eval_compound self st) = None
     /\ context (snd (eval_compound self st)) = snd (eval ck (context st1))
     /\ evaluated (snd (eval_compound self st))
          = evaluated st ++ map expr_id (pre ++ [ck]))
    /\ (forall o : FilterXObject,
          fst (eval ck (context st1)) = Some o ->
          filterx_object_truthy o = false ->
          ignore_falsy_result ck = false ->
          fst (eval_compound self st) = None
          /\ context (snd (eval_compound self st))
               = filterx_eval_push_error "bailing out due to a falsy expr"
                   (Some (super_id self)) (Some o) (snd (eval ck (context st1)))
          /\ evaluated (snd (eval_compound self st))
               = evaluated st ++ map expr_id (pre ++ [ck])).
Proof.
  intros self pre ck post st r1 st1 Hexprs Hpre Hctl.
  destruct (eval_exprs_loop_app pre (ck :: post) None st Hpre Hctl) as [Hgo Hev].
  assert (Hlog : forall st2 : EvalState,
             evaluated st2 = evaluated st1 ++ [expr_id ck] ->
             evaluated st2 = evaluated st ++ map expr_id (pre ++ [ck])).
  { intros st2 H2. rewrite H2, Hev, map_app, <- app_assoc. reflexivity. }
  unfold _eval_compound, _eval_exprs. rewrite Hexprs, Hgo. cbn.
  rewrite Hctl. cbn.
  destruct (eval_expr ck st1) as [[ok r] st2] eqn:Hstep.
  apply eval_expr_inv in Hstep. destruct Hstep as (Hr & Hc & Hev2 & Hok).
  split.
  - intros Hnull. rewrite Hnull in Hr. subst r ok. cbn. auto.
  - intros o Hsome Hfalsy Hign. rewrite Hsome in Hr. subst r.
    rewrite Hfalsy, Hign in Hok. subst ok. cbn. rewrite Hc. auto.
Qed.

(** C3 (amended): when the children before [ck] ran through without
    leaving a control modifier and [ck] itself succeeds (an object that
    is truthy, or whose falsy value is ignored) and leaves the modifier
    at DROP or DONE, then no child after [ck] is evaluated and the
    compound pushes no error: its context is the one [ck] left.  In
    block mode it returns the boolean [true]; when [ck] is the last
    child of a statement expression, it returns the result of [ck]. *)
Theorem compound_eval_control_modifier :
  forall (self : FilterXCompoundExpr) (pre : list FilterXExpr) (ck : FilterXExpr)
         (post : list FilterXExpr) (st : EvalState) r1 st1 (o : FilterXObject),
    exprs self = pre ++ ck :: post ->
    eval_exprs_loop pre None st = (true, r1, st1) ->
    eval_control_modifier (context st1) = FXC_NONE ->
    fst (eval ck (context st1)) = Some o ->
    ignore_falsy_result ck || filterx_object_truthy o = true ->
    is_drop_or_done (eval_control_modifier (snd (eval ck (context st1)))) = true ->
    evaluated (snd (eval_compound self st)) = evaluated st ++ map expr_id (pre ++ [ck])
    /\ context (snd (eval_compound self st)) = snd (eval ck (context st1))
    /\ (return_value_of_last_expr self = false ->
        fst (eval_compound self st) = Some (filterx_boolean_new true))
    /\ (post = [] -> return_value_of_last_expr self = true ->
        fst (eval_compound self st) = Some o).
Proof.
  intros self pre ck post st r1 st1 o Hexprs Hpre Hctl Hsome Hok Hmod.
  destruct (eval_exprs_loop_app pre (ck :: post) None st Hpre Hctl) as [Hgo Hev].
  unfold _eval_compound, _eval_exprs. rewrite Hexprs, Hgo. cbn.
  rewrite Hctl. cbn.
  destruct (eval_expr ck st1) as [[ok r] st2] eqn:Hstep.
  apply eval_expr_inv in Hstep. destruct Hstep as (Hr & Hc & Hev2 & Hok2).
  rewrite Hsome in Hr. subst r. rewrite Hok in Hok2. subst ok.
  assert (Hloop : eval_exprs_loop post (Some o) st2 = (true, Some o, st2)).
  { destruct post as [|e post]; [reflexivity|].
    apply eval_exprs_loop_modifier_set; [now rewrite Hc | discriminate]. }
  rewrite Hloop. cbn.
  assert (Hlog : evaluated st2 = evaluated st ++ map expr_id (pre ++ [ck])).
  { rewrite Hev2, Hev, map_app, <- app_assoc. reflexivity. }
  destruct (return_value_of_last_expr self); cbn; repeat split; auto; discriminate.
Qed.

End CompoundFacts.

(** *** Worked examples for the compound expression *)

(** The statement expression [{ 1; "ok" }] yields its last value; a
    block without children yields [true]. *)
Lemma compound_eval_all_truthy_witness :
  fst (Compound._eval_compound Samples.sample_truthy false true
         (Compound.mkCompound 100 true
            [Samples.literal_expr 1 (FxInteger 1); Samples.literal_expr 2 (FxString (bytes_of "ok"))])
         Samples.initial_state)
    = Some (FxString (bytes_of "ok"))
  /\ Compound._eval_compound Samples.sample_truthy false true
       (Compound.mkCompound 101 false []) Samples.initial_state
     = (Some (FxBoolean true), Samples.initial_state).
Proof.
  split.
  - destruct (compound_eval_all_truthy Samples.sample_truthy false true
                (Compound.mkCompound 100 true
                   [Samples.literal_expr 1 (FxInteger 1);
                    Samples.literal_expr 2 (FxString (bytes_of "ok"))])
                Samples.initial_state) as [H _].
    destruct (H eq_refl eq_refl) as [Hres _]. exact Hres.
  - destruct (compound_eval_all_truthy Samples.sample_truthy false true
                (Compound.mkCompound 101 false []) Samples.initial_state) as (_ & H & _).
    exact (H eq_refl).
Defined.

(** The block [{ 1; false; 3 }] stops at [false] with the error; the
    block [{ 1; <failing>; 3 }] stops at the failing child without an
    error of its own.  Child 3 is evaluated in neither. *)
Lemma compound_eval_falsy_child_witness :
  (let res := Compound._eval_compound Samples.sample_truthy false false
                (Compound.mkCompound 100 false
                   [Samples.literal_expr 1 (FxInteger 1);
                    Samples.literal_expr 2 (FxBoolean false);
                    Samples.literal_expr 3 (FxInteger 3)])
                Samples.initial_state in
   fst res = None
   /\ error_stack (context (snd res))
        = [mkError "bailing out due to a falsy expr" (Some 100) (Some (FxBoolean false))]
   /\ evaluated (snd res) = [1; 2])
  /\ (let res := Compound._eval_compound Samples.sample_truthy false false
                   (Compound.mkCompound 100 false
                      [Samples.literal_expr 1 (FxInteger 1);
                       Samples.null_expr 2;
                       Samples.literal_expr 3 (FxInteger 3)])
                   Samples.initial_state in
      fst res = None
      /\ error_stack (context (snd res)) = []
      /\ evaluated (snd res) = [1; 2]).
Proof.
  split.
  - destruct (compound_eval_falsy_child Samples.sample_truthy false false
                (Compound.mkCompound 100 false
                   [Samples.literal_expr 1 (FxInteger 1);
                    Samples.literal_expr 2 (FxBoolean false);
                    Samples.literal_expr 3 (FxInteger 3)])
                [Samples.literal_expr 1 (FxInteger 1)]
                (Samples.literal_expr 2 (FxBoolean false))
                [Samples.literal_expr 3 (FxInteger 3)]
                Samples.initial_state eq_refl eq_refl eq_refl) as [_ H].
    destruct (H (FxBoolean false) eq_refl eq_refl eq_refl) as (H1 & H2 & H3).
    cbv zeta. rewrite H1, H2, H3. repeat split.
  - destruct (compound_eval_falsy_child Samples.sample_truthy false false
                (Compound.mkCompound 100 false
                   [Samples.literal_expr 1 (FxInteger 1);
                    Samples.null_expr 2;
                    Samples.literal_expr 3 (FxInteger 3)])
                [Samples.literal_expr 1 (FxInteger 1)]
                (Samples.null_expr 2)
                [Samples.literal_expr 3 (FxInteger 3)]
                Samples.initial_state eq_refl eq_refl eq_refl) as [H _].
    destruct (H eq_refl) as (H1 & H2 & H3).
    cbv zeta. rewrite H1, H2, H3. repeat split.
Defined.

(** C2 as stated fails when the child yields NULL: the compound returns
    NULL but pushes nothing, so the error stack stays empty. *)
Lemma compound_null_child_pushes_no_error :
  fst (Compound._eval_compound Samples.sample_truthy false false
         (Compound.mkCompound 100 false
            [Samples.null_expr 1; Samples.literal_expr 2 (FxBoolean true)])
         Samples.initial_state) = None
  /\ error_stack
       (context
          (snd (Compound._eval_compound Samples.sample_truthy false false
                  (Compound.mkCompound 100 false
                     [Samples.null_expr 1; Samples.literal_expr 2 (FxBoolean true)])
                  Samples.initial_state))) = [].
Proof. split; reflexivity. Qed.

(** The block [{ 1; drop; 3 }] stops after [drop] and yields [true]. *)
Lemma compound_eval_control_modifier_witness :
  (let res := Compound._eval_compound Samples.sample_truthy false false
                (Compound.mkCompound 100 false
                   [Samples.literal_expr 1 (FxInteger 1);
                    Samples.control_expr 2 FXC_DROP (FxBoolean true);
                    Samples.literal_expr 3 (FxInteger 3)])
                Samples.initial_state in
   evaluated (snd res) = [1; 2]
   /\ error_stack (context (snd res)) = []
   /\ fst res = Some (FxBoolean true)).
Proof.
  destruct (compound_eval_control_modifier Samples.sample_truthy false false
              (Compound.mkCompound 100 false
                 [Samples.literal_expr 1 (FxInteger 1);
                  Samples.control_expr 2 FXC_DROP (FxBoolean true);
                  Samples.literal_expr 3 (FxInteger 3)])
              [Samples.literal_expr 1 (FxInteger 1)]
              (Samples.control_expr 2 FXC_DROP (FxBoolean true))
              [Samples.literal_expr 3 (FxInteger 3)]
              Samples.initial_state
              eq_refl eq_refl eq_refl eq_refl eq_refl eq_refl) as (H1 & H2 & H3 & _).
  cbv zeta. rewrite H1, H2, (H3 eq_refl). repeat split.
Defined.

(** C3 as stated fails in two ways: a statement expression whose last
    child sets DROP returns that child's value, not the boolean [true];
    and a child that sets DROP but yields a falsy value makes the compound
    fail with an error. *)
Lemma compound_drop_does_not_always_return_true :
  fst (Compound._eval_compound Samples.sample_truthy false false
         (Compound.mkCompound 100 true
            [Samples.control_expr 1 FXC_DROP (FxInteger 5)])
         Samples.initial_state) = Some (FxInteger 5)
  /\ fst (Compound._eval_compound Samples.sample_truthy false false
            (Compound.mkCompound 100 false
               [Samples.control_expr 1 FXC_DROP (FxBoolean false);
                Samples.literal_expr 2 (FxInteger 3)])
            Samples.initial_state) = None.
Proof. split; reflexivity. Qed.

(** ** Initialisation of nodes with children *)

Section LifecycleFacts.

Import Lifecycle.

Lemma set_inited_same (n : Node) (b : bool) :
  inited n = b -> set_inited n b = n.
Proof. destruct n; cbn; intros ->; reflexivity. Qed.

Lemma map_reset_inited (l : list Node) :
  Forall (fun n => inited n = false) l ->
  map (fun n => set_inited (set_inited n true) false) l = l.
Proof.
  induction 1 as [|n l Hn _ IH]; cbn; [reflexivity|].
  rewrite IH. f_equal. destruct n; cbn in *; subst; reflexivity.
Qed.

Lemma compound_deinit_loop_spec (l : list Node) :
  forall log,
    compound_deinit_loop l log
      = (map (fun n => set_inited n false) l,
         log ++ map (fun n => EvDeinit (node_id n)) l).
Proof.
  induction l as [|n l IH]; intros log; cbn.
  - now rewrite app_nil_r.
  - rewrite IH, <- app_assoc. reflexivity.
Qed.

(** The outer loop of the compound [_init] up to a failing child. *)
Lemma compound_init_loop_failure (pre : list Node) (ck : Node) (post : list Node) :
  Forall (fun n => init_succeeds n = true) pre ->
  init_succeeds ck = false ->
  forall done log,
    compound_init_loop done (pre ++ ck :: post) log
      = (false,
         map (fun n => set_inited n false) (done ++ map (fun n => set_inited n true) pre)
           ++ ck :: post,
         log ++ map (fun n => EvInit (node_id n)) (pre ++ [ck])
             ++ map (fun n => EvDeinit (node_id n)) (done ++ pre)).
Proof.
  intros Hpre Hck. induction Hpre as [|n pre Hn _ IH]; intros done log; cbn.
  - unfold init_node. rewrite Hck. rewrite compound_deinit_loop_spec.
    rewrite !app_nil_r, <- app_assoc. reflexivity.
  - unfold init_node at 1. rewrite Hn. rewrite IH.
    rewrite <- !app_assoc. cbn. f_equal. f_equal.
    rewrite !map_app. cbn. reflexivity.
Qed.

Lemma elem_deinit_spec (e : FilterXLiteralGeneratorElem) (log : list Event) :
  _literal_generator_elem_deinit e log
    = ({| key := option_map (fun n => set_inited n false) (key e);
          value := set_inited (value e) false;
          cloneable := cloneable e |},
       log ++ map (fun n => EvDeinit (node_id n)) (elem_nodes e)).
Proof.
  unfold _literal_generator_elem_deinit, elem_nodes, key_nodes, filterx_expr_deinit,
    deinit_node.
  destruct (key e) as [k|]; cbn; rewrite <- ?app_assoc; reflexivity.
Qed.

Lemma elem_init_success (e : FilterXLiteralGeneratorElem) (log : list Event) :
  elem_init_succeeds e = true ->
  _literal_generator_elem_init e log
    = (true, elem_after_init e, log ++ map (fun n => EvInit (node_id n)) (elem_nodes e)).
Proof.
  unfold elem_init_succeeds, _literal_generator_elem_init, elem_nodes, key_nodes,
    elem_after_init, filterx_expr_init, init_node.
  destruct (key e) as [k|]; cbn.
  - rewrite andb_true_r. intros H. apply andb_true_iff in H. destruct H as [Hk Hv].
    rewrite Hk. cbn. rewrite Hv. cbn. rewrite <- app_assoc. reflexivity.
  - rewrite andb_true_r. intros Hv. rewrite Hv. reflexivity.
Qed.

Lemma elem_init_failure (e : FilterXLiteralGeneratorElem) (log : list Event) :
  elem_init_succeeds e = false ->
  Forall (fun n => inited n = false) (elem_nodes e) ->
  _literal_generator_elem_init e log = (false, e, log ++ failing_elem_events e).
Proof.
  unfold elem_init_succeeds, _literal_generator_elem_init, elem_nodes, key_nodes,
    failing_elem_events, filterx_expr_init, filterx_expr_deinit, init_node.
  destruct e as [[k|] v c]; cbn; rewrite ?andb_true_r.
  - intros H Hun. inversion Hun as [|? ? Hk Hrest]; subst.
    destruct (init_succeeds k) eqn:Hik; cbn in *.
    + rewrite H. cbn. rewrite <- !app_assoc. cbn.
      destruct k; cbn in *; subst. reflexivity.
    + reflexivity.
  - intros H _. rewrite H. reflexivity.
Qed.

Lemma generator_deinit_loop_spec (l : list FilterXLiteralGeneratorElem) :
  forall log,
    Forall (fun e => Forall (fun n => inited n = false) (elem_nodes e)) l ->
    generator_deinit_loop (map elem_after_init l) log
      = (l, log ++ map (fun n => EvDeinit (node_id n)) (flat_map elem_nodes l)).
Proof.
  induction l as [|e l IH]; intros log Hun; cbn.
  - now rewrite app_nil_r.
  - inversion Hun as [|? ? He Hl]; subst.
    rewrite elem_deinit_spec. rewrite IH by assumption.
    rewrite map_app, <- !app_assoc.
    assert (Hnodes : map (fun n => EvDeinit (node_id n)) (elem_nodes (elem_after_init e))
                     = map (fun n => EvDeinit (node_id n)) (elem_nodes e)).
    { unfold elem_nodes, key_nodes, elem_after_init. cbn.
      destruct (key e); reflexivity. }
    rewrite Hnodes. f_equal. f_equal.
    destruct e as [[k|] v c]; unfold elem_after_init, elem_nodes, key_nodes in *; cbn in *.
    + inversion He as [|? ? Hk Hv]; subst. inversion Hv; subst.
      destruct k, v; cbn in *; subst; reflexivity.
    + inversion He; subst. destruct v; cbn in *; subst; reflexivity.
Qed.

Lemma generator_init_loop_failure (pre : list FilterXLiteralGeneratorElem)
    (ek : FilterXLiteralGeneratorElem) (post : list FilterXLiteralGeneratorElem) :
  Forall (fun e => elem_init_succeeds e = true) pre ->
  elem_init_succeeds ek = false ->
  Forall (fun n => inited n = false) (elem_nodes ek) ->
  forall done log,
    Forall (fun e => Forall (fun n => inited n = false) (elem_nodes e)) (done ++ pre) ->
    generator_init_loop (map elem_after_init done) (pre ++ ek :: post) log
      = (false,
         done ++ pre ++ ek :: post,
         log ++ map (fun n => EvInit (node_id n)) (flat_map elem_nodes pre)
             ++ failing_elem_events ek
             ++ map (fun n => EvDeinit (node_id n)) (flat_map elem_nodes (done ++ pre))).
Proof.
  intros Hpre Hek Hunk. induction Hpre as [|e pre He _ IH]; intros done log Hun; cbn.
  - rewrite elem_init_failure by assumption.
    rewrite app_nil_r in Hun. rewrite generator_deinit_loop_spec by assumption.
    rewrite app_nil_r, <- !app_assoc. reflexivity.
  - rewrite elem_init_success by assumption.
    replace (map elem_after_init done ++ [elem_after_init e])
      with (map elem_after_init (done ++ [e])) by (rewrite map_app; reflexivity).
    replace (done ++ e :: pre) with ((done ++ [e]) ++ pre) in Hun
      by (rewrite <- app_assoc; reflexivity).
    rewrite (IH (done ++ [e]) _ Hun).
    rewrite <- !app_assoc. cbn. rewrite map_app, <- !app_assoc. reflexivity.
Qed.

(** C8 (amended): for the compound expression and the literal generator,
    when the children before the k-th initialise and the k-th fails,
    [init] of the node fails, the children already initialised are
    deinit-ed, in declaration order, and every child is left as it was
    before [init]. *)
Theorem init_failure_is_rolled_back :
  (forall (pre : list Node) (ck : Node) (post : list Node) (log : list Event),
      Forall (fun n => init_succeeds n = true) pre ->
      init_succeeds ck = false ->
      Forall (fun n => inited n = false) (pre ++ ck :: post) ->
      compound_init (pre ++ ck :: post) log
        = (false,
           pre ++ ck :: post,
           log ++ map (fun n => EvInit (node_id n)) (pre ++ [ck])
               ++ map (fun n => EvDeinit (node_id n)) pre))
  /\ (forall (init_method : bool) (pre : list FilterXLiteralGeneratorElem)
             (ek : FilterXLiteralGeneratorElem) (post : list FilterXLiteralGeneratorElem)
             (log : list Event),
         Forall (fun e => elem_init_succeeds e = true) pre ->
         elem_init_succeeds ek = false ->
         Forall (fun e => Forall (fun n => inited n = false) (elem_nodes e))
                (pre ++ ek :: post) ->
         _literal_generator_init init_method (pre ++ ek :: post) log
           = (false,
              pre ++ ek :: post,
              log ++ map (fun n => EvInit (node_id n)) (flat_map elem_nodes pre)
                  ++ failing_elem_events ek
                  ++ map (fun n => EvDeinit (node_id n)) (flat_map elem_nodes pre))).
Proof.
  split.
  - intros pre ck post log Hpre Hck Hun.
    unfold compound_init.
    rewrite (@compound_init_loop_failure pre ck post Hpre Hck [] log). cbn.
    apply Forall_app in Hun. destruct Hun as [Hun _].
    rewrite map_map, (map_reset_inited Hun). reflexivity.
  - intros g pre ek post log Hpre Hek Hun.
    unfold _literal_generator_init.
    apply Forall_app in Hun. destruct Hun as [Hunpre Hunrest].
    inversion Hunrest as [|? ? Hunk _]; subst.
    pose proof (@generator_init_loop_failure pre ek post Hpre Hek Hunk [] log Hunpre)
      as Hloop.
    change (map elem_after_init []) with (@nil FilterXLiteralGeneratorElem) in Hloop.
    rewrite Hloop. reflexivity.
Qed.

(** The binary operator does not undo the [init] of its left operand
    when the right one fails. *)
Lemma binary_op_init_leaves_lhs_initialised (self : FilterXBinaryOp) (log : list Event) :
  init_succeeds (lhs self) = true ->
  init_succeeds (rhs self) = false ->
  filterx_binary_op_init_method self log
    = (false,
       {| lhs := set_inited (lhs self) true; rhs := rhs self |},
       log ++ [EvInit (node_id (lhs self)); EvInit (node_id (rhs self))]).
Proof.
  intros Hl Hr. unfold filterx_binary_op_init_method, init_node.
  rewrite Hl, Hr. cbn. rewrite <- app_assoc. reflexivity.
Qed.

End LifecycleFacts.

(** A compound of three children whose third fails to initialise, and a
    dict literal whose second value fails. *)
Lemma init_failure_is_rolled_back_witness :
  Lifecycle.compound_init
    [Lifecycle.mkNode 1 true false; Lifecycle.mkNode 2 true false;
     Lifecycle.mkNode 3 false false; Lifecycle.mkNode 4 true false] []
  = (false,
     [Lifecycle.mkNode 1 true false; Lifecycle.mkNode 2 true false;
      Lifecycle.mkNode 3 false false; Lifecycle.mkNode 4 true false],
     [Lifecycle.EvInit 1; Lifecycle.EvInit 2; Lifecycle.EvInit 3;
      Lifecycle.EvDeinit 1; Lifecycle.EvDeinit 2])
  /\ Lifecycle._literal_generator_init true
       [Lifecycle.mkElem (Some (Lifecycle.mkNode 1 true false))
                         (Lifecycle.mkNode 2 true false) false;
        Lifecycle.mkElem (Some (Lifecycle.mkNode 3 true false))
                         (Lifecycle.mkNode 4 false false) false] []
     = (false,
        [Lifecycle.mkElem (Some (Lifecycle.mkNode 1 true false))
                          (Lifecycle.mkNode 2 true false) false;
         Lifecycle.mkElem (Some (Lifecycle.mkNode 3 true false))
                          (Lifecycle.mkNode 4 false false) false],
        [Lifecycle.EvInit 1; Lifecycle.EvInit 2; Lifecycle.EvInit 3;
         Lifecycle.EvInit 4; Lifecycle.EvDeinit 3;
         Lifecycle.EvDeinit 1; Lifecycle.EvDeinit 2]).
Proof.
  split.
  - apply (proj1 init_failure_is_rolled_back
             [Lifecycle.mkNode 1 true false; Lifecycle.mkNode 2 true false]
             (Lifecycle.mkNode 3 false false)
             [Lifecycle.mkNode 4 true false] []).
    + repeat constructor.
    + reflexivity.
    + repeat constructor.
  - apply (proj2 init_failure_is_rolled_back true
             [Lifecycle.mkElem (Some (Lifecycle.mkNode 1 true false))
                               (Lifecycle.mkNode 2 true false) false]
             (Lifecycle.mkElem (Some (Lifecycle.mkNode 3 true false))
                               (Lifecycle.mkNode 4 false false) false)
             [] []).
    + repeat constructor.
    + reflexivity.
    + repeat constructor.
Defined.

(** C8 as stated fails: the compound deinits the initialised children
    first to last, not in reverse; and a binary operator whose right
    operand fails leaves its left operand initialised. *)
Lemma init_failure_not_reverse_nor_always_undone :
  snd (Lifecycle.compound_init
         [Lifecycle.mkNode 1 true false; Lifecycle.mkNode 2 true false;
          Lifecycle.mkNode 3 false false] [])
  = [Lifecycle.EvInit 1; Lifecycle.EvInit 2; Lifecycle.EvInit 3;
     Lifecycle.EvDeinit 1; Lifecycle.EvDeinit 2]
  /\ Lifecycle.filterx_binary_op_init_method
       (Lifecycle.mkBinaryOp (Lifecycle.mkNode 1 true false)
                             (Lifecycle.mkNode 2 false false)) []
     = (false,
        Lifecycle.mkBinaryOp (Lifecycle.mkNode 1 true true)
                             (Lifecycle.mkNode 2 false false),
        [Lifecycle.EvInit 1; Lifecycle.EvInit 2]).
Proof. split; reflexivity. Qed.

(** ** The TLS transport *)

Section TransportFacts.

Import TransportTLS.

Local Open Scope Z_scope.

(** The three error codes the [switch] statements tell apart are
    distinct from SSL_ERROR_ZERO_RETURN and from one another. *)
Lemma zero_return_branch (e : Z) :
  e = SSL_ERROR_ZERO_RETURN ->
  (e =? SSL_ERROR_WANT_READ) = false
  /\ (e =? SSL_ERROR_WANT_WRITE) = false
  /\ (e =? SSL_ERROR_ZERO_RETURN) = true.
Proof. intros ->. repeat split. Qed.

Lemma syscall_branch (e : Z) :
  e = SSL_ERROR_SYSCALL ->
  (e =? SSL_ERROR_WANT_READ) = false
  /\ (e =? SSL_ERROR_WANT_WRITE) = false
  /\ (e =? SSL_ERROR_ZERO_RETURN) = false
  /\ (e =? SSL_ERROR_SYSCALL) = true.
Proof. intros ->. repeat split. Qed.

Lemma send_shutdown_rc (sh : SSLAnswer) (self : LogTransportTLS) :
  fst (log_transport_tls_send_shutdown sh self) = ssl_rc sh.
Proof.
  unfold log_transport_tls_send_shutdown.
  destruct (_is_shutdown_sent (ssl_rc sh)); reflexivity.
Qed.

Lemma send_shutdown_calls (sh : SSLAnswer) (self : LogTransportTLS) :
  calls (snd (log_transport_tls_send_shutdown sh self)) = calls self ++ [Call_SSL_shutdown].
Proof.
  unfold log_transport_tls_send_shutdown, _handle_shutdown_error.
  destruct (_is_shutdown_sent (ssl_rc sh)); cbn; [reflexivity|].
  repeat (match goal with |- context [if ?c then _ else _] => destruct c end);
    reflexivity.
Qed.

(** C9 (amended): on a read, when libssl reports that the peer shut the
    stream down (SSL_ERROR_ZERO_RETURN), the transport calls
    [SSL_shutdown] in reply, and the read returns 0 once that shutdown is
    sent.  When libssl reports SSL_ERROR_SYSCALL while [errno] is 0, the
    write method returns -1 with [errno] set to ECONNRESET, whereas the
    read method returns 0 (end of stream) and leaves [errno] at 0. *)
Theorem tls_shutdown_reply_and_unresolved_syscall_error :
  (forall (self : LogTransportTLS) (a sh : SSLAnswer) (rest : list SSLAnswer),
      ssl_rc a <= 0 ->
      ssl_get_error a = SSL_ERROR_ZERO_RETURN ->
      read_step (a :: sh :: rest) self
        = StepRc (if 0 <=? ssl_rc sh then 0 else -1)
                 (snd (log_transport_tls_send_shutdown sh (ssl_call Call_SSL_read a self)))
                 rest
      /\ calls (snd (log_transport_tls_send_shutdown sh (ssl_call Call_SSL_read a self)))
           = calls self ++ [Call_SSL_read; Call_SSL_shutdown])
  /\ (forall (self : LogTransportTLS) (a sh : SSLAnswer) (rest : list SSLAnswer)
             (aux : option LogTransportAuxData),
         sending_shutdown self = false ->
         ssl_rc a <= 0 ->
         ssl_get_error a = SSL_ERROR_ZERO_RETURN ->
         0 <= ssl_rc sh ->
         exists self',
           log_transport_tls_read_method (a :: sh :: rest) self aux
             = Some (0, self', add_aux self aux)
           /\ calls self' = calls self ++ [Call_SSL_read; Call_SSL_shutdown]
           /\ sending_shutdown self' = false)
  /\ (forall (self : LogTransportTLS) (a : SSLAnswer),
         ssl_rc a < 0 ->
         ssl_get_error a = SSL_ERROR_SYSCALL ->
         errno (ssl_call Call_SSL_write a self) = 0 ->
         fst (log_transport_tls_write_method a self) = -1
         /\ errno (snd (log_transport_tls_write_method a self)) = ECONNRESET)
  /\ (forall (self : LogTransportTLS) (a : SSLAnswer) (rest : list SSLAnswer)
             (aux : option LogTransportAuxData),
         sending_shutdown self = false ->
         ssl_rc a <= 0 ->
         ssl_get_error a = SSL_ERROR_SYSCALL ->
         errno (ssl_call Call_SSL_read a self) = 0 ->
         exists self',
           log_transport_tls_read_method (a :: rest) self aux
             = Some (0, self', add_aux self aux)
           /\ errno self' = 0
           /\ calls self' = calls self ++ [Call_SSL_read]).
Proof.
  split; [|split; [|split]].
  - intros self a sh rest Hrc Herr. split.
    + unfold read_step.
      apply Z.leb_le in Hrc. rewrite Hrc.
      destruct (zero_return_branch Herr) as (-> & -> & ->).
      pose proof (send_shutdown_rc sh (ssl_call Call_SSL_read a self)) as Hfst.
      destruct (log_transport_tls_send_shutdown sh (ssl_call Call_SSL_read a self)).
      cbn in Hfst. subst. reflexivity.
    + rewrite send_shutdown_calls. cbn. rewrite <- app_assoc. reflexivity.
  - intros self a sh rest aux Hss Hrc Herr Hsh.
    unfold log_transport_tls_read_method. rewrite Hss.
    cbn [length read_loop]. unfold read_step.
    pose proof Hrc as Hrc'. apply Z.leb_le in Hrc'. rewrite Hrc'.
    destruct (zero_return_branch Herr) as (-> & -> & ->).
    unfold log_transport_tls_send_shutdown in *. unfold _is_shutdown_sent in *.
    pose proof Hsh as Hsh'. apply Z.leb_le in Hsh'. rewrite Hsh' in *.
    cbn in *. rewrite Hsh'. cbn.
    eexists. split; [reflexivity|]. cbn. split.
    + rewrite <- app_assoc. reflexivity.
    + reflexivity.
  - intros self a Hrc Herr Herrno.
    unfold log_transport_tls_write_method.
    apply Z.ltb_lt in Hrc. rewrite Hrc.
    destruct (syscall_branch Herr) as (-> & -> & _ & ->).
    cbn in Herrno. cbn. rewrite Herrno. cbn. split; reflexivity.
  - intros self a rest aux Hss Hrc Herr Herrno.
    unfold log_transport_tls_read_method. rewrite Hss.
    cbn [length read_loop]. unfold read_step.
    apply Z.leb_le in Hrc. rewrite Hrc.
    destruct (syscall_branch Herr) as (-> & -> & -> & ->).
    cbn in Herrno. cbn. rewrite Herrno. cbn.
    eexists. split; [reflexivity|]. cbn. split; [exact Herrno | reflexivity].
Qed.

End TransportFacts.

(** The peer closes the stream and the shutdown in reply goes out at
    once; a write meets a syscall error while [errno] is 0. *)
Lemma tls_shutdown_reply_and_unresolved_syscall_error_witness :
  (exists self',
      TransportTLS.log_transport_tls_read_method
        [TransportTLS.mkAnswer 0 TransportTLS.SSL_ERROR_ZERO_RETURN None;
         TransportTLS.mkAnswer 1 TransportTLS.SSL_ERROR_NONE None]
        TransportTLS.idle_transport
        None
      = Some (0%Z, self', None)
      /\ TransportTLS.calls self'
           = [TransportTLS.Call_SSL_read; TransportTLS.Call_SSL_shutdown]
      /\ TransportTLS.sending_shutdown self' = false)
  /\ (fst (TransportTLS.log_transport_tls_write_method
             (TransportTLS.mkAnswer (-1) TransportTLS.SSL_ERROR_SYSCALL None)
             TransportTLS.idle_transport)
        = (-1)%Z
      /\ TransportTLS.errno
           (snd (TransportTLS.log_transport_tls_write_method
                   (TransportTLS.mkAnswer (-1) TransportTLS.SSL_ERROR_SYSCALL None)
                   TransportTLS.idle_transport))
         = TransportTLS.ECONNRESET).
Proof.
  destruct tls_shutdown_reply_and_unresolved_syscall_error as (_ & Hread & Hwrite & _).
  split.
  - apply (Hread TransportTLS.idle_transport
                 (TransportTLS.mkAnswer 0 TransportTLS.SSL_ERROR_ZERO_RETURN None)
                 (TransportTLS.mkAnswer 1 TransportTLS.SSL_ERROR_NONE None) [] None);
      [reflexivity | cbn; lia | reflexivity | cbn; lia].
  - apply (Hwrite TransportTLS.idle_transport
                  (TransportTLS.mkAnswer (-1) TransportTLS.SSL_ERROR_SYSCALL None));
      [cbn; lia | reflexivity | reflexivity].
Defined.

(** C9 as stated fails on the read side: a syscall error with [errno]
    at 0 makes the read return 0, not -1 with ECONNRESET. *)
Lemma tls_read_unresolved_syscall_error_is_eof :
  option_map (fun r => (fst (fst r), TransportTLS.errno (snd (fst r))))
    (TransportTLS.log_transport_tls_read_method
       [TransportTLS.mkAnswer (-1) TransportTLS.SSL_ERROR_SYSCALL (Some 0%Z)]
       TransportTLS.idle_transport
       None)
  = Some (0%Z, 0%Z).
Proof. reflexivity. Qed.

(** ** Regular expression search *)

Lemma byte_eqb_eq (a b : ascii) : byte_eqb a b = true <-> a = b.
Proof. apply Ascii.eqb_eq. Qed.

Lemma bytes_eqb_eq (a b : bytes) : bytes_eqb a b = true <-> a = b.
Proof.
  revert b. induction a as [|x a IH]; intros [|y b]; cbn; split;
    try congruence; try reflexivity.
  - intros H. apply andb_true_iff in H. destruct H as [Hx Ha].
    apply byte_eqb_eq in Hx. apply IH in Ha. congruence.
  - intros H. inversion H; subst. apply andb_true_iff. split.
    + now apply byte_eqb_eq.
    + now apply IH.
Qed.

Lemma bytes_eqb_refl (a : bytes) : bytes_eqb a a = true.
Proof. now apply bytes_eqb_eq. Qed.

Lemma bytes_eqb_neq (a b : bytes) : a <> b -> bytes_eqb a b = false.
Proof.
  intros H. destruct (bytes_eqb a b) eqn:E; [|reflexivity].
  apply bytes_eqb_eq in E. contradiction.
Qed.

Section RegexpSearchFacts.

Import RegexpSearch.

Local Open Scope Z_scope.

(** Decimal rendering tells the numbers of the [guint32] range apart. *)
Lemma format_guint32_inj (i j : Z) :
  0 <= i < 2 ^ 32 -> 0 <= j < 2 ^ 32 ->
  format_guint32 i = format_guint32 j -> i = j.
Proof.
  intros Hi Hj H. unfold format_guint32, bytes_of in H.
  rewrite !Z.mod_small in H by assumption.
  apply (f_equal string_of_list_ascii) in H.
  rewrite !string_of_list_ascii_of_string in H.
  apply (f_equal NilEmpty.uint_of_string) in H.
  rewrite !NilEmpty.usu in H. inversion H as [H'].
  apply DecimalN.Unsigned.to_uint_inj in H'.
  apply Z2N.inj in H'; lia.
Qed.

Lemma dict_get_set_same (k : bytes) (v : FilterXObject) (d : list (bytes * FilterXObject)) :
  dict_get k (dict_set k v d) = Some v.
Proof.
  induction d as [|[k0 v0] d IH]; cbn.
  - now rewrite bytes_eqb_refl.
  - destruct (bytes_eqb k0 k) eqn:E; cbn; rewrite E; [reflexivity | exact IH].
Qed.

Lemma dict_get_set_other (k k' : bytes) (v : FilterXObject)
    (d : list (bytes * FilterXObject)) :
  k' <> k -> dict_get k' (dict_set k v d) = dict_get k' d.
Proof.
  intros Hne. induction d as [|[k0 v0] d IH]; cbn.
  - rewrite bytes_eqb_neq; [reflexivity | congruence].
  - destruct (bytes_eqb k0 k) eqn:E; cbn.
    + apply bytes_eqb_eq in E. subst k0.
      rewrite bytes_eqb_neq; [reflexivity | congruence].
    + destruct (bytes_eqb k0 k'); [reflexivity | exact IH].
Qed.

Lemma dict_get_unset_other (k k' : bytes) (d : list (bytes * FilterXObject)) :
  k' <> k -> dict_get k' (dict_unset k d) = dict_get k' d.
Proof.
  intros Hne. induction d as [|[k0 v0] d IH]; cbn; [reflexivity|].
  destruct (bytes_eqb k0 k) eqn:E; cbn.
  - apply bytes_eqb_eq in E. subst k0.
    rewrite bytes_eqb_neq; [reflexivity | congruence].
  - destruct (bytes_eqb k0 k'); [reflexivity | exact IH].
Qed.

(** Setting a key never removes another. *)
Lemma dict_set_keeps (k k' : bytes) (v : FilterXObject) (d : list (bytes * FilterXObject)) :
  dict_get k' d <> None -> dict_get k' (dict_set k v d) <> None.
Proof.
  intros H. destruct (list_eq_dec ascii_dec k' k) as [->|Hne].
  - rewrite dict_get_set_same. discriminate.
  - now rewrite dict_get_set_other.
Qed.

(** From index 1 on, the list loop appends the groups that are set. *)
Lemma store_list_loop_tail (state : FilterXReMatchState) (num : Z) (pairs : list (Z * Z)) :
  forall i l,
    1 <= i ->
    store_list_loop state num i pairs (FxList l)
      = (true, FxList (l ++ list_values state pairs)).
Proof.
  induction pairs as [|[b e] pairs IH]; intros i l Hi; cbn.
  - now rewrite app_nil_r.
  - replace (i =? 0) with false by (symmetry; apply Z.eqb_neq; lia).
    rewrite andb_false_r. cbn.
    destruct ((to_gint b <? 0) || (to_gint e <? 0)).
    + apply IH. lia.
    + rewrite IH by lia. rewrite <- app_assoc. reflexivity.
Qed.

Lemma mod_not_negative (z : Z) : (z mod 2 ^ 64 <? 0) = false.
Proof. apply Z.ltb_ge. apply Z.mod_pos_bound. lia. Qed.

(** From index 1 on, the dict loop sets one entry per group. *)
Lemma store_dict_loop_tail (state : FilterXReMatchState) (num : Z) (pairs : list (Z * Z)) :
  forall i entries,
    1 <= i ->
    store_dict_loop state num i pairs (FxDict entries)
      = (true, FxDict (dict_fill state i pairs entries)).
Proof.
  induction pairs as [|[b e] pairs IH]; intros i entries Hi; cbn; [reflexivity|].
  replace (i =? 0) with false by (symmetry; apply Z.eqb_neq; lia).
  rewrite andb_false_r. cbn.
  rewrite !mod_not_negative. cbn. apply IH. lia.
Qed.

Lemma dict_fill_keeps (state : FilterXReMatchState) (k : bytes) (pairs : list (Z * Z)) :
  forall i entries,
    dict_get k entries <> None ->
    dict_get k (dict_fill state i pairs entries) <> None.
Proof.
  induction pairs as [|[b e] pairs IH]; intros i entries H; cbn; [exact H|].
  apply IH. now apply dict_set_keeps.
Qed.

(** The keys of the groups from [i] on are all present afterwards. *)
Lemma dict_fill_present (state : FilterXReMatchState) (pairs : list (Z * Z)) :
  forall i entries j,
    i <= j < i + Z.of_nat (length pairs) ->
    dict_get (format_guint32 j) (dict_fill state i pairs entries) <> None.
Proof.
  induction pairs as [|[b e] pairs IH]; intros i entries j Hj; cbn [length dict_fill] in *.
  - lia.
  - destruct (Z.eq_dec j i) as [->|Hne].
    + apply dict_fill_keeps. rewrite dict_get_set_same. discriminate.
    + apply IH. lia.
Qed.

(** The key of group 0 is not touched by the groups from 1 on. *)
Lemma dict_fill_zero (state : FilterXReMatchState) (pairs : list (Z * Z)) :
  forall i entries,
    1 <= i -> i + Z.of_nat (length pairs) <= 2 ^ 32 ->
    dict_get (format_guint32 0) (dict_fill state i pairs entries)
      = dict_get (format_guint32 0) entries.
Proof.
  induction pairs as [|[b e] pairs IH]; intros i entries Hi Hn;
    cbn [length dict_fill] in *; [reflexivity|].
  rewrite IH by lia.
  apply dict_get_set_other.
  intros H. apply format_guint32_inj in H; lia.
Qed.

(** The rename loop runs to its end and leaves the key "0" alone. *)
Lemma rename_loop_total (matches : list (Z * Z)) (table : list NameEntry) :
  Z.of_nat (length matches) <= 2 ^ 32 ->
  Forall (entry_ok (Z.of_nat (length matches))) table ->
  NoDup (map entry_number table) ->
  forall entries,
    (forall entry, In entry table ->
                   dict_get (format_guint32 (entry_number entry)) entries <> None) ->
    exists final,
      rename_loop matches table (FxDict entries) = Some (true, FxDict final)
      /\ dict_get (format_guint32 0) final = dict_get (format_guint32 0) entries.
Proof.
  intros Hnum Hok. induction Hok as [|entry table [Hn Hname] Htail IH];
    intros Hdup entries Hpresent; cbn.
  - exists entries. split; reflexivity.
  - inversion Hdup as [|? ? Hnotin Hdup']; subst.
    replace (entry_number entry <? 0) with false by (symmetry; apply Z.ltb_ge; lia).
    destruct (nth_error matches (Z.to_nat (entry_number entry))) as [[b e]|] eqn:Hnth.
    2:{ apply nth_error_None in Hnth. lia. }
    rewrite !mod_not_negative. cbn.
    destruct (dict_get (format_guint32 (entry_number entry)) entries) as [value|] eqn:Hget.
    2:{ exfalso. apply (Hpresent entry); [now left | exact Hget]. }
    set (num_key := format_guint32 (entry_number entry)).
    set (key := c_string (entry_name entry)).
    assert (Hstill : dict_get num_key (dict_set key value entries) <> None).
    { apply dict_set_keeps. unfold num_key. rewrite Hget. discriminate. }
    destruct (dict_get num_key (dict_set key value entries)) eqn:Hget2; [|contradiction].
    cbn.
    destruct (IH Hdup' (dict_unset num_key (dict_set key value entries))) as (final & Hrun & Hzero).
    { intros entry' Hin.
      assert (Hne : entry_number entry' <> entry_number entry).
      { intros Heq. apply Hnotin. rewrite <- Heq. now apply in_map. }
      assert (Hok' : entry_ok (Z.of_nat (length matches)) entry').
      { rewrite Forall_forall in Htail. now apply Htail. }
      destruct Hok' as [Hn' _].
      rewrite dict_get_unset_other.
      - apply dict_set_keeps. apply Hpresent. now right.
      - unfold num_key. intros H. apply format_guint32_inj in H; lia. }
    exists final. split; [exact Hrun|].
    etransitivity; [exact Hzero|].
    rewrite dict_get_unset_other.
    + apply (@dict_get_set_other key (format_guint32 0)). unfold key. congruence.
    + unfold num_key. intros H. apply format_guint32_inj in H; lia.
Qed.

(** C7 (amended): when the search matches, group 0 is left out of the
    container exactly when more than one group exists and [keep_zero] is
    not set; otherwise (a pattern without capture groups, or [keep_zero]
    set) it is stored: first in the list, under the key "0" in the
    dict. *)
Theorem group_zero_stored_unless_elided :
  (forall (state : FilterXReMatchState) (b0 e0 : Z) (rest : list (Z * Z))
          (l : list FilterXObject),
      match_data state = Some ((b0, e0) :: rest) ->
      (0 <=? to_gint b0) && (0 <=? to_gint e0) = true ->
      _store_matches_to_list state (FxList l)
        = Some (true,
                FxList (l ++ (if group_zero_elided state (Z.of_nat (length ((b0, e0) :: rest)))
                              then []
                              else [list_value state b0 e0])
                          ++ list_values state rest)))
  /\ (forall (pattern : pcre2_code_8) (state : FilterXReMatchState) (b0 e0 : Z)
             (rest : list (Z * Z)) (entries : list (bytes * FilterXObject)),
         match_data state = Some ((b0, e0) :: rest) ->
         Z.of_nat (length ((b0, e0) :: rest)) <= 2 ^ 32 ->
         Forall (entry_ok (Z.of_nat (length ((b0, e0) :: rest)))) pattern ->
         NoDup (map entry_number pattern) ->
         exists final,
           _store_matches_to_dict pattern state (FxDict entries)
             = Some (true, FxDict final)
           /\ dict_get (format_guint32 0) final
                = if group_zero_elided state (Z.of_nat (length ((b0, e0) :: rest)))
                  then dict_get (format_guint32 0) entries
                  else Some (dict_value state b0 e0)).
Proof.
  split.
  - intros state b0 e0 rest l Hdata Hset.
    unfold _store_matches_to_list. rewrite Hdata.
    cbn [store_list_loop]. unfold group_zero_elided.
    rewrite Z.eqb_refl, andb_true_r.
    set (num := Z.of_nat (length ((b0, e0) :: rest))).
    destruct ((1 <? num) && negb (check_flag (flags state) FILTERX_REGEXP_SEARCH_KEEP_GRP_ZERO)).
    + rewrite store_list_loop_tail by lia. reflexivity.
    + apply andb_true_iff in Hset. destruct Hset as [Hb He].
      apply Z.leb_le in Hb, He.
      replace (to_gint b0 <? 0) with false by (symmetry; apply Z.ltb_ge; lia).
      replace (to_gint e0 <? 0) with false by (symmetry; apply Z.ltb_ge; lia).
      cbn. rewrite store_list_loop_tail by lia.
      rewrite <- app_assoc. reflexivity.
  - intros pattern state b0 e0 rest entries Hdata Hnum Hok Hdup.
    unfold _store_matches_to_dict. rewrite Hdata.
    cbn [store_dict_loop]. unfold group_zero_elided.
    rewrite Z.eqb_refl, andb_true_r.
    set (num := Z.of_nat (length ((b0, e0) :: rest))) in *.
    assert (Hlen : num = 1 + Z.of_nat (length rest)).
    { unfold num. cbn [length]. lia. }
    assert (Hpresent : forall entries0 entry,
               In entry pattern ->
               dict_get (format_guint32 (entry_number entry))
                        (dict_fill state 1 rest entries0) <> None).
    { intros entries0 entry Hin. apply dict_fill_present.
      rewrite Forall_forall in Hok. destruct (Hok entry Hin) as [Hn _]. lia. }
    destruct ((1 <? num) && negb (check_flag (flags state) FILTERX_REGEXP_SEARCH_KEEP_GRP_ZERO)).
    + rewrite store_dict_loop_tail by lia. cbn.
      destruct (@rename_loop_total ((b0, e0) :: rest) pattern Hnum Hok Hdup
                  (dict_fill state 1 rest entries) (Hpresent entries))
        as (final & Hrun & Hzero).
      exists final. split; [exact Hrun|].
      etransitivity; [exact Hzero|]. apply dict_fill_zero; lia.
    + rewrite !mod_not_negative. cbn.
      rewrite store_dict_loop_tail by lia. cbn.
      destruct (@rename_loop_total ((b0, e0) :: rest) pattern Hnum Hok Hdup
                  (dict_fill state 1 rest
                     (dict_set (format_guint32 0) (dict_value state b0 e0) entries))
                  (Hpresent _))
        as (final & Hrun & Hzero).
      exists final. split; [exact Hrun|].
      etransitivity; [exact Hzero|].
      etransitivity; [apply dict_fill_zero; lia|].
      apply dict_get_set_same.
Qed.

End RegexpSearchFacts.

(** [regexp_search("foo123bar", "(?<n>\d+)")]: two groups, [keep_zero]
    unset.  List mode gives ["123"]; dict mode has no key "0". *)
Lemma group_zero_stored_unless_elided_witness :
  RegexpSearch._store_matches_to_list
    (RegexpSearch.mkReMatchState (Some [(3, 6); (3, 6)]%Z) (bytes_of "foo123bar") 2%Z)
    (FxList [])
  = Some (true, FxList [FxString (bytes_of "123")])
  /\ (exists final,
         RegexpSearch._store_matches_to_dict
           [RegexpSearch.mkNameEntry "000" "001" (bytes_of "n")]
           (RegexpSearch.mkReMatchState (Some [(3, 6); (3, 6)]%Z) (bytes_of "foo123bar") 0%Z)
           (FxDict [])
         = Some (true, FxDict final)
         /\ RegexpSearch.dict_get (bytes_of "0") final = None).
Proof.
  destruct group_zero_stored_unless_elided as [Hlist Hdict].
  split.
  - apply (Hlist
             (RegexpSearch.mkReMatchState (Some [(3, 6); (3, 6)]%Z)
                (bytes_of "foo123bar") 2%Z)
             3%Z 6%Z [(3, 6)%Z] []); reflexivity.
  - apply (Hdict
             [RegexpSearch.mkNameEntry "000" "001" (bytes_of "n")]
             (RegexpSearch.mkReMatchState (Some [(3, 6); (3, 6)]%Z)
                (bytes_of "foo123bar") 0%Z)
             3%Z 6%Z [(3, 6)%Z] []).
    + reflexivity.
    + cbn. lia.
    + constructor; [|constructor]. split; [cbn; lia | discriminate].
    + constructor; [intros []|constructor].
Defined.

(** C7 as stated fails for a pattern without capture groups: with
    [keep_zero] unset, the whole match is stored all the same, as the
    only element of the list and under the key "0" of the dict. *)
Lemma group_zero_kept_without_capture_groups :
  RegexpSearch._store_matches_to_list
    (RegexpSearch.mkReMatchState (Some [(0, 3)]%Z) (bytes_of "foobar") 2%Z)
    (FxList [])
  = Some (true, FxList [FxString (bytes_of "foo")])
  /\ RegexpSearch._store_matches_to_dict []
       (RegexpSearch.mkReMatchState (Some [(0, 3)]%Z) (bytes_of "foobar") 0%Z)
       (FxDict [])
     = Some (true, FxDict [(bytes_of "0", FxString (bytes_of "foo"))]).
Proof. split; reflexivity. Qed.

(** ** String predicates *)

Section FuncStrFacts.

Import FuncStr.

Variable g_utf8_casefold : bytes -> bytes.
Variable repr_other : FilterXObject -> option bytes.

#[local] Abbreviation expr_format := (_expr_format g_utf8_casefold repr_other).
#[local] Abbreviation obj_format := (_obj_format g_utf8_casefold repr_other).
#[local] Abbreviation affix_eval := (_expr_affix_eval g_utf8_casefold repr_other).
#[local] Abbreviation affix_new := (_function_affix_new g_utf8_casefold repr_other).
#[local] Abbreviation folded := (FuncStr.folded g_utf8_casefold).

Lemma gs_len_to_nat (s : bytes) : Z.to_nat (gs_len s) = length s.
Proof. unfold gs_len. apply Nat2Z.id. Qed.

Lemma memcmp_eq_needle (h n : bytes) :
  memcmp_eq h n (gs_len n) = bytes_eqb (firstn (length n) h) n.
Proof.
  unfold memcmp_eq. rewrite gs_len_to_nat, firstn_all. reflexivity.
Qed.

(** C5 (amended): for each of the three predicates, a needle longer than
    the haystack yields false and an empty needle yields true.  With
    [ignorecase] the only haystack that makes the call fail in
    [_do_casefold] is one longer than G_MAXSSIZE: the bytes are not
    checked for being UTF-8, and any haystack within that length is
    folded and compared. *)
Theorem affix_predicates_edge_cases :
  (forall (haystack needle : bytes) (haystack_len needle_len : Z),
      (haystack_len < needle_len)%Z ->
      _function_startswith_process haystack haystack_len needle needle_len = false
      /\ _function_endswith_process haystack haystack_len needle needle_len = false
      /\ _function_includes_process haystack haystack_len needle needle_len = false)
  /\ (forall haystack : bytes,
         _function_startswith_process haystack (gs_len haystack) [] 0%Z = true
         /\ _function_endswith_process haystack (gs_len haystack) [] 0%Z = true
         /\ _function_includes_process haystack (gs_len haystack) [] 0%Z = true)
  /\ (forall (str : bytes),
         (gs_len str <= G_MAXSSIZE)%Z ->
         _do_casefold g_utf8_casefold str = (true, g_utf8_casefold str))
  /\ (forall (expr : FilterXExpr) (st : EvalState) (s : bytes),
         fst (eval expr (context st)) = Some (FxString s) ->
         (gs_len s <= G_MAXSSIZE)%Z ->
         exists st',
           expr_format expr true st = Returned (Some (g_utf8_casefold s)) st').
Proof.
  split; [|split; [|split]].
  - intros haystack needle haystack_len needle_len Hlt.
    apply Z.ltb_lt in Hlt.
    unfold _function_startswith_process, _function_endswith_process,
      _function_includes_process.
    rewrite Hlt. repeat split.
  - intros haystack.
    unfold _function_startswith_process, _function_endswith_process,
      _function_includes_process.
    assert (Hge : (gs_len haystack <? 0)%Z = false).
    { apply Z.ltb_ge. unfold gs_len. lia. }
    rewrite Hge. repeat split.
    unfold g_strstr_len, strstr. cbn.
    destruct (to_gssize (gs_len haystack) <? 0)%Z; reflexivity.
  - intros str Hlen. unfold _do_casefold.
    replace (G_MAXSSIZE <? gs_len str)%Z with false
      by (symmetry; apply Z.ltb_ge; exact Hlen).
    reflexivity.
  - intros expr st s Heval Hlen.
    unfold _expr_format, filterx_expr_eval_typed, do_eval, bind, filterx_expr_eval.
    destruct (eval expr (context st)) as [res ctx'] eqn:He. cbn in Heval. subst res.
    cbn. unfold ret, _do_casefold.
    replace (G_MAXSSIZE <? gs_len s)%Z with false
      by (symmetry; apply Z.ltb_ge; exact Hlen).
    eexists. reflexivity.
Qed.

(** No node that [_function_affix_new] returns has a filled cache
    slot: [str_value] stays NULL in every [FilterXStringWithCache]. *)
Lemma string_with_cache_new_empty (e : FilterXExpr) (ic : bool) (st st' : EvalState)
    (c : FilterXStringWithCache) :
  _string_with_cache_new g_utf8_casefold repr_other e ic st = Returned (Some c) st' ->
  str_value c = None /\ expr c = e.
Proof.
  unfold _string_with_cache_new, bind.
  destruct (_string_with_cache_fill_cache _ _ _ _ st) as [ok st1|]; [|discriminate].
  destruct ok; unfold ret; intros H; inversion H; subst; split; reflexivity.
Qed.

Lemma cache_needles_empty (values : list FilterXExpr) (ic : bool) :
  forall cached st ok cached' st',
    Forall (fun c => str_value c = None) cached ->
    cache_needles g_utf8_casefold repr_other values ic cached st
      = Returned (ok, cached') st' ->
    Forall (fun c => str_value c = None) cached'.
Proof.
  induction values as [|v values IH]; intros cached st ok cached' st' Hc; cbn.
  - unfold ret. intros H. inversion H; subst. exact Hc.
  - unfold bind at 1.
    destruct (_string_with_cache_new _ _ v ic st) as [[c|] st1|] eqn:Hnew;
      [| |discriminate].
    + apply string_with_cache_new_empty in Hnew. destruct Hnew as [Hnone _].
      apply IH. apply Forall_app. split; [exact Hc | now constructor].
    + unfold ret. intros H. inversion H; subst. exact Hc.
Qed.

Lemma cache_is_never_filled (args : FilterXFunctionArgs)
    (process_func : FilterXExprAffixProcessFunc) (st st' : EvalState)
    (self : FilterXExprAffix) :
  affix_new args process_func st = Returned (Some self) st' ->
  Forall (fun c => str_value c = None) (cached_strings self).
Proof.
  unfold _function_affix_new.
  destruct (_extract_optional_args false args) as [ic|]; [|discriminate].
  destruct (_extract_haystack_arg args) as [h|]; [|discriminate].
  destruct (_extract_needle_arg args) as [n|]; [|discriminate].
  unfold bind at 1.
  match goal with
  | |- context [_expr_affix_init_needle _ _ ?s0 n st] =>
      destruct (_expr_affix_init_needle g_utf8_casefold repr_other s0 n st)
        as [[ok self1] st1|] eqn:Hinit
  end; [|discriminate].
  cbn. destruct ok; unfold ret; intros H; inversion H; subst; clear H.
  revert Hinit. unfold _expr_affix_init_needle. cbn.
  unfold bind at 1.
  destruct (filterx_expr_is_literal n).
  - unfold bind at 1.
    destruct (_string_with_cache_new _ _ n ic st) as [[c|] st2|] eqn:Hnew;
      [| |discriminate].
    + apply string_with_cache_new_empty in Hnew. destruct Hnew as [Hnone _].
      unfold ret at 1. cbn.
      destruct (filterx_expr_is_literal_list_generator n).
      * unfold bind.
        destruct (cache_needles _ _ _ ic [c] st2) as [[ok2 cached2] st3|] eqn:Hcache;
          [|discriminate].
        unfold ret. intros H. inversion H; subst. cbn.
        eapply cache_needles_empty; [|exact Hcache]. now constructor.
      * unfold ret. intros H. inversion H; subst. cbn. now constructor.
    + unfold ret at 1. cbn. unfold ret. intros H. inversion H.
  - unfold ret at 1. cbn.
    destruct (filterx_expr_is_literal_list_generator n).
    + unfold bind.
      destruct (cache_needles _ _ _ ic [] st) as [[ok2 cached2] st3|] eqn:Hcache;
        [|discriminate].
      unfold ret. intros H. inversion H; subst. cbn.
      eapply cache_needles_empty; [|exact Hcache]. constructor.
    + unfold ret. intros H. inversion H; subst. cbn. constructor.
Qed.

(** *** The predicates as relations on byte strings *)

Lemma firstn_is_prefix (n h : bytes) :
  firstn (length n) h = n <-> exists t, h = n ++ t.
Proof.
  split.
  - intros H. exists (skipn (length n) h).
    rewrite <- H at 1. symmetry. apply firstn_skipn.
  - intros [t ->]. rewrite firstn_app, Nat.sub_diag, firstn_all. cbn.
    apply app_nil_r.
Qed.

Lemma is_prefix_of_spec (n h : bytes) :
  is_prefix_of n h = true <-> exists t, h = n ++ t.
Proof.
  revert h. induction n as [|x n IH]; intros h; cbn.
  - split; [intros _; now exists h | reflexivity].
  - destruct h as [|y h].
    + split; [discriminate | intros [t Ht]; discriminate].
    + rewrite andb_true_iff, byte_eqb_eq, IH. split.
      * intros [-> [t ->]]. now exists t.
      * intros [t Ht]. inversion Ht; subst. split; [reflexivity | now exists t].
Qed.

Lemma startswith_is_prefix (h n : bytes) :
  _function_startswith_process h (gs_len h) n (gs_len n) = true
  <-> exists t, h = n ++ t.
Proof.
  unfold _function_startswith_process. rewrite memcmp_eq_needle.
  destruct (gs_len h <? gs_len n)%Z eqn:Hlen.
  - split; [discriminate|]. intros [t ->].
    apply Z.ltb_lt in Hlen. unfold gs_len in Hlen. rewrite length_app in Hlen. lia.
  - rewrite bytes_eqb_eq. apply firstn_is_prefix.
Qed.

Lemma endswith_is_suffix (h n : bytes) :
  _function_endswith_process h (gs_len h) n (gs_len n) = true
  <-> exists t, h = t ++ n.
Proof.
  unfold _function_endswith_process. rewrite memcmp_eq_needle.
  destruct (gs_len h <? gs_len n)%Z eqn:Hlen.
  - split; [discriminate|]. intros [t ->].
    apply Z.ltb_lt in Hlen. unfold gs_len in Hlen. rewrite length_app in Hlen. lia.
  - apply Z.ltb_ge in Hlen. unfold gs_len in *.
    replace (Z.to_nat (Z.of_nat (length h) - Z.of_nat (length n)))
      with (length h - length n)%nat by lia.
    rewrite bytes_eqb_eq. split.
    + intros H. exists (firstn (length h - length n) h).
      rewrite <- (firstn_skipn (length h - length n) h) at 1.
      f_equal.
      rewrite firstn_all2 in H by (rewrite length_skipn; lia).
      exact H.
    + intros [t ->]. rewrite length_app.
      replace (length t + length n - length n)%nat with (length t) by lia.
      rewrite skipn_app, Nat.sub_diag, skipn_all. cbn. apply firstn_all.
Qed.

Lemma c_string_no_nul (s : bytes) :
  Forall (fun c => c <> NUL) s -> c_string s = s.
Proof.
  induction 1 as [|c s Hc _ IH]; cbn; [reflexivity|].
  destruct (byte_eqb c NUL) eqn:E.
  - apply byte_eqb_eq in E. contradiction.
  - now rewrite IH.
Qed.

(** The scan of [g_strstr_len] on a haystack without NUL bytes finds the
    needle exactly when it occurs. *)
Lemma strstr_scan_infix (n h : bytes) :
  n <> [] ->
  Forall (fun c => c <> NUL) h ->
  strstr_scan n h = true <-> exists a b, h = a ++ n ++ b.
Proof.
  intros Hn Hh. induction Hh as [|c h Hc Hh IH].
  - cbn. destruct n as [|x n]; [contradiction|]. cbn.
    split; [discriminate|]. intros (a & b & H).
    destruct a; discriminate.
  - cbn [strstr_scan].
    destruct (length (c :: h) <? length n)%nat eqn:Hlen.
    + split; [discriminate|]. intros (a & b & H).
      apply Nat.ltb_lt in Hlen. rewrite H, !length_app in Hlen. lia.
    + destruct (byte_eqb c NUL) eqn:E.
      { apply byte_eqb_eq in E. contradiction. }
      destruct (is_prefix_of n (c :: h)) eqn:Hp.
      * split; [|reflexivity]. intros _.
        apply is_prefix_of_spec in Hp. destruct Hp as [t Ht].
        exists [], t. exact Ht.
      * rewrite IH. split.
        -- intros (a & b & ->). exists (c :: a), b. reflexivity.
        -- intros (a & b & H). destruct a as [|y a].
           ++ exfalso. cbn in H.
              assert (Hp' : is_prefix_of n (c :: h) = true)
                by (apply is_prefix_of_spec; now exists b).
              congruence.
           ++ inversion H; subst. now exists a, b.
Qed.

Lemma includes_is_infix (h n : bytes) :
  Forall (fun c => c <> NUL) h ->
  Forall (fun c => c <> NUL) n ->
  (gs_len h < 2 ^ 64)%Z ->
  _function_includes_process h (gs_len h) n (gs_len n) = true
  <-> exists a b, h = a ++ n ++ b.
Proof.
  intros Hh Hn Hfit. unfold _function_includes_process.
  destruct (gs_len h <? gs_len n)%Z eqn:Hlen.
  - split; [discriminate|]. intros (a & b & ->).
    apply Z.ltb_lt in Hlen. unfold gs_len in Hlen. rewrite !length_app in Hlen. lia.
  - apply Z.ltb_ge in Hlen.
    unfold g_strstr_len, strstr. rewrite !c_string_no_nul by assumption.
    destruct n as [|x n].
    + cbn. split; [|destruct (_ <? 0)%Z; reflexivity].
      intros _. exists [], h. reflexivity.
    + assert (Hne : x :: n <> []) by discriminate.
      destruct (to_gssize (gs_len h) <? 0)%Z eqn:Hneg.
      * now apply strstr_scan_infix.
      * replace (gs_len (x :: n) =? 0)%Z with false
          by (symmetry; apply Z.eqb_neq; unfold gs_len; cbn [length]; lia).
        assert (Hsame : to_gssize (gs_len h) = gs_len h).
        { unfold to_gssize in *.
          destruct (gs_len h mod 2 ^ 64 <? 2 ^ 63)%Z eqn:Hsmall.
          - apply Z.mod_small. unfold gs_len in *. lia.
          - apply Z.ltb_ge in Hneg, Hsmall.
            pose proof (Z.mod_pos_bound (gs_len h) (2 ^ 64) ltac:(lia)). lia. }
        rewrite Hsame.
        replace (gs_len h <? gs_len (x :: n))%Z with false
          by (symmetry; apply Z.ltb_ge; exact Hlen).
        rewrite gs_len_to_nat, firstn_all.
        now apply strstr_scan_infix.
Qed.

(** *** Evaluation of the node *)

Lemma filterx_expr_eval_fst (e : FilterXExpr) (st : EvalState) :
  fst (filterx_expr_eval e st) = fst (eval e (context st)).
Proof.
  unfold filterx_expr_eval. destruct (eval e (context st)); reflexivity.
Qed.

Lemma filterx_expr_eval_context (e : FilterXExpr) (st : EvalState) :
  context (snd (filterx_expr_eval e st)) = snd (eval e (context st)).
Proof.
  unfold filterx_expr_eval. destruct (eval e (context st)); reflexivity.
Qed.

Lemma fold_result_some (ic : bool) (s : bytes) (st : EvalState) :
  fits ic s ->
  fold_result g_utf8_casefold (Some s) ic st = Returned (Some (folded ic s)) st.
Proof.
  intros Hfit. unfold fold_result, folded. destruct ic; [|reflexivity].
  unfold _do_casefold.
  replace (G_MAXSSIZE <? gs_len s)%Z with false
    by (symmetry; apply Z.ltb_ge; now apply Hfit).
  reflexivity.
Qed.

Lemma expr_format_repr (e : FilterXExpr) (ic : bool) (st : EvalState)
    (o : FilterXObject) (s : bytes) :
  fst (eval e (context st)) = Some o ->
  filterx_object_repr repr_other o = Some s ->
  fits ic s ->
  expr_format e ic st = Returned (Some (folded ic s)) (snd (filterx_expr_eval e st)).
Proof.
  intros He Hrepr Hfit.
  unfold _expr_format, filterx_expr_eval_typed, do_eval, bind.
  rewrite <- filterx_expr_eval_fst in He.
  destruct (filterx_expr_eval e st) as [res st1]. cbn in He. subst res.
  unfold _format_str_obj. rewrite Hrepr. cbn.
  now apply fold_result_some.
Qed.

Lemma obj_format_string (ic : bool) (s : bytes) (st : EvalState) :
  fits ic s ->
  obj_format (FxString s) ic st = Returned (Some (folded ic s)) st.
Proof.
  intros Hfit. unfold _obj_format, bind. cbn. now apply fold_result_some.
Qed.

Lemma format_needles_strings (ic : bool) (ss : list bytes) :
  Forall (fits ic) ss ->
  forall acc st,
    format_needles g_utf8_casefold repr_other (map FxString ss) ic acc st
      = Returned (Some (acc ++ map (folded ic) ss)) st.
Proof.
  induction 1 as [|s ss Hs _ IH]; intros acc st; cbn.
  - now rewrite app_nil_r.
  - unfold bind. rewrite obj_format_string by assumption.
    rewrite IH, <- app_assoc. reflexivity.
Qed.

(** The loop over evaluated needles is a disjunction taken from the
    left. *)
Lemma needle_list_loop_existsb (process : FilterXExprAffixProcessFunc) (h : bytes)
    (l : list bytes) :
  forall m,
    needle_list_loop process h l m
      = m || existsb (fun n => process h (gs_len h) n (gs_len n)) l.
Proof.
  induction l as [|n l IH]; intros m; cbn.
  - now rewrite orb_false_r.
  - destruct m; [reflexivity|]. rewrite IH. reflexivity.
Qed.

Lemma cached_needles_loop_matched (process : FilterXExprAffixProcessFunc) (ic : bool)
    (h : bytes) (l : list FilterXStringWithCache) (st : EvalState) :
  cached_needles_loop g_utf8_casefold repr_other process ic h l true st
    = Returned (Some true) st.
Proof. destruct l; reflexivity. Qed.

(** The loop over cached needles whose expressions yield strings: the
    needles are evaluated one by one until one matches. *)
Lemma cached_needles_loop_strings (process : FilterXExprAffixProcessFunc) (ic : bool)
    (h : bytes) (cs : list FilterXStringWithCache) :
  Forall (fun c => str_value c = None) cs ->
  forall (ss : list bytes) (st : EvalState),
    map fst (eval_in_sequence (map expr cs) (context st))
      = map (fun s => Some (FxString s)) ss ->
    Forall (fits ic) ss ->
    exists st',
      cached_needles_loop g_utf8_casefold repr_other process ic h cs false st
        = Returned
            (Some (existsb (fun n => process h (gs_len h) n (gs_len n))
                           (map (folded ic) ss)))
            st'.
Proof.
  induction 1 as [|c cs Hc _ IH]; intros ss st Hseq Hfits; cbn in *.
  - destruct ss; [|discriminate]. exists st. reflexivity.
  - destruct ss as [|s ss]; [discriminate|].
    inversion Hseq as [[Hhead Htail]]. inversion Hfits as [|? ? Hs Hss]; subst.
    unfold bind at 1. unfold _string_with_cache_get_string_value. rewrite Hc.
    unfold bind at 1.
    rewrite (@expr_format_repr (expr c) ic st (FxString s) s Hhead eq_refl Hs).
    unfold ret at 1. cbn [existsb map].
    destruct (process h (gs_len h) (folded ic s) (gs_len (folded ic s))).
    + rewrite cached_needles_loop_matched. eexists. reflexivity.
    + rewrite <- filterx_expr_eval_context with (st := st) in Htail.
      destruct (IH ss _ Htail Hss) as [st' Hrun].
      exists st'. exact Hrun.
Qed.

(** C4 (amended): the haystack is rendered (and folded under
    [ignorecase]); then
    - a needle that evaluates to a string is rendered and tested;
    - a needle that evaluates to a non-empty list of strings has its
      elements rendered and tested from the left, and the call returns
      true at the first that matches, false when none does;
    - a needle that evaluates to an empty list makes the call fail;
    - needles taken from the node's [cached_strings] are evaluated,
      rendered and tested one by one in the same way.
    The test is the byte-wise prefix relation for [startswith], the suffix
    relation for [endswith]; for [includes] it is the substring relation
    on strings without NUL bytes. *)
Theorem affix_eval_tests_needles_in_order :
  (forall (self : FilterXExprAffix) (st : EvalState) (ho : FilterXObject) (h0 : bytes),
      fst (eval (haystack self) (context st)) = Some ho ->
      filterx_object_repr repr_other ho = Some h0 ->
      fits (ignore_case self) h0 ->
      let ic := ignore_case self in
      let h := folded ic h0 in
      let st1 := snd (filterx_expr_eval (haystack self) st) in
      let matches := fun n => process self h (gs_len h) n (gs_len n) in
      (forall needle : FilterXExpr,
          cached_strings self = [] ->
          needle_expr self = Some needle ->
          (forall s : bytes,
              fst (eval needle (context st1)) = Some (FxString s) ->
              fits ic s ->
              affix_eval self st
                = Returned (Some (FxBoolean (matches (folded ic s))))
                           (snd (filterx_expr_eval needle st1)))
          /\ (forall ss : list bytes,
                 fst (eval needle (context st1)) = Some (FxList (map FxString ss)) ->
                 ss <> [] ->
                 Forall (fits ic) ss ->
                 affix_eval self st
                   = Returned (Some (FxBoolean (existsb matches (map (folded ic) ss))))
                              (snd (filterx_expr_eval needle st1)))
          /\ (fst (eval needle (context st1)) = Some (FxList []) ->
              affix_eval self st = Returned None (snd (filterx_expr_eval needle st1))))
      /\ (forall ss : list bytes,
             cached_strings self <> [] ->
             Forall (fun c => str_value c = None) (cached_strings self) ->
             map fst (eval_in_sequence (map expr (cached_strings self)) (context st1))
               = map (fun s => Some (FxString s)) ss ->
             Forall (fits ic) ss ->
             exists st2,
               affix_eval self st
                 = Returned (Some (FxBoolean (existsb matches (map (folded ic) ss)))) st2))
  /\ (forall h n : bytes,
         (_function_startswith_process h (gs_len h) n (gs_len n) = true
          <-> exists t, h = n ++ t)
         /\ (_function_endswith_process h (gs_len h) n (gs_len n) = true
             <-> exists t, h = t ++ n)
         /\ (Forall (fun c => c <> NUL) h ->
             Forall (fun c => c <> NUL) n ->
             (gs_len h < 2 ^ 64)%Z ->
             (_function_includes_process h (gs_len h) n (gs_len n) = true
              <-> exists a b, h = a ++ n ++ b))).
Proof.
  split.
  - intros self st ho h0 Hhay Hrepr Hfit ic h st1 matches.
    assert (Hformat : expr_format (haystack self) ic st = Returned (Some h) st1)
      by (apply (expr_format_repr _ _ Hhay Hrepr Hfit)).
    split.
    + intros needle Hnocache Hneedle.
      assert (Hpath : forall r,
                 _expr_affix_eval_needle g_utf8_casefold repr_other self st1 = r ->
                 affix_eval self st
                 = match r with
                   | Returned (Some l) st2 =>
                       Returned (Some (filterx_boolean_new
                                         (needle_list_loop (process self) h l false))) st2
                   | Returned None st2 => Returned None st2
                   | Crashed => Crashed
                   end).
      { intros r Hr. unfold _expr_affix_eval, bind.
        fold ic. rewrite Hformat, Hnocache. cbn. rewrite Hr.
        destruct r as [[l|] st2|]; reflexivity. }
      unfold _expr_affix_eval_needle in Hpath. rewrite Hneedle in Hpath.
      unfold bind, do_eval in Hpath.
      pose proof (filterx_expr_eval_fst needle st1) as Hfst.
      destruct (filterx_expr_eval needle st1) as [res st2]. cbn in Hfst. cbn [snd].
      fold ic in Hpath.
      split; [|split].
      * intros s Hs Hfs. rewrite Hs in Hfst. subst res.
        rewrite (Hpath _ eq_refl). rewrite obj_format_string by assumption.
        unfold ret. reflexivity.
      * intros ss Hss Hne Hfss. rewrite Hss in Hfst. subst res.
        rewrite (Hpath _ eq_refl).
        replace (Z.of_nat (length (map FxString ss)) =? 0)%Z with false.
        2:{ symmetry. apply Z.eqb_neq. destruct ss; [contradiction|cbn; lia]. }
        rewrite format_needles_strings by assumption. cbn [app].
        rewrite needle_list_loop_existsb. reflexivity.
      * intros Hempty. rewrite Hempty in Hfst. subst res.
        rewrite (Hpath _ eq_refl). reflexivity.
    + intros ss Hcached Hnone Hseq Hfss.
      destruct (@cached_needles_loop_strings (process self) ic h (cached_strings self)
                  Hnone ss st1 Hseq Hfss) as [st2 Hrun].
      exists st2. unfold _expr_affix_eval, bind. fold ic. rewrite Hformat.
      replace (Z.of_nat (length (cached_strings self)) =? 0)%Z with false.
      2:{ symmetry. apply Z.eqb_neq.
          destruct (cached_strings self); [contradiction|cbn; lia]. }
      cbn. rewrite Hrun. reflexivity.
  - intros h n. split; [|split].
    + apply startswith_is_prefix.
    + apply endswith_is_suffix.
    + apply includes_is_infix.
Qed.

End FuncStrFacts.

(** *** Worked examples for the string predicates *)

(** The constructor does build the node used below. *)
Example endswith_zip_gz_constructed :
  FuncStr.outcome_value
    (FuncStr.filterx_function_endswith_new Samples.sample_casefold Samples.sample_repr_other
       Samples.endswith_zip_gz_args Samples.initial_state)
  = Some (Some Samples.endswith_zip_gz).
Proof. reflexivity. Qed.

(** [endswith("file.tar.gz", [".zip", ".gz"])] is true, through the
    cached needles; [includes("abcdef", "cd")] is true and
    [includes("abcdef", ["x", "ef"])] is true, through a needle evaluated
    at the call. *)
Lemma affix_eval_tests_needles_in_order_witness :
  (exists st2,
      FuncStr._expr_affix_eval Samples.sample_casefold Samples.sample_repr_other
        Samples.endswith_zip_gz Samples.initial_state
      = FuncStr.Returned (Some (FxBoolean true)) st2)
  /\ FuncStr.outcome_value
       (FuncStr._expr_affix_eval Samples.sample_casefold Samples.sample_repr_other
          (Samples.includes_computed (FxString (bytes_of "cd"))) Samples.initial_state)
     = Some (Some (FxBoolean true))
  /\ FuncStr.outcome_value
       (FuncStr._expr_affix_eval Samples.sample_casefold Samples.sample_repr_other
          (Samples.includes_computed
             (FxList (map FxString [bytes_of "x"; bytes_of "ef"])))
          Samples.initial_state)
     = Some (Some (FxBoolean true)).
Proof.
  destruct (affix_eval_tests_needles_in_order Samples.sample_casefold
              Samples.sample_repr_other) as [Heval _].
  split; [|split].
  - pose proof (Heval Samples.endswith_zip_gz Samples.initial_state
                  (FxString (bytes_of "file.tar.gz")) (bytes_of "file.tar.gz")
                  eq_refl eq_refl) as H.
    cbv zeta in H. destruct H as [_ Hcached]; [discriminate|].
    apply (Hcached [bytes_of ".zip"; bytes_of ".gz"]).
    + discriminate.
    + repeat constructor.
    + reflexivity.
    + repeat constructor; discriminate.
  - pose proof (Heval (Samples.includes_computed (FxString (bytes_of "cd")))
                  Samples.initial_state
                  (FxString (bytes_of "abcdef")) (bytes_of "abcdef")
                  eq_refl eq_refl) as H.
    cbv zeta in H. destruct H as [Hcall _]; [discriminate|].
    destruct (Hcall (Samples.computed_expr 2 (FxString (bytes_of "cd"))) eq_refl eq_refl)
      as [Hstring _].
    rewrite (Hstring (bytes_of "cd")); [reflexivity | reflexivity | discriminate].
  - pose proof (Heval (Samples.includes_computed
                         (FxList (map FxString [bytes_of "x"; bytes_of "ef"])))
                  Samples.initial_state
                  (FxString (bytes_of "abcdef")) (bytes_of "abcdef")
                  eq_refl eq_refl) as H.
    cbv zeta in H. destruct H as [Hcall _]; [discriminate|].
    destruct (Hcall (Samples.computed_expr 2
                       (FxList (map FxString [bytes_of "x"; bytes_of "ef"])))
                eq_refl eq_refl) as (_ & Hlist & _).
    rewrite (Hlist [bytes_of "x"; bytes_of "ef"]);
      [reflexivity | reflexivity | discriminate | repeat constructor; discriminate].
Defined.

(** C4 as stated fails on an empty needle list: the call does not
    return false, it fails (returns NULL).  And [includes] reads its
    needle as a C string: the needle "b", NUL, "z" is found in "abcdef",
    of which it is no substring. *)
Lemma empty_needle_list_fails_the_call :
  FuncStr.outcome_value
    (FuncStr._expr_affix_eval Samples.sample_casefold Samples.sample_repr_other
       (Samples.includes_computed (FxList [])) Samples.initial_state)
  = Some None
  /\ FuncStr.outcome_value
       (FuncStr._expr_affix_eval Samples.sample_casefold Samples.sample_repr_other
          (Samples.includes_computed (FxString ("b"%char :: NUL :: ["z"%char])))
          Samples.initial_state)
     = Some (Some (FxBoolean true)).
Proof. split; reflexivity. Qed.

(** [includes("abc", "abcd")] is false and [startswith] with an empty
    needle is true; a haystack of 3 bytes is folded whatever its bytes are. *)
Lemma affix_predicates_edge_cases_witness :
  FuncStr._function_includes_process (bytes_of "abc") 3%Z (bytes_of "abcd") 4%Z = false
  /\ FuncStr._function_startswith_process (bytes_of "abc") 3%Z [] 0%Z = true
  /\ FuncStr._do_casefold Samples.sample_casefold (Samples.byte_ff :: bytes_of "AB")
     = (true, Samples.byte_ff :: bytes_of "ab")
  /\ (exists st',
         FuncStr._expr_format Samples.sample_casefold Samples.sample_repr_other
           (Samples.computed_expr 1 (FxString (Samples.byte_ff :: bytes_of "AB")))
           true Samples.initial_state
         = FuncStr.Returned (Some (Samples.byte_ff :: bytes_of "ab")) st').
Proof.
  destruct (affix_predicates_edge_cases Samples.sample_casefold Samples.sample_repr_other)
    as (Hlong & Hempty & Hfold & Hformat).
  split; [|split; [|split]].
  - apply (Hlong (bytes_of "abc") (bytes_of "abcd") 3%Z 4%Z). lia.
  - apply (Hempty (bytes_of "abc")).
  - apply (Hfold (Samples.byte_ff :: bytes_of "AB")). cbv. discriminate.
  - apply (Hformat (Samples.computed_expr 1 (FxString (Samples.byte_ff :: bytes_of "AB")))
                   Samples.initial_state (Samples.byte_ff :: bytes_of "AB")).
    + reflexivity.
    + cbv. discriminate.
Defined.

(** C5 as stated fails on its last part: with [ignorecase] set, a
    haystack that is not UTF-8 does not make the call fail; it is folded
    and compared, here with the answer true. *)
Lemma non_utf8_haystack_does_not_fail_the_call :
  FuncStr.outcome_value
    (Samples.construct_and_eval
       (FuncStr.filterx_function_endswith_new Samples.sample_casefold
          Samples.sample_repr_other Samples.endswith_non_utf8_args)
       1 Samples.initial_state)
  = Some (Some [Some (FxBoolean true)]).
Proof. reflexivity. Qed.

(** C6 at [startswith($MSG, "foo")], the needle expression 2 being a
    literal: the constructor evaluates it once and stores no string, and
    each of two evaluations of the node evaluates it again, after the
    haystack expression 1. *)
Theorem literal_needle_is_evaluated_on_every_call :
  option_map (fun self => map FuncStr.str_value (FuncStr.cached_strings self))
    (match
        FuncStr.outcome_value
          (FuncStr.filterx_function_startswith_new Samples.sample_casefold
             Samples.sample_repr_other Samples.startswith_literal_args
             Samples.initial_state)
      with
      | Some node => node
      | None => None
      end)
  = Some [None]
  /\ FuncStr.outcome_value
       (Samples.construct_and_eval
          (FuncStr.filterx_function_startswith_new Samples.sample_casefold
             Samples.sample_repr_other Samples.startswith_literal_args)
          2 Samples.initial_state)
     = Some (Some [Some (FxBoolean true); Some (FxBoolean true)])
  /\ option_map evaluated
       (FuncStr.outcome_state
          (Samples.construct_and_eval
             (FuncStr.filterx_function_startswith_new Samples.sample_casefold
                Samples.sample_repr_other Samples.startswith_literal_args)
             0 Samples.initial_state))
     = Some [2]
  /\ option_map evaluated
       (FuncStr.outcome_state
          (Samples.construct_and_eval
             (FuncStr.filterx_function_startswith_new Samples.sample_casefold
                Samples.sample_repr_other Samples.startswith_literal_args)
             2 Samples.initial_state))
     = Some [2; 1; 2; 1; 2].
Proof. repeat split. Qed.

(** * Further properties of the code *)

(** ** Variable handles and generations *)

Section HandleFacts.

Import FxVariable.

Local Open Scope Z_scope.

Lemma nv_handle_mask : to_guint32 (Z.lnot FILTERX_HANDLE_FLOATING_BIT) = Z.ones 31.
Proof. reflexivity. Qed.

Lemma floating_bit_of (h : Z) :
  0 <= h < 2 ^ 32 ->
  Z.land h FILTERX_HANDLE_FLOATING_BIT = if h <? 2 ^ 31 then 0 else 2 ^ 31.
Proof.
  intros Hh. change FILTERX_HANDLE_FLOATING_BIT with (2 ^ 31).
  apply Z.bits_inj'. intros n Hn.
  rewrite Z.land_spec, Z.pow2_bits_eqb by lia.
  destruct (Z.eqb_spec 31 n) as [<-|Hne].
  - rewrite andb_true_r.
    destruct (h <? 2 ^ 31) eqn:Hlt.
    + apply Z.ltb_lt in Hlt. rewrite Z.bits_0.
      apply Z.testbit_false; [lia|]. rewrite Z.div_small by lia. reflexivity.
    + apply Z.ltb_ge in Hlt. rewrite Z.pow2_bits_true by lia.
      apply Z.testbit_true; [lia|].
      replace (h / 2 ^ 31) with 1; [reflexivity|].
      apply Z.div_unique with (r := h - 2 ^ 31); lia.
  - rewrite andb_false_r.
    destruct (h <? 2 ^ 31).
    + now rewrite Z.bits_0.
    + rewrite Z.pow2_bits_false by lia. reflexivity.
Qed.

(** X1: a 32-bit handle is its NV handle plus the floating bit: the NV
    handle is the low 31 bits, it is itself a message-tied handle, and
    [is_message_tied] is the negation of [is_floating]. *)
Theorem handle_is_nv_handle_plus_floating_bit :
  forall h : FilterXVariableHandle,
    0 <= h < 2 ^ 32 ->
    h = filterx_variable_handle_to_nv_handle h
        + (if filterx_variable_handle_is_floating h then 2 ^ 31 else 0)
    /\ 0 <= filterx_variable_handle_to_nv_handle h < 2 ^ 31
    /\ filterx_variable_handle_is_floating (filterx_variable_handle_to_nv_handle h) = false
    /\ filterx_variable_handle_is_message_tied (filterx_variable_handle_to_nv_handle h) = true
    /\ (filterx_variable_handle_is_floating h = true <-> 2 ^ 31 <= h).
Proof.
  intros h Hh.
  unfold filterx_variable_handle_is_message_tied, filterx_variable_handle_is_floating,
    filterx_variable_handle_to_nv_handle.
  rewrite nv_handle_mask, Z.land_ones by lia.
  pose proof (Z.mod_pos_bound h (2 ^ 31) ltac:(lia)) as Hmod.
  rewrite !floating_bit_of by lia.
  replace (h mod 2 ^ 31 <? 2 ^ 31) with true by (symmetry; apply Z.ltb_lt; lia).
  cbn [negb Z.eqb].
  destruct (h <? 2 ^ 31) eqn:Hlt.
  - apply Z.ltb_lt in Hlt. rewrite Z.mod_small by lia. cbn.
    repeat split; try lia; try discriminate.
  - apply Z.ltb_ge in Hlt.
    assert (Hm : h mod 2 ^ 31 = h - 2 ^ 31).
    { symmetry. apply Z.mod_unique with (q := 1); lia. }
    rewrite Hm. cbn. repeat split; try lia; try discriminate.
Qed.

Lemma handle_is_nv_handle_plus_floating_bit_witness :
  filterx_variable_handle_to_nv_handle 2147483653 = 5
  /\ filterx_variable_handle_is_floating 2147483653 = true
  /\ filterx_variable_handle_is_floating 5 = false.
Proof.
  destruct (@handle_is_nv_handle_plus_floating_bit 2147483653 ltac:(lia))
    as (H1 & _ & H3 & _ & H5).
  assert (Hf : filterx_variable_handle_is_floating 2147483653 = true) by (apply H5; lia).
  rewrite Hf in H1.
  assert (Hnv : filterx_variable_handle_to_nv_handle 2147483653 = 5) by lia.
  rewrite Hnv in H3. split; [exact Hnv | split; [exact Hf | exact H3]].
Defined.

(** X2: the generation stored by [filterx_variable_set_value] or
    [filterx_variable_set_generation] is compared modulo 2^16: the
    variable is of generation [g'] exactly when [g'] and the stored [g]
    agree modulo 65536, so a counter that has wrapped around is taken for
    the old generation. *)
Theorem generation_is_compared_modulo_65536 :
  forall (v : FilterXVariable) (o : option FilterXObject) (a : gboolean)
         (g g' : FilterXGenCounter),
    (filterx_variable_is_same_generation (filterx_variable_set_value v o a g) g' = true
     <-> g mod 2 ^ 16 = g' mod 2 ^ 16)
    /\ (filterx_variable_is_same_generation (filterx_variable_set_generation v g) g' = true
        <-> g mod 2 ^ 16 = g' mod 2 ^ 16)
    /\ filterx_variable_is_same_generation (filterx_variable_set_value v o a g) (g + 65536)
       = true.
Proof.
  intros v o a g g'.
  unfold filterx_variable_is_same_generation, filterx_variable_set_value,
    filterx_variable_set_generation, to_guint16. cbn [generation].
  repeat split; try (intros H; apply Z.eqb_eq in H; exact H);
    try (intros H; apply Z.eqb_eq; exact H).
  apply Z.eqb_eq.
  replace (g + 65536) with (g + 1 * 2 ^ 16) by lia.
  now rewrite Z.mod_add by lia.
Qed.

End HandleFacts.

(** ** More on compound expressions *)

Section CompoundOrderFacts.

Import Compound CompoundBuild.

Variable filterx_object_truthy : FilterXObject -> bool.

(** The children run so far are an initial segment of the list. *)
Lemma eval_exprs_loop_prefix (debug_flag trace_flag : bool) (l : list FilterXExpr) :
  forall r st,
    exists k : nat,
      (k <= length l)%nat
      /\ evaluated (snd (_eval_exprs_loop filterx_object_truthy debug_flag trace_flag l r st))
         = evaluated st ++ map expr_id (firstn k l).
Proof.
  induction l as [|e l IH]; intros r st; cbn [_eval_exprs_loop].
  - exists 0%nat. cbn. now rewrite app_nil_r.
  - destruct (is_drop_or_done (eval_control_modifier (context st))).
    + exists 0%nat. cbn. split; [lia | now rewrite app_nil_r].
    + destruct (_eval_expr filterx_object_truthy debug_flag trace_flag e st)
        as [[ok r'] st'] eqn:He.
      apply eval_expr_inv in He. destruct He as (_ & _ & Hev & _).
      destruct ok.
      * destruct (IH r' st') as (k & Hk & Hrun).
        exists (S k). cbn [length firstn map]. split; [lia|].
        rewrite Hrun, Hev, <- app_assoc. reflexivity.
      * exists 1%nat. cbn [length firstn map snd]. split; [lia|].
        rewrite Hev. destruct l; reflexivity.
Qed.

(** X3: whatever the children do, a compound evaluates them in
    declaration order, each at most once and without skipping any: the
    children evaluated are an initial segment of its list. *)
Theorem compound_evaluates_an_initial_segment :
  forall (debug_flag trace_flag : bool) (self : FilterXCompoundExpr) (st : EvalState),
    exists k : nat,
      (k <= length (exprs self))%nat
      /\ evaluated (snd (_eval_compound filterx_object_truthy debug_flag trace_flag self st))
         = evaluated st ++ map expr_id (firstn k (exprs self)).
Proof.
  intros debug_flag trace_flag self st.
  destruct (eval_exprs_loop_prefix debug_flag trace_flag (exprs self) None st)
    as (k & Hk & Hrun).
  exists k. split; [exact Hk|].
  unfold _eval_compound, _eval_exprs.
  destruct (_eval_exprs_loop filterx_object_truthy debug_flag trace_flag (exprs self) None st)
    as [[ok r] st'].
  cbn [snd] in Hrun.
  destruct ok; cbn; [destruct r as [o|]; [destruct (return_value_of_last_expr self)|]|
                     destruct r as [o|]]; cbn; exact Hrun.
Qed.

Lemma eval_expr_same_run (d t d' t' : bool) (e : FilterXExpr) (st st' : EvalState) :
  same_run st st' ->
  fst (_eval_expr filterx_object_truthy d t e st)
    = fst (_eval_expr filterx_object_truthy d' t' e st')
  /\ same_run (snd (_eval_expr filterx_object_truthy d t e st))
              (snd (_eval_expr filterx_object_truthy d' t' e st')).
Proof.
  intros [Hc Hv].
  destruct (_eval_expr filterx_object_truthy d t e st) as [[ok r] st1] eqn:H1.
  destruct (_eval_expr filterx_object_truthy d' t' e st') as [[ok' r'] st1'] eqn:H2.
  apply eval_expr_inv in H1, H2.
  destruct H1 as (Hr & Hc1 & Hv1 & Hok). destruct H2 as (Hr' & Hc1' & Hv1' & Hok').
  rewrite <- Hc in Hr', Hc1'. cbn. unfold same_run.
  subst r r'. rewrite Hok, Hok', Hc1, Hc1', Hv1, Hv1', Hv. repeat split.
Qed.

Lemma eval_exprs_loop_same_run (d t d' t' : bool) (l : list FilterXExpr) :
  forall r st st',
    same_run st st' ->
    fst (_eval_exprs_loop filterx_object_truthy d t l r st)
      = fst (_eval_exprs_loop filterx_object_truthy d' t' l r st')
    /\ same_run (snd (_eval_exprs_loop filterx_object_truthy d t l r st))
                (snd (_eval_exprs_loop filterx_object_truthy d' t' l r st')).
Proof.
  induction l as [|e l IH]; intros r st st' Hsame; cbn [_eval_exprs_loop].
  - split; [reflexivity | exact Hsame].
  - pose proof Hsame as [Hc _]. rewrite <- Hc.
    destruct (is_drop_or_done (eval_control_modifier (context st))).
    + split; [reflexivity | exact Hsame].
    + destruct (eval_expr_same_run d t d' t' e Hsame) as [Hfst Hsnd].
      destruct (_eval_expr filterx_object_truthy d t e st) as [[ok r1] st1].
      destruct (_eval_expr filterx_object_truthy d' t' e st') as [[ok' r1'] st1'].
      cbn in Hfst, Hsnd. inversion Hfst; subst.
      destruct ok'; [now apply IH | split; [reflexivity | exact Hsnd]].
Qed.

Lemma eval_exprs_loop_quiet (l : list FilterXExpr) :
  forall r st,
    messages (snd (_eval_exprs_loop filterx_object_truthy false false l r st)) = messages st.
Proof.
  induction l as [|e l IH]; intros r st; cbn [_eval_exprs_loop]; [reflexivity|].
  destruct (is_drop_or_done (eval_control_modifier (context st))); [reflexivity|].
  unfold _eval_expr, filterx_expr_eval.
  destruct (eval e (context st)) as [[o|] ctx']; [|reflexivity].
  rewrite andb_false_r. cbn [orb andb].
  destruct (ignore_falsy_result e || filterx_object_truthy o); [|reflexivity].
  rewrite IH. reflexivity.
Qed.

(** X4: [debug_flag] and [trace_flag] only add diagnostics: the result
    of a compound, the context it leaves and the children it evaluates are
    the same under any two settings of the flags; with both flags off no
    diagnostic is written at all. *)
Theorem compound_result_independent_of_debug_flags :
  forall (d t d' t' : bool) (self : FilterXCompoundExpr) (st : EvalState),
    fst (_eval_compound filterx_object_truthy d t self st)
      = fst (_eval_compound filterx_object_truthy d' t' self st)
    /\ context (snd (_eval_compound filterx_object_truthy d t self st))
       = context (snd (_eval_compound filterx_object_truthy d' t' self st))
    /\ evaluated (snd (_eval_compound filterx_object_truthy d t self st))
       = evaluated (snd (_eval_compound filterx_object_truthy d' t' self st))
    /\ messages (snd (_eval_compound filterx_object_truthy false false self st))
       = messages st.
Proof.
  intros d t d' t' self st.
  assert (Hsame : same_run st st) by (split; reflexivity).
  destruct (eval_exprs_loop_same_run d t d' t' (exprs self) None Hsame) as [Hfst Hsnd].
  pose proof (eval_exprs_loop_quiet (exprs self) None st) as Hquiet.
  unfold _eval_compound, _eval_exprs.
  destruct (_eval_exprs_loop filterx_object_truthy d t (exprs self) None st)
    as [[ok r] st1].
  destruct (_eval_exprs_loop filterx_object_truthy d' t' (exprs self) None st)
    as [[ok' r'] st1'].
  destruct (_eval_exprs_loop filterx_object_truthy false false (exprs self) None st)
    as [[ok0 r0] st0].
  cbn in Hfst, Hsnd, Hquiet. inversion Hfst; subst. destruct Hsnd as [Hc Hv].
  repeat split.
  - destruct ok'; cbn; [destruct r' as [o|]; [destruct (return_value_of_last_expr self)|]|
                        destruct r' as [o|]]; reflexivity.
  - destruct ok'; cbn; [destruct r' as [o|]; [destruct (return_value_of_last_expr self)|]|
                        destruct r' as [o|]]; cbn; rewrite ?Hc; reflexivity.
  - destruct ok'; cbn; [destruct r' as [o|]; [destruct (return_value_of_last_expr self)|]|
                        destruct r' as [o|]]; cbn; exact Hv.
  - destruct ok0; cbn; [destruct r0 as [o|]; [destruct (return_value_of_last_expr self)|]|
                        destruct r0 as [o|]]; cbn; exact Hquiet.
Qed.

End CompoundOrderFacts.

Section CompoundSuccessFacts.

Import Compound CompoundBuild.

Variable filterx_object_truthy : FilterXObject -> bool.
Variables debug_flag trace_flag : bool.

(** The loop on children that all count as successful. *)
Lemma eval_exprs_loop_all_succeed (l : list FilterXExpr) :
  forall r0 st,
    eval_control_modifier (context st) = FXC_NONE ->
    forallb (succeeds_and_unmodified filterx_object_truthy)
            (combine l (eval_in_sequence l (context st))) = true ->
    exists st',
      _eval_exprs_loop filterx_object_truthy debug_flag trace_flag l r0 st
        = (true, last (map fst (eval_in_sequence l (context st))) r0, st')
      /\ evaluated st' = evaluated st ++ map expr_id l.
Proof.
  induction l as [|e l IH]; intros r0 st Hctl Hall; cbn in *.
  - exists st. now rewrite app_nil_r.
  - rewrite Hctl. cbn.
    apply andb_true_iff in Hall. destruct Hall as [He Hall].
    unfold succeeds_and_unmodified in He. cbn [fst snd] in He.
    destruct (_eval_expr filterx_object_truthy debug_flag trace_flag e st)
      as [[ok r] st1] eqn:Hstep.
    apply eval_expr_inv in Hstep. destruct Hstep as (Hr & Hc & Hev & Hok).
    destruct (fst (eval e (context st))) as [o|] eqn:Hres; [|discriminate].
    apply andb_true_iff in He. destruct He as [Hs Hm].
    subst r. rewrite Hs in Hok. subst ok.
    assert (Hctl1 : eval_control_modifier (context st1) = FXC_NONE).
    { rewrite Hc. destruct (eval_control_modifier (snd (eval e (context st))));
        [reflexivity | discriminate | discriminate]. }
    rewrite <- Hc in Hall.
    destruct (IH (Some o) st1 Hctl1 Hall) as (st' & Hloop & Hev').
    exists st'. rewrite Hloop, Hev', Hev, <- app_assoc, <- Hc. split; [|reflexivity].
    f_equal. f_equal.
    destruct (map fst (eval_in_sequence l (context st1)));
      [reflexivity | now rewrite !last_cons_shift].
Qed.

(** X5: a child with [ignore_falsy_result] set does not stop the
    sequence when it yields a falsy object: when every child yields an
    object that is truthy or ignored and none leaves a control modifier,
    all children are evaluated and the compound returns the last result
    (statement expression) or the boolean [true] (block), the last result
    being returned even when it is falsy. *)
Theorem compound_ignores_falsy_results_on_request :
  forall (self : FilterXCompoundExpr) (st : EvalState),
    eval_control_modifier (context st) = FXC_NONE ->
    forallb (succeeds_and_unmodified filterx_object_truthy)
            (combine (exprs self) (eval_in_sequence (exprs self) (context st))) = true ->
    fst (_eval_compound filterx_object_truthy debug_flag trace_flag self st)
      = Some (match last (map fst (eval_in_sequence (exprs self) (context st))) None with
              | Some r =>
                  if return_value_of_last_expr self then r else filterx_boolean_new true
              | None => filterx_boolean_new true
              end)
    /\ evaluated (snd (_eval_compound filterx_object_truthy debug_flag trace_flag self st))
       = evaluated st ++ map expr_id (exprs self).
Proof.
  intros self st Hctl Hall.
  destruct (eval_exprs_loop_all_succeed (exprs self) None st Hctl Hall)
    as (st' & Hloop & Hev).
  unfold _eval_compound, _eval_exprs. rewrite Hloop. cbn.
  destruct (last (map fst (eval_in_sequence (exprs self) (context st))) None) as [r|].
  - destruct (return_value_of_last_expr self); cbn; rewrite Hev; auto.
  - cbn. rewrite Hev. auto.
Qed.

(** X6: [filterx_compound_expr_add_list] appends the expressions in
    their order; [filterx_compound_expr_new_va] takes its arguments up to
    the first NULL and nothing after it; and a compound fresh from
    [filterx_compound_expr_new] evaluates to the boolean [true] without
    touching the state. *)
Theorem compound_builders_keep_order :
  (forall (s : FilterXCompoundExpr) (l : list FilterXExpr),
      filterx_compound_expr_add_list s l
      = {| super_id := super_id s;
           return_value_of_last_expr := return_value_of_last_expr s;
           exprs := exprs s ++ l |})
  /\ (forall (id : nat) (r : bool) (e : FilterXExpr) (l : list FilterXExpr)
             (after : list (option FilterXExpr)),
         filterx_compound_expr_new_va id r (Some e) (map Some l ++ None :: after)
         = Some (filterx_compound_expr_add_list (filterx_compound_expr_new id r) (e :: l)))
  /\ (forall (id : nat) (r : bool) (after : list (option FilterXExpr)),
         filterx_compound_expr_new_va id r None after
         = Some (filterx_compound_expr_new id r))
  /\ (forall (id : nat) (r : bool) (st : EvalState),
         _eval_compound filterx_object_truthy debug_flag trace_flag
           (filterx_compound_expr_new id r) st
         = (Some (filterx_boolean_new true), st)).
Proof.
  assert (Hadd : forall (l : list FilterXExpr) (s : FilterXCompoundExpr),
             filterx_compound_expr_add_list s l
             = {| super_id := super_id s;
                  return_value_of_last_expr := return_value_of_last_expr s;
                  exprs := exprs s ++ l |}).
  { induction l as [|e l IH]; intros s; cbn.
    - rewrite app_nil_r. destruct s; reflexivity.
    - rewrite IH. cbn. rewrite <- app_assoc. reflexivity. }
  assert (Hva : forall (l : list FilterXExpr) (s : FilterXCompoundExpr)
                       (after : list (option FilterXExpr)),
             va_loop s (map Some l ++ None :: after)
             = Some (filterx_compound_expr_add_list s l)).
  { induction l as [|e l IH]; intros s after; cbn; [reflexivity | apply IH]. }
  split; [|split; [|split]].
  - intros s l. apply Hadd.
  - intros id r e l after. unfold filterx_compound_expr_new_va.
    apply (Hva (e :: l)).
  - reflexivity.
  - reflexivity.
Qed.

End CompoundSuccessFacts.

(** The statement expression [{ 1; false }] whose last statement has
    [ignore_falsy_result] set runs to its end and yields [false]. *)
Lemma compound_ignores_falsy_results_on_request_witness :
  fst (Compound._eval_compound Samples.sample_truthy false false
         (Compound.mkCompound 100 true
            [Samples.literal_expr 1 (FxInteger 1);
             mkExpr 2 (fun ctx => (Some (FxBoolean false), ctx)) true false SHAPE_OTHER])
         Samples.initial_state)
    = Some (FxBoolean false)
  /\ evaluated
       (snd (Compound._eval_compound Samples.sample_truthy false false
               (Compound.mkCompound 100 true
                  [Samples.literal_expr 1 (FxInteger 1);
                   mkExpr 2 (fun ctx => (Some (FxBoolean false), ctx)) true false
                          SHAPE_OTHER])
               Samples.initial_state))
     = [1; 2].
Proof.
  apply (compound_ignores_falsy_results_on_request Samples.sample_truthy false false
           (Compound.mkCompound 100 true
              [Samples.literal_expr 1 (FxInteger 1);
               mkExpr 2 (fun ctx => (Some (FxBoolean false), ctx)) true false SHAPE_OTHER])
           Samples.initial_state); reflexivity.
Defined.

(** ** Successful initialisation and its undoing *)

Section LifecycleRoundTrips.

Import Lifecycle LifecycleOps.

Lemma set_inited_twice (n : Node) :
  inited n = false -> set_inited (set_inited n true) false = n.
Proof. destruct n; cbn; intros ->; reflexivity. Qed.

Lemma compound_init_loop_outcome (todo : list Node) :
  forall done log,
    fst (fst (compound_init_loop done todo log)) = forallb init_succeeds todo.
Proof.
  induction todo as [|e todo IH]; intros done log; cbn; [reflexivity|].
  unfold init_node. destruct (init_succeeds e); cbn.
  - apply IH.
  - destruct (compound_deinit_loop done (log ++ [EvInit (node_id e)])). reflexivity.
Qed.

Lemma compound_init_loop_success (todo : list Node) :
  Forall (fun n => init_succeeds n = true) todo ->
  forall done log,
    compound_init_loop done todo log
      = (true, done ++ map (fun n => set_inited n true) todo,
         log ++ map (fun n => EvInit (node_id n)) todo).
Proof.
  induction 1 as [|e todo He _ IH]; intros done log; cbn.
  - now rewrite !app_nil_r.
  - unfold init_node. rewrite He. rewrite IH, <- !app_assoc. reflexivity.
Qed.

(** X7: [init] of a compound succeeds exactly when [init] of every child
    does.  When it does, every child is initialised in declaration order
    and the counter fx_compound_evals_total is registered last; [deinit]
    then unregisters that counter first, deinits the children in the same
    order and leaves them as they were before [init]. *)
Theorem compound_init_then_deinit_restores :
  (forall (exprs : list Node) (log : list Event),
      fst (fst (compound_init exprs log)) = forallb init_succeeds exprs)
  /\ (forall (exprs : list Node) (log : list Event),
         Forall (fun n => init_succeeds n = true) exprs ->
         Forall (fun n => inited n = false) exprs ->
         compound_init exprs log
           = (true, map (fun n => set_inited n true) exprs,
              log ++ map (fun n => EvInit (node_id n)) exprs
                  ++ [EvRegisterCounter "fx_compound_evals_total"])
         /\ compound_deinit (map (fun n => set_inited n true) exprs)
              (snd (compound_init exprs log))
            = (exprs,
               log ++ map (fun n => EvInit (node_id n)) exprs
                   ++ [EvRegisterCounter "fx_compound_evals_total";
                       EvUnregisterCounter "fx_compound_evals_total"]
                   ++ map (fun n => EvDeinit (node_id n)) exprs)).
Proof.
  split.
  - intros exprs log. unfold compound_init.
    pose proof (compound_init_loop_outcome exprs [] log) as H.
    destruct (compound_init_loop [] exprs log) as [[ok exprs'] log1]. cbn in H.
    rewrite <- H. destruct ok; reflexivity.
  - intros exprs log Hok Hun.
    assert (Hinit : compound_init exprs log
                    = (true, map (fun n => set_inited n true) exprs,
                       log ++ map (fun n => EvInit (node_id n)) exprs
                           ++ [EvRegisterCounter "fx_compound_evals_total"])).
    { unfold compound_init. rewrite (compound_init_loop_success Hok [] log).
      cbn. rewrite <- app_assoc. reflexivity. }
    split; [exact Hinit|].
    rewrite Hinit. cbn [snd]. unfold compound_deinit.
    rewrite compound_deinit_loop_spec, !map_map. cbn [node_id set_inited].
    f_equal.
    + clear Hinit Hok. induction Hun as [|n l Hn _ IH]; cbn; [reflexivity|].
      rewrite IH, (set_inited_twice _ Hn). reflexivity.
    + rewrite <- !app_assoc. reflexivity.
Qed.

(** X8: [init] of a binary operator succeeds exactly when both operands
    initialise, and of a unary operator exactly when its operand does.
    When the left operand fails the right one is not touched, and nothing
    is registered.  After a successful [init], [deinit] unregisters the
    counter and returns the operands to their state before [init]. *)
Theorem operator_init_outcomes :
  (forall (self : FilterXBinaryOp) (log : list Event),
      fst (fst (filterx_binary_op_init_method self log))
      = init_succeeds (lhs self) && init_succeeds (rhs self))
  /\ (forall (self : FilterXBinaryOp) (log : list Event),
         init_succeeds (lhs self) = false ->
         filterx_binary_op_init_method self log
         = (false, self, log ++ [EvInit (node_id (lhs self))]))
  /\ (forall (self : FilterXBinaryOp) (log : list Event),
         init_succeeds (lhs self) = true -> init_succeeds (rhs self) = true ->
         inited (lhs self) = false -> inited (rhs self) = false ->
         filterx_binary_op_deinit_method
           (snd (fst (filterx_binary_op_init_method self log)))
           (snd (filterx_binary_op_init_method self log))
         = (self,
            log ++ [EvInit (node_id (lhs self)); EvInit (node_id (rhs self));
                    EvRegisterCounter "fx_op_evals_total";
                    EvUnregisterCounter "fx_op_evals_total";
                    EvDeinit (node_id (lhs self)); EvDeinit (node_id (rhs self))]))
  /\ (forall (self : FilterXUnaryOp) (log : list Event),
         fst (fst (filterx_unary_op_init_method self log)) = init_succeeds (operand self))
  /\ (forall (self : FilterXUnaryOp) (log : list Event),
         init_succeeds (operand self) = false ->
         filterx_unary_op_init_method self log
         = (false, self, log ++ [EvInit (node_id (operand self))]))
  /\ (forall (self : FilterXUnaryOp) (log : list Event),
         init_succeeds (operand self) = true -> inited (operand self) = false ->
         filterx_unary_op_deinit_method
           (snd (fst (filterx_unary_op_init_method self log)))
           (snd (filterx_unary_op_init_method self log))
         = (self,
            log ++ [EvInit (node_id (operand self));
                    EvRegisterCounter "fx_op_evals_total";
                    EvUnregisterCounter "fx_op_evals_total";
                    EvDeinit (node_id (operand self))])).
Proof.
  repeat apply conj.
  - intros [l r] log. unfold filterx_binary_op_init_method, init_node. cbn.
    destruct (init_succeeds l); cbn; [destruct (init_succeeds r)|]; reflexivity.
  - intros [l r] log Hl. unfold filterx_binary_op_init_method, init_node. cbn in *.
    rewrite Hl. reflexivity.
  - intros [l r] log Hl Hr Hul Hur.
    unfold filterx_binary_op_init_method, filterx_binary_op_deinit_method,
      init_node, deinit_node. cbn in *.
    rewrite Hl, Hr. cbn.
    rewrite (set_inited_twice _ Hul), (set_inited_twice _ Hur).
    rewrite <- !app_assoc. reflexivity.
  - intros [op] log. unfold filterx_unary_op_init_method, init_node. cbn.
    destruct (init_succeeds op); reflexivity.
  - intros [op] log Hop. unfold filterx_unary_op_init_method, init_node. cbn in *.
    rewrite Hop. reflexivity.
  - intros [op] log Hop Hun.
    unfold filterx_unary_op_init_method, filterx_unary_op_deinit_method,
      init_node, deinit_node. cbn in *.
    rewrite Hop. cbn. rewrite (set_inited_twice _ Hun).
    rewrite <- !app_assoc. reflexivity.
Qed.

Lemma elem_init_outcome (e : FilterXLiteralGeneratorElem) (log : list Event) :
  fst (fst (_literal_generator_elem_init e log)) = elem_init_succeeds e.
Proof.
  unfold _literal_generator_elem_init, elem_init_succeeds, elem_nodes, key_nodes,
    filterx_expr_init, filterx_expr_deinit, init_node.
  destruct (key e) as [k|]; cbn; rewrite andb_true_r.
  - destruct (init_succeeds k); cbn; [destruct (init_succeeds (value e))|]; reflexivity.
  - destruct (init_succeeds (value e)); reflexivity.
Qed.

Lemma generator_init_loop_outcome (todo : list FilterXLiteralGeneratorElem) :
  forall done log,
    fst (fst (generator_init_loop done todo log)) = forallb elem_init_succeeds todo.
Proof.
  induction todo as [|e todo IH]; intros done log; cbn; [reflexivity|].
  pose proof (elem_init_outcome e log) as He.
  destruct (_literal_generator_elem_init e log) as [[ok e'] log1]. cbn in He.
  rewrite <- He. destruct ok; cbn.
  - apply IH.
  - destruct (generator_deinit_loop done log1). reflexivity.
Qed.

Lemma generator_init_loop_success (todo : list FilterXLiteralGeneratorElem) :
  Forall (fun e => elem_init_succeeds e = true) todo ->
  forall done log,
    generator_init_loop done todo log
      = (true, done ++ map elem_after_init todo,
         log ++ map (fun n => EvInit (node_id n)) (flat_map elem_nodes todo)).
Proof.
  induction 1 as [|e todo He _ IH]; intros done log; cbn.
  - now rewrite !app_nil_r.
  - rewrite elem_init_success by assumption.
    rewrite IH, map_app, <- !app_assoc. reflexivity.
Qed.

(** X9: the children of a literal generator all initialise exactly when
    every element's key and value do; the generator's [init] then
    returns what [filterx_generator_init_method] returns, with every key
    and value initialised in declaration order, and a later [deinit]
    returns the elements to their state before [init]. *)
Theorem literal_generator_init_then_deinit_restores :
  (forall (init_method : bool) (elements : list FilterXLiteralGeneratorElem)
          (log : list Event),
      fst (fst (_literal_generator_init init_method elements log))
      = forallb elem_init_succeeds elements && init_method)
  /\ (forall (init_method : bool) (elements : list FilterXLiteralGeneratorElem)
             (log : list Event),
         Forall (fun e => elem_init_succeeds e = true) elements ->
         Forall (fun e => Forall (fun n => inited n = false) (elem_nodes e)) elements ->
         _literal_generator_init init_method elements log
           = (init_method, map elem_after_init elements,
              log ++ map (fun n => EvInit (node_id n)) (flat_map elem_nodes elements))
         /\ _literal_generator_deinit (map elem_after_init elements)
              (snd (_literal_generator_init init_method elements log))
            = (elements,
               log ++ map (fun n => EvInit (node_id n)) (flat_map elem_nodes elements)
                   ++ map (fun n => EvDeinit (node_id n)) (flat_map elem_nodes elements))).
Proof.
  split.
  - intros g elements log. unfold _literal_generator_init.
    pose proof (generator_init_loop_outcome elements [] log) as H.
    destruct (generator_init_loop [] elements log) as [[ok elements'] log1]. cbn in H.
    rewrite <- H. destruct ok; reflexivity.
  - intros g elements log Hok Hun.
    assert (Hinit : _literal_generator_init g elements log
                    = (g, map elem_after_init elements,
                       log ++ map (fun n => EvInit (node_id n))
                                  (flat_map elem_nodes elements))).
    { unfold _literal_generator_init.
      rewrite (generator_init_loop_success Hok [] log). reflexivity. }
    split; [exact Hinit|].
    rewrite Hinit. cbn [snd]. unfold _literal_generator_deinit.
    rewrite generator_deinit_loop_spec by assumption.
    rewrite <- app_assoc. reflexivity.
Qed.

End LifecycleRoundTrips.

(** A compound of two children; the operators [a + b] and [not a]; the
    dict literal with one keyed element. *)
Lemma compound_init_then_deinit_restores_witness :
  Lifecycle.compound_deinit
    [Lifecycle.mkNode 1 true true; Lifecycle.mkNode 2 true true]
    (snd (Lifecycle.compound_init
            [Lifecycle.mkNode 1 true false; Lifecycle.mkNode 2 true false] []))
  = ([Lifecycle.mkNode 1 true false; Lifecycle.mkNode 2 true false],
     [Lifecycle.EvInit 1; Lifecycle.EvInit 2;
      Lifecycle.EvRegisterCounter "fx_compound_evals_total";
      Lifecycle.EvUnregisterCounter "fx_compound_evals_total";
      Lifecycle.EvDeinit 1; Lifecycle.EvDeinit 2]).
Proof.
  apply (proj2 compound_init_then_deinit_restores
           [Lifecycle.mkNode 1 true false; Lifecycle.mkNode 2 true false] []);
    repeat constructor.
Defined.

Lemma operator_init_outcomes_witness :
  Lifecycle.filterx_binary_op_init_method
    (Lifecycle.mkBinaryOp (Lifecycle.mkNode 1 false false) (Lifecycle.mkNode 2 true false))
    []
  = (false,
     Lifecycle.mkBinaryOp (Lifecycle.mkNode 1 false false) (Lifecycle.mkNode 2 true false),
     [Lifecycle.EvInit 1])
  /\ LifecycleOps.filterx_unary_op_init_method
       (LifecycleOps.mkUnaryOp (Lifecycle.mkNode 1 false false)) []
     = (false, LifecycleOps.mkUnaryOp (Lifecycle.mkNode 1 false false),
        [Lifecycle.EvInit 1]).
Proof.
  destruct operator_init_outcomes as (_ & Hb & _ & _ & Hu & _).
  split.
  - apply (Hb (Lifecycle.mkBinaryOp (Lifecycle.mkNode 1 false false)
                                    (Lifecycle.mkNode 2 true false)) []).
    reflexivity.
  - apply (Hu (LifecycleOps.mkUnaryOp (Lifecycle.mkNode 1 false false)) []).
    reflexivity.
Defined.

Lemma literal_generator_init_then_deinit_restores_witness :
  Lifecycle._literal_generator_init true
    [Lifecycle.mkElem (Some (Lifecycle.mkNode 1 true false))
                      (Lifecycle.mkNode 2 true false) false] []
  = (true,
     [Lifecycle.mkElem (Some (Lifecycle.mkNode 1 true true))
                       (Lifecycle.mkNode 2 true true) false],
     [Lifecycle.EvInit 1; Lifecycle.EvInit 2]).
Proof.
  apply (proj2 literal_generator_init_then_deinit_restores true
           [Lifecycle.mkElem (Some (Lifecycle.mkNode 1 true false))
                             (Lifecycle.mkNode 2 true false) false] []);
    repeat constructor.
Defined.

(** ** Filling a container from literal elements *)

Section GeneratorEvalFacts.

Import GeneratorEval.

Variable filterx_object_clone : FilterXObject -> FilterXObject.
Variable filterx_object_set_subscript :
  FilterXObject -> option FilterXObject -> FilterXObject -> bool * FilterXObject.
Variable filterx_object_create_dict : FilterXObject -> option FilterXObject.

#[local] Abbreviation eval_elements :=
  (_eval_elements filterx_object_clone filterx_object_set_subscript).

Lemma filterx_expr_eval_evaluated (e : FilterXExpr) (st : EvalState) :
  evaluated (snd (filterx_expr_eval e st)) = evaluated st ++ [expr_id e].
Proof.
  unfold filterx_expr_eval. destruct (eval e (context st)); reflexivity.
Qed.

(** Elements that were all stored are followed by the rest of the
    list. *)
Lemma eval_elements_app (pre rest : list FilterXLiteralGeneratorElem) :
  forall fillable st f1 st1,
    eval_elements fillable pre st = (true, f1, st1) ->
    eval_elements fillable (pre ++ rest) st = eval_elements f1 rest st1.
Proof.
  induction pre as [|e pre IH]; intros fillable st f1 st1 Hrun; cbn in *.
  - inversion Hrun; subst. reflexivity.
  - destruct (key e) as [kexpr|].
    + destruct (filterx_expr_eval kexpr st) as [[kobj|] sk]; [|discriminate].
      destruct (filterx_expr_eval (value e) sk) as [[vobj|] sv]; [|discriminate].
      destruct (filterx_object_set_subscript fillable (Some kobj)
                  (if cloneable e then filterx_object_clone vobj else vobj))
        as [success f']. destruct success; [|discriminate].
      cbn in *. now apply IH.
    + destruct (filterx_expr_eval (value e) st) as [[vobj|] sv]; [|discriminate].
      destruct (filterx_object_set_subscript fillable None
                  (if cloneable e then filterx_object_clone vobj else vobj))
        as [success f']. destruct success; [|discriminate].
      cbn in *. now apply IH.
Qed.

(** X10: filling stops at the first element that cannot be evaluated,
    and what was stored before stays in the container.  When the key of
    an element evaluates to NULL its value is not evaluated; when the
    value evaluates to NULL nothing is stored for the element; in both
    cases no later element is evaluated, the function returns FALSE and
    the container holds the elements before the failing one. *)
Theorem generator_fill_stops_at_first_failure :
  forall (fillable : FilterXObject) (pre : list FilterXLiteralGeneratorElem)
         (ek : FilterXLiteralGeneratorElem) (post : list FilterXLiteralGeneratorElem)
         (st : EvalState) (f1 : FilterXObject) (st1 : EvalState),
    eval_elements fillable pre st = (true, f1, st1) ->
    (forall kexpr : FilterXExpr,
        key ek = Some kexpr ->
        fst (eval kexpr (context st1)) = None ->
        eval_elements fillable (pre ++ ek :: post) st
        = (false, f1, snd (filterx_expr_eval kexpr st1)))
    /\ (forall (kexpr : FilterXExpr) (kobj : FilterXObject),
           key ek = Some kexpr ->
           fst (eval kexpr (context st1)) = Some kobj ->
           fst (eval (value ek) (snd (eval kexpr (context st1)))) = None ->
           eval_elements fillable (pre ++ ek :: post) st
           = (false, f1,
              snd (filterx_expr_eval (value ek) (snd (filterx_expr_eval kexpr st1)))))
    /\ (key ek = None ->
        fst (eval (value ek) (context st1)) = None ->
        eval_elements fillable (pre ++ ek :: post) st
        = (false, f1, snd (filterx_expr_eval (value ek) st1))).
Proof.
  intros fillable pre ek post st f1 st1 Hpre.
  rewrite (eval_elements_app pre (ek :: post) _ _ Hpre). cbn [_eval_elements].
  split; [|split].
  - intros kexpr Hkey Hnull. rewrite Hkey.
    rewrite <- filterx_expr_eval_fst in Hnull.
    destruct (filterx_expr_eval kexpr st1) as [k sk]. cbn in *. subst k. reflexivity.
  - intros kexpr kobj Hkey Hsome Hnull. rewrite Hkey.
    rewrite <- filterx_expr_eval_context, <- filterx_expr_eval_fst in Hnull.
    rewrite <- filterx_expr_eval_fst in Hsome.
    destruct (filterx_expr_eval kexpr st1) as [k sk]. cbn in *. subst k.
    destruct (filterx_expr_eval (value ek) sk) as [v sv]. cbn in *. subst v. reflexivity.
  - intros Hkey Hnull. rewrite Hkey.
    rewrite <- filterx_expr_eval_fst in Hnull.
    destruct (filterx_expr_eval (value ek) st1) as [v sv]. cbn in *. subst v. reflexivity.
Qed.

(** X11: the expressions of the elements are evaluated in declaration
    order, the key of an element before its value, each at most once:
    what [_eval_elements] evaluates is an initial segment of the keys and
    values in that order. *)
Theorem generator_evaluates_keys_and_values_in_order :
  forall (elements : list FilterXLiteralGeneratorElem) (fillable : FilterXObject)
         (st : EvalState),
    exists k : nat,
      (k <= length (flat_map elem_exprs elements))%nat
      /\ evaluated (snd (eval_elements fillable elements st))
         = evaluated st ++ map expr_id (firstn k (flat_map elem_exprs elements)).
Proof.
  induction elements as [|e elements IH]; intros fillable st.
  - exists 0%nat. cbn. split; [lia | now rewrite app_nil_r].
  - cbn [_eval_elements flat_map]. unfold elem_exprs at 1 3.
    destruct (key e) as [kexpr|].
    + pose proof (filterx_expr_eval_evaluated kexpr st) as Hk.
      destruct (filterx_expr_eval kexpr st) as [[kobj|] sk]; cbn [snd] in Hk.
      * pose proof (filterx_expr_eval_evaluated (value e) sk) as Hv.
        destruct (filterx_expr_eval (value e) sk) as [[vobj|] sv]; cbn [snd] in Hv.
        -- destruct (filterx_object_set_subscript fillable (Some kobj)
                       (if cloneable e then filterx_object_clone vobj else vobj))
             as [success f'].
           destruct success; cbn [negb].
           ++ destruct (IH f' sv) as (k & Hle & Hrun).
              exists (S (S k)). simpl. split; [lia|].
              rewrite Hrun, Hv, Hk, <- !app_assoc. reflexivity.
           ++ exists 2%nat. simpl. split; [lia|].
              rewrite Hv, Hk, <- !app_assoc. reflexivity.
        -- exists 2%nat. simpl. split; [lia|].
           rewrite Hv, Hk, <- !app_assoc. reflexivity.
      * exists 1%nat. simpl. split; [lia|].
        rewrite Hk. reflexivity.
    + pose proof (filterx_expr_eval_evaluated (value e) st) as Hv.
      destruct (filterx_expr_eval (value e) st) as [[vobj|] sv]; cbn [snd] in Hv.
      * destruct (filterx_object_set_subscript fillable None
                    (if cloneable e then filterx_object_clone vobj else vobj))
          as [success f'].
        destruct success; cbn [negb].
        -- destruct (IH f' sv) as (k & Hle & Hrun).
           exists (S k). simpl. split; [lia|].
           rewrite Hrun, Hv, <- !app_assoc. reflexivity.
        -- exists 1%nat. simpl. split; [lia|].
           rewrite Hv. reflexivity.
      * exists 1%nat. simpl. split; [lia|].
        rewrite Hv. reflexivity.
Qed.

End GeneratorEvalFacts.

(** The list literal ["a", <failing>, "c"]: "a" is stored, the third
    element is never evaluated. *)
Lemma generator_fill_stops_at_first_failure_witness :
  (let res :=
     GeneratorEval._eval_elements MoreSamples.sample_clone MoreSamples.sample_set_subscript
       (FxList []) MoreSamples.list_with_failing_element Samples.initial_state in
   fst res = (false, FxList [FxString (bytes_of "a")])
   /\ evaluated (snd res) = [1; 2]).
Proof.
  destruct (@generator_fill_stops_at_first_failure
              MoreSamples.sample_clone MoreSamples.sample_set_subscript
              (FxList [])
              [GeneratorEval.mkElem None
                 (Samples.literal_expr 1 (FxString (bytes_of "a"))) false]
              (GeneratorEval.mkElem None (Samples.null_expr 2) false)
              [GeneratorEval.mkElem None
                 (Samples.literal_expr 3 (FxString (bytes_of "c"))) false]
              Samples.initial_state _ _ eq_refl) as (_ & _ & H).
  cbv zeta. unfold MoreSamples.list_with_failing_element.
  change (GeneratorEval.mkElem None (Samples.literal_expr 1 (FxString (bytes_of "a"))) false
          :: GeneratorEval.mkElem None (Samples.null_expr 2) false
          :: [GeneratorEval.mkElem None
                (Samples.literal_expr 3 (FxString (bytes_of "c"))) false])
    with ([GeneratorEval.mkElem None
             (Samples.literal_expr 1 (FxString (bytes_of "a"))) false]
          ++ GeneratorEval.mkElem None (Samples.null_expr 2) false
          :: [GeneratorEval.mkElem None
                (Samples.literal_expr 3 (FxString (bytes_of "c"))) false]).
  rewrite (H eq_refl eq_refl). split; reflexivity.
Defined.

(** ** More on the string predicates *)

Section AffixFacts.

Import FuncStr.

Variable g_utf8_casefold : bytes -> bytes.
Variable repr_other : FilterXObject -> option bytes.

#[local] Abbreviation affix_eval := (_expr_affix_eval g_utf8_casefold repr_other).
#[local] Abbreviation affix_new := (_function_affix_new g_utf8_casefold repr_other).
#[local] Abbreviation folded := (FuncStr.folded g_utf8_casefold).

Lemma is_prefix_of_c_string (h : bytes) : is_prefix_of (c_string h) h = true.
Proof.
  induction h as [|c h IH]; cbn; [reflexivity|].
  destruct (byte_eqb c NUL) eqn:E; cbn; [reflexivity|].
  unfold byte_eqb at 1. rewrite Ascii.eqb_refl. exact IH.
Qed.

Lemma is_prefix_of_refl (n : bytes) : is_prefix_of n n = true.
Proof. apply is_prefix_of_spec. exists []. symmetry. apply app_nil_r. Qed.

Lemma length_c_string (h : bytes) : (length (c_string h) <= length h)%nat.
Proof.
  induction h as [|c h IH]; cbn; [lia|].
  destruct (byte_eqb c NUL); cbn; lia.
Qed.

(** The C string of a buffer is found at the start of the buffer, and
    of itself. *)
Lemma strstr_scan_c_string (h : bytes) :
  c_string h <> [] ->
  strstr_scan (c_string h) h = true /\ strstr_scan (c_string h) (c_string h) = true.
Proof.
  intros Hne. pose proof (length_c_string h) as Hlen.
  pose proof (is_prefix_of_c_string h) as Hp.
  pose proof (is_prefix_of_refl (c_string h)) as Hr.
  destruct h as [|c h]; [contradiction Hne; reflexivity|].
  cbn [c_string] in *.
  destruct (byte_eqb c NUL) eqn:E; [contradiction Hne; reflexivity|].
  split.
  - cbn [strstr_scan]. rewrite E, Hp.
    replace (length (c :: h) <? length (c :: c_string h))%nat with false
      by (symmetry; apply Nat.ltb_ge; exact Hlen).
    reflexivity.
  - cbn [strstr_scan]. rewrite E, Hr, Nat.ltb_irrefl. reflexivity.
Qed.

(** X12: every string starts with itself, ends with itself and includes
    itself, whatever bytes it holds (NUL bytes too). *)
Theorem affix_predicates_are_reflexive :
  forall h : bytes,
    (gs_len h < 2 ^ 64)%Z ->
    _function_startswith_process h (gs_len h) h (gs_len h) = true
    /\ _function_endswith_process h (gs_len h) h (gs_len h) = true
    /\ _function_includes_process h (gs_len h) h (gs_len h) = true.
Proof.
  intros h Hfit.
  unfold _function_startswith_process, _function_endswith_process,
    _function_includes_process.
  rewrite Z.ltb_irrefl, !memcmp_eq_needle, Z.sub_diag. cbn [Z.to_nat skipn].
  rewrite firstn_all, bytes_eqb_refl. split; [reflexivity|]. split; [reflexivity|].
  unfold g_strstr_len, strstr.
  destruct (c_string h) as [|x n] eqn:Hc.
  - cbn. destruct (to_gssize (gs_len h) <? 0)%Z; reflexivity.
  - assert (Hne : c_string h <> []) by (rewrite Hc; discriminate).
    destruct (strstr_scan_c_string h Hne) as [Hin Hself]. rewrite Hc in Hin, Hself.
    destruct (to_gssize (gs_len h) <? 0)%Z eqn:Hneg; [exact Hself|].
    replace (gs_len (x :: n) =? 0)%Z with false
      by (symmetry; apply Z.eqb_neq; unfold gs_len; cbn [length]; lia).
    assert (Hsame : to_gssize (gs_len h) = gs_len h).
    { unfold to_gssize in *.
      rewrite Z.mod_small in * by (unfold gs_len in *; lia).
      destruct (gs_len h <? 2 ^ 63)%Z; [reflexivity|].
      apply Z.ltb_ge in Hneg. lia. }
    rewrite Hsame.
    pose proof (length_c_string h) as Hlen. rewrite Hc in Hlen.
    replace (gs_len h <? gs_len (x :: n))%Z with false
      by (symmetry; apply Z.ltb_ge; unfold gs_len; lia).
    rewrite gs_len_to_nat, firstn_all. exact Hin.
Qed.

(** X13: on strings without NUL bytes, a haystack that starts with, or
    ends with, a needle also includes it. *)
Theorem startswith_or_endswith_implies_includes :
  forall h n : bytes,
    Forall (fun c => c <> NUL) h ->
    Forall (fun c => c <> NUL) n ->
    (gs_len h < 2 ^ 64)%Z ->
    _function_startswith_process h (gs_len h) n (gs_len n) = true
    \/ _function_endswith_process h (gs_len h) n (gs_len n) = true ->
    _function_includes_process h (gs_len h) n (gs_len n) = true.
Proof.
  intros h n Hh Hn Hfit [Hs|He]; apply includes_is_infix; try assumption.
  - apply startswith_is_prefix in Hs. destruct Hs as [t ->]. now exists [], t.
  - apply endswith_is_suffix in He. destruct He as [t ->].
    exists t, []. now rewrite app_nil_r.
Qed.

End AffixFacts.

(** "Hello" includes itself; "file.tar.gz" ends with ".gz" and so
    includes it. *)
Lemma affix_predicates_are_reflexive_witness :
  FuncStr._function_includes_process (bytes_of "Hello") 5%Z (bytes_of "Hello") 5%Z = true.
Proof.
  apply (@affix_predicates_are_reflexive (bytes_of "Hello")). cbv. reflexivity.
Defined.

Lemma startswith_or_endswith_implies_includes_witness :
  FuncStr._function_includes_process (bytes_of "file.tar.gz") 11%Z (bytes_of ".gz") 3%Z
  = true.
Proof.
  apply (@startswith_or_endswith_implies_includes (bytes_of "file.tar.gz") (bytes_of ".gz")).
  - repeat constructor; discriminate.
  - repeat constructor; discriminate.
  - cbv. reflexivity.
  - right. reflexivity.
Defined.

(** ** Construction and evaluation of the string predicates *)

Section AffixNodeFacts.

Import FuncStr.

Variable g_utf8_casefold : bytes -> bytes.
Variable repr_other : FilterXObject -> option bytes.

#[local] Abbreviation expr_format := (_expr_format g_utf8_casefold repr_other).
#[local] Abbreviation affix_eval := (_expr_affix_eval g_utf8_casefold repr_other).
#[local] Abbreviation affix_new := (_function_affix_new g_utf8_casefold repr_other).
#[local] Abbreviation folded := (FuncStr.folded g_utf8_casefold).

Lemma cache_needles_exprs (values : list FilterXExpr) (ic : bool) :
  forall cached st cached' st',
    cache_needles g_utf8_casefold repr_other values ic cached st
      = Returned (true, cached') st' ->
    map expr cached' = map expr cached ++ values.
Proof.
  induction values as [|v values IH]; intros cached st cached' st'; cbn.
  - unfold ret. intros H. inversion H; subst. now rewrite app_nil_r.
  - unfold bind at 1.
    destruct (_string_with_cache_new _ _ v ic st) as [[c|] st1|] eqn:Hnew;
      [| |discriminate].
    + apply string_with_cache_new_empty in Hnew. destruct Hnew as [_ He].
      intros H. apply IH in H. rewrite H, map_app, <- app_assoc. cbn. now rewrite He.
    + unfold ret. intros H. inversion H.
Qed.

Lemma extract_haystack_arg_some (args : FilterXFunctionArgs) (h : FilterXExpr) :
  _extract_haystack_arg args = Some h -> nth_error (positional args) 0 = Some h.
Proof.
  unfold _extract_haystack_arg, filterx_function_args_get_expr.
  destruct (filterx_function_args_len args <? 1)%Z; [discriminate|auto].
Qed.

Lemma extract_needle_arg_some (args : FilterXFunctionArgs) (n : FilterXExpr) :
  _extract_needle_arg args = Some n -> nth_error (positional args) 1 = Some n.
Proof.
  unfold _extract_needle_arg, filterx_function_args_get_expr.
  destruct (filterx_function_args_len args <? 2)%Z; [discriminate|auto].
Qed.

(** X14: a node that the constructor returns holds the first positional
    argument as haystack, the second as needle, the [ignorecase] literal
    (false when absent) and the predicate; its [cached_strings] are the
    needle itself when it is a literal, the elements of the needle in
    their order when it is a list literal, and nothing otherwise. *)
Theorem affix_new_caches_literal_needles :
  forall (args : FilterXFunctionArgs) (process_func : FilterXExprAffixProcessFunc)
         (st st' : EvalState) (self : FilterXExprAffix),
    affix_new args process_func st = Returned (Some self) st' ->
    exists needle : FilterXExpr,
      nth_error (positional args) 0 = Some (haystack self)
      /\ nth_error (positional args) 1 = Some needle
      /\ needle_expr self = Some needle
      /\ process self = process_func
      /\ ignore_case self
         = match ignorecase_arg args with
           | Some (Some value) => value
           | _ => false
           end
      /\ map expr (cached_strings self)
         = match shape needle with
           | SHAPE_LITERAL => [needle]
           | SHAPE_LITERAL_LIST_GENERATOR elements => elements
           | SHAPE_OTHER => []
           end.
Proof.
  intros args process_func st st' self.
  unfold _function_affix_new.
  destruct (_extract_optional_args false args) as [ic|] eqn:Hopt; [|discriminate].
  destruct (_extract_haystack_arg args) as [h|] eqn:Hh; [|discriminate].
  destruct (_extract_needle_arg args) as [n|] eqn:Hn; [|discriminate].
  apply extract_haystack_arg_some in Hh. apply extract_needle_arg_some in Hn.
  assert (Hic : ic = match ignorecase_arg args with
                     | Some (Some value) => value
                     | _ => false
                     end).
  { unfold _extract_optional_args in Hopt.
    destruct (ignorecase_arg args) as [[b|]|]; congruence. }
  unfold bind at 1.
  match goal with
  | |- context [_expr_affix_init_needle _ _ ?s0 n st] =>
      destruct (_expr_affix_init_needle g_utf8_casefold repr_other s0 n st)
        as [[ok self1] st1|] eqn:Hinit
  end; [|discriminate].
  cbn. destruct ok; unfold ret; intros H; inversion H; subst self1 st1; clear H.
  exists n. revert Hinit. unfold _expr_affix_init_needle. cbn.
  unfold filterx_expr_is_literal, filterx_expr_is_literal_list_generator,
    list_generator_values.
  unfold bind at 1.
  destruct (shape n) as [|elements|].
  - unfold bind at 1.
    destruct (_string_with_cache_new _ _ n ic st) as [[c|] st2|] eqn:Hnew;
      [| |discriminate].
    + apply string_with_cache_new_empty in Hnew. destruct Hnew as [_ He].
      unfold ret. cbn. intros H. inversion H; subst. cbn.
      repeat (split; [assumption || reflexivity|]). reflexivity.
    + unfold ret. cbn. intros H. inversion H.
  - unfold ret at 1. cbn. unfold bind.
    destruct (cache_needles _ _ elements ic [] st) as [[ok2 cached2] st3|] eqn:Hcache;
      [|discriminate].
    unfold ret. intros H. inversion H; subst. cbn.
    repeat (split; [assumption || reflexivity|]).
    now apply cache_needles_exprs in Hcache.
  - unfold ret. cbn. intros H. inversion H; subst. cbn.
    repeat (split; [assumption || reflexivity|]). reflexivity.
Qed.


(** X16: a call whose haystack cannot be evaluated returns NULL without
    evaluating the needle; a call whose needle, evaluated at the call,
    yields nothing or an object that is neither a string nor a list
    returns NULL as well.  In both cases the function reports no error of
    its own: the state is the one the evaluated expressions left. *)
Theorem affix_eval_fails_without_reporting :
  forall (self : FilterXExprAffix) (st : EvalState),
    let st1 := snd (filterx_expr_eval (haystack self) st) in
    (fst (eval (haystack self) (context st)) = None ->
     affix_eval self st = Returned None st1)
    /\ (forall (ho : FilterXObject) (h0 : bytes) (needle : FilterXExpr),
           fst (eval (haystack self) (context st)) = Some ho ->
           filterx_object_repr repr_other ho = Some h0 ->
           fits (ignore_case self) h0 ->
           cached_strings self = [] ->
           needle_expr self = Some needle ->
           (forall s, fst (eval needle (context st1)) <> Some (FxString s)) ->
           (forall elems, fst (eval needle (context st1)) <> Some (FxList elems)) ->
           affix_eval self st = Returned None (snd (filterx_expr_eval needle st1))).
Proof.
  intros self st st1. split.
  - intros Hnone. unfold _expr_affix_eval, bind at 1.
    unfold _expr_format, filterx_expr_eval_typed, do_eval, bind.
    rewrite <- filterx_expr_eval_fst in Hnone. subst st1.
    destruct (filterx_expr_eval (haystack self) st) as [res st2].
    cbn in Hnone. subst res. reflexivity.
  - intros ho h0 needle Hhay Hrepr Hfit Hnocache Hneedle Hnostr Hnolist.
    unfold _expr_affix_eval, bind at 1.
    rewrite (@expr_format_repr g_utf8_casefold repr_other _ _ _ _ _ Hhay Hrepr Hfit). fold st1.
    rewrite Hnocache. cbn.
    unfold _expr_affix_eval_needle. rewrite Hneedle.
    unfold bind, do_eval.
    pose proof (filterx_expr_eval_fst needle st1) as Hfst.
    destruct (filterx_expr_eval needle st1) as [res st2]. cbn in Hfst. cbn [snd].
    rewrite <- Hfst in Hnostr, Hnolist.
    destruct res as [[| | |s| |elems|]|]; try reflexivity.
    + contradiction (Hnostr s). reflexivity.
    + contradiction (Hnolist elems). reflexivity.
Qed.

(** The loop over the cached needles stops at the first needle that
    matches: the needles before it and the needle itself are evaluated,
    the ones after it are not. *)
Lemma cached_needles_loop_first_match (process : FilterXExprAffixProcessFunc)
    (ic : bool) (h : bytes) (c : FilterXStringWithCache) (s : bytes)
    (post : list FilterXStringWithCache) :
  process h (gs_len h) (folded ic s) (gs_len (folded ic s)) = true ->
  forall (pre : list FilterXStringWithCache) (ss : list bytes) (st : EvalState),
    Forall (fun c => str_value c = None) (pre ++ [c]) ->
    map fst (eval_in_sequence (map expr (pre ++ [c])) (context st))
      = map (fun s => Some (FxString s)) (ss ++ [s]) ->
    Forall (fits ic) (ss ++ [s]) ->
    existsb (fun n => process h (gs_len h) n (gs_len n)) (map (folded ic) ss) = false ->
    exists st',
      cached_needles_loop g_utf8_casefold repr_other process ic h (pre ++ c :: post) false st
        = Returned (Some true) st'
      /\ evaluated st' = evaluated st ++ map (fun c => expr_id (expr c)) (pre ++ [c]).
Proof.
  intros Hmatch.
  induction pre as [|c0 pre IH]; intros ss st Hnone Hseq Hfits Hno.
  - destruct ss as [|s0 ss]; [|destruct ss; discriminate].
    cbn in *. inversion Hseq as [Hhead]. inversion Hnone as [|? ? Hc _]; subst.
    inversion Hfits as [|? ? Hs _]; subst.
    unfold bind at 1. unfold _string_with_cache_get_string_value. rewrite Hc.
    unfold bind at 1.
    rewrite (@expr_format_repr _ _ (expr c) ic st (FxString s) s Hhead eq_refl Hs).
    unfold ret at 1. rewrite Hmatch, cached_needles_loop_matched.
    eexists. split; [reflexivity|]. apply filterx_expr_eval_evaluated.
  - destruct ss as [|s0 ss]; [destruct pre; discriminate|].
    cbn in *. inversion Hseq as [[Hhead Htail]].
    inversion Hnone as [|? ? Hc Hnone']; subst.
    inversion Hfits as [|? ? Hs Hfits']; subst.
    apply orb_false_iff in Hno. destruct Hno as [Hno0 Hno].
    unfold bind at 1. unfold _string_with_cache_get_string_value. rewrite Hc.
    unfold bind at 1.
    rewrite (@expr_format_repr _ _ (expr c0) ic st (FxString s0) s0 Hhead eq_refl Hs).
    unfold ret at 1. rewrite Hno0.
    rewrite <- filterx_expr_eval_context with (st := st) in Htail.
    destruct (IH ss _ Hnone' Htail Hfits' Hno) as (st' & Hrun & Hev).
    exists st'. split; [exact Hrun|].
    rewrite Hev, filterx_expr_eval_evaluated, <- app_assoc. reflexivity.
Qed.

(** X17: with cached needles, the call evaluates the haystack and then
    the needles from the left up to the first one that matches, and
    returns true; the needles after it are not evaluated. *)
Theorem cached_needles_are_tested_until_first_match :
  forall (self : FilterXExprAffix) (st : EvalState) (ho : FilterXObject) (h0 : bytes)
         (pre : list FilterXStringWithCache) (c : FilterXStringWithCache)
         (post : list FilterXStringWithCache) (ss : list bytes) (s : bytes),
    fst (eval (haystack self) (context st)) = Some ho ->
    filterx_object_repr repr_other ho = Some h0 ->
    fits (ignore_case self) h0 ->
    cached_strings self = pre ++ c :: post ->
    Forall (fun c => str_value c = None) (pre ++ [c]) ->
    let ic := ignore_case self in
    let h := folded ic h0 in
    let st1 := snd (filterx_expr_eval (haystack self) st) in
    let matches := fun n => process self h (gs_len h) n (gs_len n) in
    map fst (eval_in_sequence (map expr (pre ++ [c])) (context st1))
      = map (fun s => Some (FxString s)) (ss ++ [s]) ->
    Forall (fits ic) (ss ++ [s]) ->
    existsb matches (map (folded ic) ss) = false ->
    matches (folded ic s) = true ->
    exists st2,
      affix_eval self st = Returned (Some (FxBoolean true)) st2
      /\ evaluated st2
         = evaluated st
           ++ expr_id (haystack self) :: map (fun c => expr_id (expr c)) (pre ++ [c]).
Proof.
  intros self st ho h0 pre c post ss s Hhay Hrepr Hfit Hcached Hnone ic h st1 matches
    Hseq Hfits Hno Hmatch.
  destruct (@cached_needles_loop_first_match (process self) ic h c s post Hmatch
              pre ss st1 Hnone Hseq Hfits Hno) as (st2 & Hrun & Hev).
  exists st2. split.
  - unfold _expr_affix_eval, bind.
    rewrite (@expr_format_repr g_utf8_casefold repr_other _ _ _ _ _ Hhay Hrepr Hfit).
    fold ic. fold h. fold st1.
    rewrite Hcached.
    replace (Z.of_nat (length (pre ++ c :: post)) =? 0)%Z with false.
    2:{ symmetry. apply Z.eqb_neq. rewrite length_app. cbn. lia. }
    cbn. rewrite Hrun. reflexivity.
  - rewrite Hev. subst st1. rewrite filterx_expr_eval_evaluated, <- app_assoc.
    reflexivity.
Qed.

End AffixNodeFacts.

(** [endswith("file.tar.gz", [".zip", ".gz"])]: the two elements of the
    list literal are cached, in their order. *)
Lemma affix_new_caches_literal_needles_witness :
  map FuncStr.expr (FuncStr.cached_strings Samples.endswith_zip_gz)
  = FuncStr.list_generator_values Samples.zip_gz_literal.
Proof.
  destruct (@affix_new_caches_literal_needles
              Samples.sample_casefold Samples.sample_repr_other
              Samples.endswith_zip_gz_args FuncStr._function_endswith_process
              Samples.initial_state _ Samples.endswith_zip_gz eq_refl)
    as (needle & _ & Hn & _ & _ & _ & Hc).
  cbn in Hn. inversion Hn; subst needle. exact Hc.
Defined.


(** [includes("abcdef", 7)]: both arguments are evaluated and the call
    fails with an empty error stack. *)
Lemma affix_eval_fails_without_reporting_witness :
  FuncStr._expr_affix_eval Samples.sample_casefold Samples.sample_repr_other
    (Samples.includes_computed (FxInteger 7%Z)) Samples.initial_state
  = FuncStr.Returned None
      {| context := Samples.empty_context; evaluated := [1; 2]; messages := [] |}.
Proof.
  apply (proj2 (@affix_eval_fails_without_reporting
                  Samples.sample_casefold Samples.sample_repr_other
                  (Samples.includes_computed (FxInteger 7%Z)) Samples.initial_state)
           (FxString (bytes_of "abcdef")) (bytes_of "abcdef")
           (Samples.computed_expr 2 (FxInteger 7%Z))).
  - reflexivity.
  - reflexivity.
  - intros H. discriminate H.
  - reflexivity.
  - reflexivity.
  - intros s H. discriminate H.
  - intros elems H. discriminate H.
Defined.

(** [startswith("Hello", ["x", "He", "y"])]: "x" and "He" are evaluated,
    "y" is not. *)
Lemma cached_needles_are_tested_until_first_match_witness :
  exists st2,
    FuncStr._expr_affix_eval Samples.sample_casefold Samples.sample_repr_other
      MoreSamples.startswith_three_needles Samples.initial_state
    = FuncStr.Returned (Some (FxBoolean true)) st2
    /\ evaluated st2 = [1; 3; 4].
Proof.
  apply (@cached_needles_are_tested_until_first_match
           Samples.sample_casefold Samples.sample_repr_other
           MoreSamples.startswith_three_needles Samples.initial_state
           (FxString (bytes_of "Hello")) (bytes_of "Hello")
           [FuncStr.mkStringWithCache
              (Samples.literal_expr 3 (FxString (bytes_of "x"))) None 0%Z]
           (FuncStr.mkStringWithCache
              (Samples.literal_expr 4 (FxString (bytes_of "He"))) None 0%Z)
           [FuncStr.mkStringWithCache
              (Samples.literal_expr 5 (FxString (bytes_of "y"))) None 0%Z]
           [bytes_of "x"] (bytes_of "He")).
  - reflexivity.
  - reflexivity.
  - intros H. discriminate H.
  - reflexivity.
  - repeat constructor.
  - reflexivity.
  - repeat constructor; intros H; discriminate H.
  - reflexivity.
  - reflexivity.
Defined.

(** ** Every group of a match in the dict and in the list *)

Section RegexpGroupFacts.

Import RegexpSearch RegexpNames.

Local Open Scope Z_scope.














End RegexpGroupFacts.



(** ** Shutdown and retries of the TLS transport *)

Section TransportTLSFacts.

Import TransportTLS TransportTLSRuns.

Local Open Scope Z_scope.

(** X20: [log_transport_tls_send_shutdown] calls [SSL_shutdown] once
    and hands its return value on.  The shutdown stays pending exactly
    when the call failed because libssl wants to read or to write; the
    transport then reports EAGAIN and asks for the matching poll
    condition. *)
Theorem shutdown_stays_pending_while_libssl_wants_io :
  forall (answer : SSLAnswer) (self : LogTransportTLS),
    let res := log_transport_tls_send_shutdown answer self in
    fst res = ssl_rc answer
    /\ calls (snd res) = calls self ++ [Call_SSL_shutdown]
    /\ (sending_shutdown (snd res) = true
        <-> ssl_rc answer < 0
            /\ (ssl_get_error answer = SSL_ERROR_WANT_READ
                \/ ssl_get_error answer = SSL_ERROR_WANT_WRITE))
    /\ (sending_shutdown (snd res) = true ->
        errno (snd res) = EAGAIN
        /\ cond (snd res)
           = if ssl_get_error answer =? SSL_ERROR_WANT_READ then G_IO_IN else G_IO_OUT).
Proof.
  intros answer self res. subst res.
  unfold log_transport_tls_send_shutdown, _is_shutdown_sent, _handle_shutdown_error.
  destruct (Z.leb_spec 0 (ssl_rc answer)) as [Hsent|Hfailed]; cbn [fst snd].
  - split; [reflexivity|]. split; [reflexivity|]. split.
    + cbn. split; [discriminate | intros [Hneg _]; lia].
    + cbn. discriminate.
  - destruct (Z.eqb_spec (ssl_get_error answer) SSL_ERROR_WANT_READ) as [Hr|Hr].
    { cbn. repeat split; auto. }
    destruct (Z.eqb_spec (ssl_get_error answer) SSL_ERROR_WANT_WRITE) as [Hw|Hw].
    { cbn. repeat split; auto. }
    destruct (ssl_get_error answer =? SSL_ERROR_SYSCALL); cbn.
    + repeat split; try discriminate. intros [_ [H|H]]; contradiction.
    + repeat split; try discriminate. intros [_ [H|H]]; contradiction.
Qed.

Lemma after_reads_fields (pre : list SSLAnswer) :
  forall self,
    sending_shutdown (after_reads pre self) = sending_shutdown self
    /\ peer_info (after_reads pre self) = peer_info self
    /\ cond (after_reads pre self) = cond self
    /\ errors (after_reads pre self) = errors self
    /\ calls (after_reads pre self) = calls self ++ repeat Call_SSL_read (length pre).
Proof.
  induction pre as [|a pre IH]; intros self; cbn.
  - rewrite app_nil_r. repeat split.
  - destruct (IH (ssl_call Call_SSL_read a self)) as (H1 & H2 & H3 & H4 & H5).
    unfold after_reads in *. rewrite H1, H2, H3, H4, H5. cbn.
    rewrite <- app_assoc. repeat split.
Qed.

Lemma after_reads_set_cond (pre : list SSLAnswer) (c : Z) :
  forall self,
    after_reads pre (set_cond self c) = set_cond (after_reads pre self) c.
Proof.
  induction pre as [|a pre IH]; intros self; cbn; [reflexivity|].
  unfold after_reads in *. rewrite <- IH. reflexivity.
Qed.

Lemma read_loop_skips_interrupted (pre : list SSLAnswer) :
  Forall interrupted pre ->
  forall (script : list SSLAnswer) (self : LogTransportTLS),
    read_loop (length (pre ++ script)) (pre ++ script) self
      = read_loop (length script) script (after_reads pre self).
Proof.
  induction 1 as [|a pre (Hrc & Herr & Herrno) _ IH]; intros script self; [reflexivity|].
  rewrite <- app_comm_cons. simpl length. simpl read_loop. unfold read_step.
  replace (ssl_rc a <=? 0) with true by (symmetry; apply Z.leb_le; exact Hrc).
  destruct (syscall_branch Herr) as (H1 & H2 & H3 & H4). rewrite H1, H2, H3, H4.
  cbn [errno ssl_call]. rewrite Herrno. cbn -[read_loop length app after_reads].
  apply IH.
Qed.

(** X21: reads that a signal interrupts (SSL_ERROR_SYSCALL with errno
    EINTR) are retried inside the method: any number of them in front
    of the answers of a read give the result of that read, with the
    interrupted calls to [SSL_read] made before it. *)
Theorem interrupted_reads_are_retried :
  forall (pre script : list SSLAnswer) (self : LogTransportTLS)
         (aux : option LogTransportAuxData),
    sending_shutdown self = false ->
    Forall interrupted pre ->
    log_transport_tls_read_method (pre ++ script) self aux
      = log_transport_tls_read_method script (after_reads pre self) aux
    /\ calls (after_reads pre self) = calls self ++ repeat Call_SSL_read (length pre).
Proof.
  intros pre script self aux Hidle Hpre.
  destruct (after_reads_fields pre self) as (Hs & Hp & _ & _ & Hcalls).
  split; [|exact Hcalls].
  unfold log_transport_tls_read_method. rewrite Hs, Hidle.
  rewrite read_loop_skips_interrupted by exact Hpre.
  rewrite after_reads_set_cond.
  unfold add_aux. cbn [peer_info set_cond]. rewrite Hp. reflexivity.
Qed.

Lemma read_loop_result (fuel : nat) :
  forall (script : list SSLAnswer) (self self' : LogTransportTLS) (rc : Z),
    read_loop fuel script self = Some (rc, self') ->
    -1 <= rc
    /\ (rc = -1 -> errno self' <> EINTR)
    /\ (0 < rc -> cond self' = 0).
Proof.
  induction fuel as [|fuel IH]; intros script self self' rc; cbn [read_loop]; [discriminate|].
  destruct (read_step script self) as [rc1 self1 rest|self1|] eqn:Hstep.
  - destruct ((rc1 =? -1) && (errno self1 =? EINTR)) eqn:Hretry; [apply IH|].
    assert (Hrange : -1 <= rc1).
    { revert Hstep. unfold read_step. destruct script as [|a rest0]; [discriminate|].
      destruct (Z.leb_spec (ssl_rc a) 0) as [Hle|Hgt].
      - destruct (ssl_get_error a =? SSL_ERROR_WANT_READ);
          [intros H; inversion H; lia|].
        destruct (ssl_get_error a =? SSL_ERROR_WANT_WRITE);
          [intros H; inversion H; lia|].
        destruct (ssl_get_error a =? SSL_ERROR_ZERO_RETURN).
        + destruct rest0 as [|sh rest']; [discriminate|].
          destruct (log_transport_tls_send_shutdown sh (ssl_call Call_SSL_read a self))
            as [shutdown_rc self2].
          intros H; inversion H.
          match goal with |- context [if ?c then _ else _] => destruct c end; lia.
        + destruct (ssl_get_error a =? SSL_ERROR_SYSCALL); [|discriminate].
          intros H; inversion H.
          match goal with |- context [if ?c then _ else _] => destruct c end; lia.
      - intros H; inversion H. lia. }
    destruct (Z.ltb_spec 0 rc1) as [Hpos|Hnonpos]; intros H; inversion H; subst.
    + split; [lia|]. split; [lia|]. reflexivity.
    + split; [lia|]. split; [|lia].
      intros Hminus Heintr. rewrite Hminus, Heintr in Hretry. discriminate.
  - intros H; inversion H; subst. split; [lia|]. split; [|lia].
    intros _. cbn. discriminate.
  - discriminate.
Qed.

(** X22: what a read reports when no shutdown is pending: the return
    value is never below -1; when it is -1, errno is not EINTR, so an
    interrupted system call is never handed to the caller; and when data
    was read the transport asks for no poll condition. *)
Theorem read_never_reports_an_interrupted_call :
  forall (script : list SSLAnswer) (self self' : LogTransportTLS)
         (aux aux' : option LogTransportAuxData) (rc : Z),
    sending_shutdown self = false ->
    log_transport_tls_read_method script self aux = Some (rc, self', aux') ->
    -1 <= rc
    /\ (rc = -1 -> errno self' <> EINTR)
    /\ (0 < rc -> cond self' = 0)
    /\ aux' = add_aux self aux.
Proof.
  intros script self self' aux aux' rc Hidle.
  unfold log_transport_tls_read_method. rewrite Hidle.
  destruct (read_loop (length script) script (set_cond self G_IO_IN))
    as [[rc1 self1]|] eqn:Hloop; [|discriminate].
  intros H; inversion H; subst.
  destruct (read_loop_result _ _ _ Hloop) as (H1 & H2 & H3).
  repeat split; assumption.
Qed.

Lemma send_shutdown_want_io (sh : SSLAnswer) (self : LogTransportTLS) :
  ssl_rc sh < 0 ->
  ssl_get_error sh = SSL_ERROR_WANT_READ \/ ssl_get_error sh = SSL_ERROR_WANT_WRITE ->
  log_transport_tls_send_shutdown sh self
    = (ssl_rc sh,
       set_errno
         (set_cond (ssl_call Call_SSL_shutdown sh (set_sending_shutdown self true))
            (if ssl_get_error sh =? SSL_ERROR_WANT_READ then G_IO_IN else G_IO_OUT))
         EAGAIN).
Proof.
  intros Hrc Herr.
  unfold log_transport_tls_send_shutdown, _is_shutdown_sent, _handle_shutdown_error.
  replace (0 <=? ssl_rc sh) with false by (symmetry; apply Z.leb_gt; exact Hrc).
  destruct Herr as [Herr|Herr]; rewrite Herr; reflexivity.
Qed.

Lemma send_shutdown_sent (sh : SSLAnswer) (self : LogTransportTLS) :
  0 <= ssl_rc sh ->
  log_transport_tls_send_shutdown sh self
    = (ssl_rc sh,
       set_sending_shutdown
         (ssl_call Call_SSL_shutdown sh (set_sending_shutdown self true)) false).
Proof.
  intros Hrc. unfold log_transport_tls_send_shutdown, _is_shutdown_sent.
  replace (0 <=? ssl_rc sh) with true by (symmetry; apply Z.leb_le; exact Hrc).
  reflexivity.
Qed.

(** X23: a shutdown that could not be sent at once is finished by the
    next read.  When the peer has closed the stream and [SSL_shutdown]
    wants to read or write first, the read returns -1 with EAGAIN and the
    poll condition libssl asked for; the next read calls [SSL_shutdown]
    again instead of [SSL_read], leaves the aux data alone and returns 0
    once the shutdown is sent. *)
Theorem pending_shutdown_is_finished_by_the_next_read :
  forall (self : LogTransportTLS) (a sh1 sh2 : SSLAnswer) (rest1 rest2 : list SSLAnswer)
         (aux aux2 : option LogTransportAuxData),
    sending_shutdown self = false ->
    ssl_rc a <= 0 ->
    ssl_get_error a = SSL_ERROR_ZERO_RETURN ->
    ssl_rc sh1 < 0 ->
    ssl_get_error sh1 = SSL_ERROR_WANT_READ \/ ssl_get_error sh1 = SSL_ERROR_WANT_WRITE ->
    0 <= ssl_rc sh2 ->
    exists self1 self2,
      log_transport_tls_read_method (a :: sh1 :: rest1) self aux
        = Some (-1, self1, add_aux self aux)
      /\ errno self1 = EAGAIN
      /\ cond self1
         = (if ssl_get_error sh1 =? SSL_ERROR_WANT_READ then G_IO_IN else G_IO_OUT)
      /\ log_transport_tls_read_method (sh2 :: rest2) self1 aux2 = Some (0, self2, aux2)
      /\ calls self2 = calls self ++ [Call_SSL_read; Call_SSL_shutdown; Call_SSL_shutdown]
      /\ sending_shutdown self2 = false.
Proof.
  intros self a sh1 sh2 rest1 rest2 aux aux2 Hidle Hrc Herr Hrc1 Herr1 Hrc2.
  destruct (zero_return_branch Herr) as (H1 & H2 & H3).
  set (c := if ssl_get_error sh1 =? SSL_ERROR_WANT_READ then G_IO_IN else G_IO_OUT).
  set (self1 :=
         set_errno
           (set_cond
              (ssl_call Call_SSL_shutdown sh1
                 (set_sending_shutdown
                    (ssl_call Call_SSL_read a (set_cond self G_IO_IN)) true))
              c)
           EAGAIN).
  set (self2 :=
         set_sending_shutdown
           (ssl_call Call_SSL_shutdown sh2 (set_sending_shutdown self1 true)) false).
  exists self1, self2.
  assert (Hfirst : log_transport_tls_read_method (a :: sh1 :: rest1) self aux
                   = Some (-1, self1, add_aux self aux)).
  { unfold log_transport_tls_read_method. rewrite Hidle.
    cbn [length read_loop]. unfold read_step.
    replace (ssl_rc a <=? 0) with true by (symmetry; apply Z.leb_le; exact Hrc).
    rewrite H1, H2, H3.
    rewrite (@send_shutdown_want_io sh1 _ Hrc1 Herr1). fold c. fold self1.
    replace (0 <=? ssl_rc sh1) with false by (symmetry; apply Z.leb_gt; exact Hrc1).
    reflexivity. }
  assert (Hsecond : log_transport_tls_read_method (sh2 :: rest2) self1 aux2
                    = Some (0, self2, aux2)).
  { unfold log_transport_tls_read_method.
    change (sending_shutdown self1) with true. cbv iota.
    rewrite (@send_shutdown_sent sh2 _ Hrc2). fold self2.
    replace (0 <=? ssl_rc sh2) with true by (symmetry; apply Z.leb_le; exact Hrc2).
    reflexivity. }
  split; [exact Hfirst|]. split; [reflexivity|]. split; [reflexivity|].
  split; [exact Hsecond|]. split; [|reflexivity].
  cbn. rewrite <- !app_assoc. reflexivity.
Qed.

End TransportTLSFacts.

(** A read that a signal interrupts once before five bytes arrive. *)
Lemma interrupted_reads_are_retried_witness :
  option_map (fun r => (fst (fst r), TransportTLS.calls (snd (fst r))))
    (TransportTLS.log_transport_tls_read_method
       [TransportTLS.mkAnswer (-1) TransportTLS.SSL_ERROR_SYSCALL (Some TransportTLS.EINTR);
        TransportTLS.mkAnswer 5 TransportTLS.SSL_ERROR_NONE None]
       TransportTLS.idle_transport None)
  = Some (5%Z, [TransportTLS.Call_SSL_read; TransportTLS.Call_SSL_read]).
Proof.
  destruct (@interrupted_reads_are_retried
              [TransportTLS.mkAnswer (-1) TransportTLS.SSL_ERROR_SYSCALL
                 (Some TransportTLS.EINTR)]
              [TransportTLS.mkAnswer 5 TransportTLS.SSL_ERROR_NONE None]
              TransportTLS.idle_transport None eq_refl) as [Hsame _].
  - constructor; [|constructor]. split; [cbn; lia|]. split; reflexivity.
  - refine (eq_trans
              (f_equal
                 (option_map (fun r => (fst (fst r), TransportTLS.calls (snd (fst r)))))
                 Hsame) _).
    reflexivity.
Defined.

(** A read for which libssl wants to read more: -1 with EAGAIN. *)
Lemma read_never_reports_an_interrupted_call_witness :
  exists self',
    TransportTLS.log_transport_tls_read_method
      [TransportTLS.mkAnswer (-1) TransportTLS.SSL_ERROR_WANT_READ None]
      TransportTLS.idle_transport None
    = Some ((-1)%Z, self', None)
    /\ TransportTLS.errno self' <> TransportTLS.EINTR.
Proof.
  eexists. split; [reflexivity|].
  refine (proj1 (proj2 (@read_never_reports_an_interrupted_call
                          [TransportTLS.mkAnswer (-1) TransportTLS.SSL_ERROR_WANT_READ None]
                          TransportTLS.idle_transport _ None _ (-1)%Z eq_refl eq_refl))
            eq_refl).
Defined.

(** The peer closes the stream, [SSL_shutdown] first wants to write and
    succeeds at the next read. *)
Lemma pending_shutdown_is_finished_by_the_next_read_witness :
  exists self1 self2,
    TransportTLS.log_transport_tls_read_method
      [TransportTLS.mkAnswer 0 TransportTLS.SSL_ERROR_ZERO_RETURN None;
       TransportTLS.mkAnswer (-1) TransportTLS.SSL_ERROR_WANT_WRITE None]
      TransportTLS.idle_transport None
    = Some ((-1)%Z, self1, None)
    /\ TransportTLS.errno self1 = TransportTLS.EAGAIN
    /\ TransportTLS.cond self1 = TransportTLS.G_IO_OUT
    /\ TransportTLS.log_transport_tls_read_method
         [TransportTLS.mkAnswer 1 TransportTLS.SSL_ERROR_NONE None] self1 None
       = Some (0%Z, self2, None)
    /\ TransportTLS.calls self2
       = [TransportTLS.Call_SSL_read; TransportTLS.Call_SSL_shutdown;
          TransportTLS.Call_SSL_shutdown]
    /\ TransportTLS.sending_shutdown self2 = false.
Proof.
  apply (@pending_shutdown_is_finished_by_the_next_read
           TransportTLS.idle_transport
           (TransportTLS.mkAnswer 0 TransportTLS.SSL_ERROR_ZERO_RETURN None)
           (TransportTLS.mkAnswer (-1) TransportTLS.SSL_ERROR_WANT_WRITE None)
           (TransportTLS.mkAnswer 1 TransportTLS.SSL_ERROR_NONE None)
           [] [] None None).
  - reflexivity.
  - cbn. lia.
  - reflexivity.
  - cbn. lia.
  - right. reflexivity.
  - cbn. lia.
Defined.

(** ** The BIO callbacks and the reference counter *)

Section TransportBIOFacts.

Import TransportBIO.

Local Open Scope Z_scope.

Lemma should_retry_is_bit_3 (bio : BIO) :
  BIO_should_retry bio = Z.testbit (bio_flags bio) 3.
Proof.
  unfold BIO_should_retry, BIO_FLAGS_SHOULD_RETRY.
  change 8 with (2 ^ 3).
  destruct (Z.testbit (bio_flags bio) 3) eqn:Hbit.
  - destruct (Z.eqb_spec (Z.land (bio_flags bio) (2 ^ 3)) 0) as [Hzero|]; [|reflexivity].
    assert (Hland : Z.testbit (Z.land (bio_flags bio) (2 ^ 3)) 3 = true).
    { rewrite Z.land_spec, Hbit, Z.pow2_bits_true by lia. reflexivity. }
    rewrite Hzero, Z.bits_0 in Hland. discriminate.
  - replace (Z.land (bio_flags bio) (2 ^ 3)) with 0; [reflexivity|].
    symmetry. apply Z.bits_inj'. intros n Hn.
    rewrite Z.land_spec, Z.bits_0.
    destruct (Z.eq_dec n 3) as [->|Hne].
    + rewrite Hbit. reflexivity.
    + rewrite Z.pow2_bits_false by lia. apply andb_false_r.
Qed.

(** X24: after [_BIO_transport_write] the BIO asks for a retry exactly
    when the write failed with EAGAIN, whatever its flags were before;
    [_BIO_transport_read] sets the retry flag in the same case but never
    clears it, so a BIO that asked for a retry before the call still asks
    for it after a read that succeeded.  Both callbacks return 1 with the
    number of bytes, or -1 with 0 bytes. *)
Theorem bio_write_resets_retry_and_read_keeps_it :
  forall (bio : BIO) (ret errno : Z),
    BIO_should_retry (snd (_BIO_transport_write bio ret errno))
      = (ret <? 0) && (errno =? TransportTLS.EAGAIN)
    /\ BIO_should_retry (snd (_BIO_transport_read bio ret errno))
       = BIO_should_retry bio || ((ret <? 0) && (errno =? TransportTLS.EAGAIN))
    /\ fst (_BIO_transport_write bio ret errno) = (if ret <? 0 then (-1, 0) else (1, ret))
    /\ fst (_BIO_transport_read bio ret errno) = (if ret <? 0 then (-1, 0) else (1, ret)).
Proof.
  intros bio ret errno.
  assert (Hcleared : BIO_should_retry (BIO_clear_retry_flags bio) = false).
  { rewrite should_retry_is_bit_3. cbn [bio_flags BIO_clear_retry_flags].
    rewrite Z.land_spec. replace (Z.testbit (Z.lnot (Z.lor BIO_FLAGS_RWS BIO_FLAGS_SHOULD_RETRY)) 3)
      with false by reflexivity.
    apply andb_false_r. }
  assert (Hset_w : forall b, BIO_should_retry (BIO_set_retry_write b) = true).
  { intros b. rewrite should_retry_is_bit_3. cbn [bio_flags BIO_set_retry_write].
    rewrite Z.lor_spec.
    replace (Z.testbit (Z.lor BIO_FLAGS_WRITE BIO_FLAGS_SHOULD_RETRY) 3) with true
      by reflexivity.
    apply orb_true_r. }
  assert (Hset_r : forall b, BIO_should_retry (BIO_set_retry_read b) = true).
  { intros b. rewrite should_retry_is_bit_3. cbn [bio_flags BIO_set_retry_read].
    rewrite Z.lor_spec.
    replace (Z.testbit (Z.lor BIO_FLAGS_READ BIO_FLAGS_SHOULD_RETRY) 3) with true
      by reflexivity.
    apply orb_true_r. }
  unfold _BIO_transport_write, _BIO_transport_read.
  destruct (ret <? 0); destruct (errno =? TransportTLS.EAGAIN); cbn [fst snd andb];
    rewrite ?Hcleared, ?Hset_w, ?Hset_r, ?orb_true_r, ?orb_false_r; repeat split.
Qed.

(** X25: the close flag set with BIO_CTRL_SET_CLOSE is what
    BIO_CTRL_GET_CLOSE returns afterwards, cut to an [int]; no control
    command changes the flags of the BIO, and every command other than
    BIO_CTRL_SET_CLOSE leaves the close flag alone. *)
Theorem bio_ctrl_close_flag_round_trip :
  forall (bio : BIO) (cmd num num' : Z),
    fst (_BIO_transport_ctrl (snd (_BIO_transport_ctrl bio BIO_CTRL_SET_CLOSE num))
           BIO_CTRL_GET_CLOSE num')
      = to_gint num
    /\ bio_flags (snd (_BIO_transport_ctrl bio cmd num)) = bio_flags bio
    /\ (cmd <> BIO_CTRL_SET_CLOSE -> snd (_BIO_transport_ctrl bio cmd num) = bio).
Proof.
  intros bio cmd num num'. split; [reflexivity|].
  unfold _BIO_transport_ctrl.
  destruct (cmd =? BIO_CTRL_GET_CLOSE); [repeat split|].
  destruct (Z.eqb_spec cmd BIO_CTRL_SET_CLOSE) as [->|Hne].
  - split; [reflexivity|]. intros H. contradiction H. reflexivity.
  - destruct ((cmd =? BIO_CTRL_DUP) || (cmd =? BIO_CTRL_FLUSH)); repeat split.
Qed.

End TransportBIOFacts.

Section ExprRefFacts.

Import ExprRef.

Local Open Scope Z_scope.

Lemma to_gint_small (z : Z) : 0 <= z < 2 ^ 31 -> to_gint z = z.
Proof.
  intros Hz. unfold to_gint. rewrite Z.mod_small by lia.
  replace (z <? 2 ^ 31) with true by (symmetry; apply Z.ltb_lt; lia). reflexivity.
Qed.

Lemma ref_times_count (n : nat) :
  forall c, 0 <= c -> c + Z.of_nat n < 2 ^ 31 -> ref_times n c = c + Z.of_nat n.
Proof.
  induction n as [|n IH]; intros c Hc Hn; cbn [ref_times]; [lia|].
  unfold filterx_expr_ref. rewrite to_gint_small by lia.
  rewrite IH by lia. lia.
Qed.

Lemma unref_times_add (k m : nat) :
  forall c, Z.of_nat k < c < 2 ^ 31 ->
            unref_times (k + m) (Kept c) = unref_times m (Kept (c - Z.of_nat k)).
Proof.
  induction k as [|k IH]; intros c Hc; cbn [Nat.add unref_times].
  - replace (c - Z.of_nat 0) with c by lia. reflexivity.
  - unfold filterx_expr_unref.
    replace (0 <? c) with true by (symmetry; apply Z.ltb_lt; lia).
    rewrite to_gint_small by lia.
    replace (c - 1 =? 0) with false by (symmetry; apply Z.eqb_neq; lia).
    rewrite IH by lia. f_equal. f_equal. lia.
Qed.

(** X26: references are counted: a fresh node that was referenced [n]
    more times lives through its first [n] unrefs, with the counter back
    at 1 after them, and is freed by the next one; a reference dropped
    after that is dropped on a freed node.  The counter is a [gint], so
    this holds below 2^31 references. *)
Theorem expr_is_freed_by_the_last_unref :
  forall (n k : nat),
    Z.of_nat n + 1 < 2 ^ 31 ->
    (k <= n)%nat ->
    unref_times k (Kept (ref_times n filterx_expr_new))
      = Some (Kept (1 + Z.of_nat n - Z.of_nat k))
    /\ unref_times (S n) (Kept (ref_times n filterx_expr_new)) = Some Released
    /\ unref_times (S (S n)) (Kept (ref_times n filterx_expr_new)) = None.
Proof.
  intros n k Hn Hk. unfold filterx_expr_new.
  rewrite ref_times_count by lia.
  split; [|split].
  - replace k with (k + 0)%nat at 1 by lia. rewrite unref_times_add by lia.
    reflexivity.
  - replace (S n) with (n + 1)%nat by lia. rewrite unref_times_add by lia.
    replace (1 + Z.of_nat n - Z.of_nat n) with 1 by lia. reflexivity.
  - replace (S (S n)) with (n + 2)%nat by lia. rewrite unref_times_add by lia.
    replace (1 + Z.of_nat n - Z.of_nat n) with 1 by lia. reflexivity.
Qed.

End ExprRefFacts.

(** A node referenced twice more: it lives through two unrefs and is
    freed by the third. *)
Lemma expr_is_freed_by_the_last_unref_witness :
  ExprRef.unref_times 2 (ExprRef.Kept (ExprRef.ref_times 2 ExprRef.filterx_expr_new))
    = Some (ExprRef.Kept 1%Z)
  /\ ExprRef.unref_times 3 (ExprRef.Kept (ExprRef.ref_times 2 ExprRef.filterx_expr_new))
     = Some ExprRef.Released
  /\ ExprRef.unref_times 4 (ExprRef.Kept (ExprRef.ref_times 2 ExprRef.filterx_expr_new))
     = None.
Proof.
  apply (@expr_is_freed_by_the_last_unref 2 2).
  - cbn. lia.
  - lia.
Defined.

(** ** Inner literals *)

Section InnerGeneratorFacts.

Import GeneratorEval.

Variable filterx_object_clone : FilterXObject -> FilterXObject.
Variable filterx_object_set_subscript :
  FilterXObject -> option FilterXObject -> FilterXObject -> bool * FilterXObject.
Variable filterx_object_create_dict : FilterXObject -> option FilterXObject.

#[local] Abbreviation eval_elements :=
  (_eval_elements filterx_object_clone filterx_object_set_subscript).
#[local] Abbreviation inner_dict_generator_eval :=
  (_inner_dict_generator_eval filterx_object_clone filterx_object_set_subscript
     filterx_object_create_dict).

(** A fill that succeeds has evaluated every key and value. *)
Lemma eval_elements_success_evaluated (elements : list FilterXLiteralGeneratorElem) :
  forall fillable st f' st',
    eval_elements fillable elements st = (true, f', st') ->
    evaluated st' = evaluated st ++ map expr_id (flat_map elem_exprs elements).
Proof.
  induction elements as [|e elements IH]; intros fillable st f' st'.
  - cbn. intros H. inversion H; subst. now rewrite app_nil_r.
  - cbn [_eval_elements flat_map]. unfold elem_exprs at 1.
    destruct (key e) as [kexpr|].
    + pose proof (filterx_expr_eval_evaluated kexpr st) as Hk.
      destruct (filterx_expr_eval kexpr st) as [[kobj|] sk]; cbn [snd] in Hk;
        [|discriminate].
      pose proof (filterx_expr_eval_evaluated (value e) sk) as Hv.
      destruct (filterx_expr_eval (value e) sk) as [[vobj|] sv]; cbn [snd] in Hv;
        [|discriminate].
      destruct (filterx_object_set_subscript fillable (Some kobj)
                  (if cloneable e then filterx_object_clone vobj else vobj))
        as [success f1].
      destruct success; cbn [negb]; [|discriminate].
      intros Hrun. apply IH in Hrun. rewrite Hrun, Hv, Hk. simpl.
      rewrite <- !app_assoc. reflexivity.
    + pose proof (filterx_expr_eval_evaluated (value e) st) as Hv.
      destruct (filterx_expr_eval (value e) st) as [[vobj|] sv]; cbn [snd] in Hv;
        [|discriminate].
      destruct (filterx_object_set_subscript fillable None
                  (if cloneable e then filterx_object_clone vobj else vobj))
        as [success f1].
      destruct success; cbn [negb]; [|discriminate].
      intros Hrun. apply IH in Hrun. rewrite Hrun, Hv. simpl.
      rewrite <- !app_assoc. reflexivity.
Qed.

(** X27: an inner dict literal is all or nothing.  The container of the
    root literal is evaluated first; when that fails, or no dict can be
    created from it, the result is NULL and no key or value is
    evaluated.  A dict is returned only after every key and every value
    was evaluated, in declaration order, and stored; a fill that stops
    early gives NULL, not the part that was filled. *)
Theorem inner_dict_literal_is_all_or_nothing :
  forall (root_fillable : FilterXExpr) (elements : list FilterXLiteralGeneratorElem)
         (st : EvalState),
    let res := inner_dict_generator_eval root_fillable elements st in
    let st1 := snd (filterx_expr_eval root_fillable st) in
    (fst (eval root_fillable (context st)) = None -> res = (None, st1))
    /\ (forall root : FilterXObject,
           fst (eval root_fillable (context st)) = Some root ->
           filterx_object_create_dict root = None ->
           res = (None, st1))
    /\ (forall dict : FilterXObject,
           fst res = Some dict ->
           exists root fillable,
             fst (eval root_fillable (context st)) = Some root
             /\ filterx_object_create_dict root = Some fillable
             /\ eval_elements fillable elements st1 = (true, dict, snd res)
             /\ evaluated (snd res)
                = evaluated st
                  ++ expr_id root_fillable :: map expr_id (flat_map elem_exprs elements)).
Proof.
  intros root_fillable elements st res st1. subst res st1.
  unfold _inner_dict_generator_eval.
  pose proof (filterx_expr_eval_fst root_fillable st) as Hfst.
  pose proof (filterx_expr_eval_evaluated root_fillable st) as Hev.
  destruct (filterx_expr_eval root_fillable st) as [root st1]. cbn [fst snd] in *.
  rewrite <- Hfst. split; [|split].
  - intros ->. reflexivity.
  - intros r -> Hdict. rewrite Hdict. reflexivity.
  - intros dict. destruct root as [r|]; [|discriminate].
    destruct (filterx_object_create_dict r) as [fillable|] eqn:Hdict; [|discriminate].
    destruct (eval_elements fillable elements st1) as [[ok f'] st2] eqn:Hrun.
    destruct ok; [|discriminate]. cbn [fst snd]. intros H. inversion H; subst f'.
    exists r, fillable. split; [reflexivity|]. split; [exact Hdict|]. split; [exact Hrun|].
    rewrite (eval_elements_success_evaluated _ _ _ Hrun), Hev, <- app_assoc. reflexivity.
Qed.

End InnerGeneratorFacts.

(** The inner literal [{"a": 1}]: the container of the root, the key
    and the value are evaluated, in that order. *)
Lemma inner_dict_literal_is_all_or_nothing_witness :
  GeneratorEval._inner_dict_generator_eval MoreSamples.sample_clone
    MoreSamples.sample_set_subscript MoreSamples.sample_create_dict
    (Samples.computed_expr 9 (FxDict [])) MoreSamples.inner_dict_elements
    Samples.initial_state
  = (Some (FxDict [(bytes_of "a", FxInteger 1%Z)]),
     {| context := Samples.empty_context; evaluated := [9; 1; 2]; messages := [] |}).
Proof.
  destruct (proj2 (proj2 (@inner_dict_literal_is_all_or_nothing
                            MoreSamples.sample_clone MoreSamples.sample_set_subscript
                            MoreSamples.sample_create_dict
                            (Samples.computed_expr 9 (FxDict []))
                            MoreSamples.inner_dict_elements Samples.initial_state))
              (FxDict [(bytes_of "a", FxInteger 1%Z)]) eq_refl)
    as (root & fillable & _ & _ & _ & Hevaluated).
  reflexivity.
Defined.
